(** * Wave planner of [dev/dev_scripts/generate_parallel_execution_plan.py]

    A shallow embedding of the planner (pattern matcher, task registry,
    priority topological sort, greedy wave packing, plan statistics) and the
    properties of it that the specification states. *)

From Stdlib Require Import ZArith Ascii String List Bool Lia Permutation Sorted.
From stdpp Require Import gmap strings list sorting.

Local Open Scope string_scope.
#[local] Set Warnings "-clear-no-such-hyp".

(** ** Python string primitives

    Python [str] values are modelled as Rocq strings (sequences of
    characters compared by code). *)

Module PyStr.

(** [sub in s] *)
Fixpoint contains (sub s : string) : bool :=
  String.prefix sub s ||
  match s with
  | EmptyString => false
  | String _ s' => contains sub s'
  end.

(** [s.replace(old, new)] for a non-empty [old]: the occurrences are
    replaced from the left and do not overlap; [skip] counts the characters
    of an occurrence still to be dropped. *)
Fixpoint replace_from (old new : string) (skip : nat) (s : string) : string :=
  match s with
  | EmptyString => EmptyString
  | String c s' =>
      match skip with
      | S k => replace_from old new k s'
      | O =>
          if String.prefix old s
          then new ++ replace_from old new (String.length old - 1) s'
          else String c (replace_from old new 0 s')
      end
  end.

Definition replace (old new s : string) : string := replace_from old new 0 s.

(** [s.lstrip(c)] for a single character [c] *)
Fixpoint lstrip (c : ascii) (s : string) : string :=
  match s with
  | EmptyString => EmptyString
  | String a s' => if Ascii.eqb a c then lstrip c s' else s
  end.

(** [s.rstrip(c)] for a single character [c] *)
Fixpoint rstrip (c : ascii) (s : string) : string :=
  match s with
  | EmptyString => EmptyString
  | String a s' =>
      match rstrip c s' with
      | EmptyString => if Ascii.eqb a c then EmptyString else String a EmptyString
      | r => String a r
      end
  end.

(** [s.split(c)] for a single character separator *)
Fixpoint split (c : ascii) (s : string) : list string :=
  match s with
  | EmptyString => [EmptyString]
  | String a s' =>
      if Ascii.eqb a c then EmptyString :: split c s'
      else match split c s' with
           | [] => [String a EmptyString]
           | p :: ps => String a p :: ps
           end
  end.

(** [s.endswith(suffix)] *)
Fixpoint endswith (s suffix : string) : bool :=
  String.eqb s suffix ||
  match s with
  | EmptyString => false
  | String _ s' => endswith s' suffix
  end.

(** Truthiness of a string: non-empty. *)
Definition truthy (s : string) : bool :=
  match s with EmptyString => false | _ => true end.

(** Order of [str] values: by character code, a proper prefix first. *)
Definition lt (s1 s2 : string) : bool :=
  match String.compare s1 s2 with Lt => true | _ => false end.

End PyStr.

(** ** The regular-expression engine

    [re.search(pattern, text)] of the Python library finds a match, finds
    none, or raises [re.error] when the pattern does not compile: these
    are the outcomes of [re_result].  On a pattern beyond a limit of the
    implementation (the largest repeat count, the recursion depth) it
    raises an exception of another class; [re_outcome] below adds those,
    and [Propagating] is the planner with them. *)

Inductive re_result : Type :=
| re_found (b : bool)   (* [bool(re.search(...))] *)
| re_error.             (* [re.error] raised *)

(** What [try: return bool(re.search(p, s)) except re.error: return False]
    returns. *)
Definition search_or_false (r : re_result) : bool :=
  match r with
  | re_found b => b
  | re_error => false
  end.

(** ** FilePattern *)

Module FilePattern.
Record t : Type := mk { pattern : string; type : string }.
End FilePattern.

Definition glob_to_regex (pattern : string) : string :=
  PyStr.replace "*" "[^/]*" (PyStr.replace "**/" ".*" pattern).

Section Matcher.

Variable re_search : string -> string -> re_result.

(** [FilePattern.matches], where the engine returns or raises [re.error]
    ([Propagating.matches] has the other exceptions too). *)
Definition matches (self : FilePattern.t) (file_path : string) : bool :=
  if String.eqb (FilePattern.type self) "exact" then
    String.eqb (FilePattern.pattern self) file_path
  else if String.eqb (FilePattern.type self) "regex" then
    search_or_false (re_search (FilePattern.pattern self) file_path)
  else if String.eqb (FilePattern.type self) "glob" then
    let regex_pattern := glob_to_regex (FilePattern.pattern self) in
    search_or_false (re_search regex_pattern file_path)
  else false.

(** *** Pattern overlap *)

Definition newline : ascii := ascii_of_nat 10.

(** The characters of the class in
    [re.sub(r'[\.\*\[\]\(\)\?\+\{\}\\].*$', '', pattern)]. *)
Definition is_base_meta (c : ascii) : bool :=
  existsb (Ascii.eqb c)
    ["."; "*"; "["; "]"; "("; ")"; "?"; "+"; "{"; "}"; "\"]%char.

(** [.*$] matches at the start of [s]: [.] takes no newline and [$] holds at
    the end of the text or before a newline that ends it. *)
Fixpoint tail_matches (s : string) : bool :=
  match s with
  | EmptyString => true
  | String c s' =>
      if Ascii.eqb c newline then String.eqb s' EmptyString
      else tail_matches s'
  end.

(** What [.*$] leaves of [s] when it matches there: a final newline. *)
Fixpoint tail_left (s : string) : string :=
  match s with
  | EmptyString => EmptyString
  | String c s' => if Ascii.eqb c newline then s else tail_left s'
  end.

(** The [re.sub] of [_extract_base_path]: the text is cut at the leftmost
    class character from which [.*$] matches. *)
Fixpoint sub_meta_tail (s : string) : string :=
  match s with
  | EmptyString => EmptyString
  | String c s' =>
      if is_base_meta c && tail_matches s' then tail_left s'
      else String c (sub_meta_tail s')
  end.

Definition _extract_base_path (pattern : string) : string :=
  let base := sub_meta_tail pattern in
  PyStr.rstrip "/" base.

Definition wildcards : list string :=
  [".*"; ".+"; "["; "]"; "("; "|"; "{"; "}"; "?"; "+"; "*"].

Definition _is_exact_regex (pattern : string) : bool :=
  let cleaned := PyStr.rstrip "$" (PyStr.lstrip "^" pattern) in
  negb (existsb (fun wildcard => PyStr.contains wildcard cleaned) wildcards).

(** [pattern.lstrip('^').rstrip('$').replace('\.', '.')] *)
Definition normalize_exact (pattern : string) : string :=
  PyStr.replace "\." "." (PyStr.rstrip "$" (PyStr.lstrip "^" pattern)).

(** [[p for p in base.split('/') if p]] *)
Definition path_parts (base : string) : list string :=
  List.filter PyStr.truthy (PyStr.split "/" base).

(** The loop that collects the common leading segments and breaks at the
    first difference. *)
Fixpoint common_prefix (parts1 parts2 : list string) : list string :=
  match parts1, parts2 with
  | p1 :: r1, p2 :: r2 =>
      if String.eqb p1 p2 then p1 :: common_prefix r1 r2 else []
  | _, _ => []
  end.

Definition base_candidates (base : string) : list string :=
  [ base ++ ".ts";
    base ++ "/file.ts";
    base ++ "/sub/file.ts";
    base ++ "/handlers/file.ts";
    base ++ "/ado-service.ts";
    base ++ "/tool-service.ts";
    base ++ "/response-builder.ts" ].

Definition services_candidates : list string :=
  [ "mcp_server/src/services/ado-work-item-service.ts";
    "mcp_server/src/services/ado-query-service.ts";
    "mcp_server/src/services/tool-service.ts";
    "mcp_server/src/services/handlers/handler.ts";
    "mcp_server/src/services/handlers/wit-handler.ts" ].

Definition utils_candidates : list string :=
  [ "mcp_server/src/utils/response-builder.ts";
    "mcp_server/src/utils/logger.ts";
    "mcp_server/src/utils/auth.ts" ].

Definition test_paths (base1 base2 : string) : list string :=
  (if PyStr.truthy base1 then base_candidates base1 else []) ++
  (if PyStr.truthy base2 && negb (String.eqb base2 base1)
   then base_candidates base2 else []) ++
  (if PyStr.contains "services" base1 || PyStr.contains "services" base2
   then services_candidates else []) ++
  (if PyStr.contains "utils" base1 || PyStr.contains "utils" base2
   then utils_candidates else []).

(** The three counters of the probe loop:
    [(overlap_count, match1_count, match2_count)]. *)
Definition probe_counts (pattern1 pattern2 : FilePattern.t)
    (paths : list string) : nat * nat * nat :=
  fold_left
    (fun '(overlap_count, match1_count, match2_count) path =>
       let matches1 := matches pattern1 path in
       let matches2 := matches pattern2 path in
       ((if matches1 && matches2 then S overlap_count else overlap_count),
        (if matches1 then S match1_count else match1_count),
        (if matches2 then S match2_count else match2_count)))
    paths (0, 0, 0).

Definition _generate_and_test_paths (pattern1 pattern2 : FilePattern.t)
    (base1 base2 : string) : bool :=
  let parts1 := path_parts base1 in
  let parts2 := path_parts base2 in
  let common := common_prefix parts1 parts2 in
  let '(overlap_count, match1_count, match2_count) :=
    probe_counts pattern1 pattern2 (test_paths base1 base2) in
  if (0 <? overlap_count)%nat then true
  else if (0 <? match1_count)%nat && (0 <? match2_count)%nat then
    if (3 <=? length common)%nat then true else false
  else false.

Definition _check_regex_pattern_overlap (pattern1 pattern2 : FilePattern.t)
    : bool :=
  if _is_exact_regex (FilePattern.pattern pattern1)
     && _is_exact_regex (FilePattern.pattern pattern2)
  then String.eqb (normalize_exact (FilePattern.pattern pattern1))
                  (normalize_exact (FilePattern.pattern pattern2))
  else
    let base1 := _extract_base_path (FilePattern.pattern pattern1) in
    let base2 := _extract_base_path (FilePattern.pattern pattern2) in
    let parts1 := path_parts base1 in
    let parts2 := path_parts base2 in
    match parts1, parts2 with
    | [], _ | _, [] => true
    | _, _ =>
        let min_len := Nat.min (length parts1) (length parts2) in
        if bool_decide (firstn min_len parts1 = firstn min_len parts2)
        then _generate_and_test_paths pattern1 pattern2 base1 base2
        else false
    end.

(** The reclassification of [_patterns_conflict]: a pattern whose text has
    one of [\.], [.*], [$], [^] counts as a regex. *)
Definition actual_type (p : FilePattern.t) : string :=
  let s := FilePattern.pattern p in
  if PyStr.contains "\." s || PyStr.contains ".*" s
     || PyStr.contains "$" s || PyStr.contains "^" s
  then "regex" else FilePattern.type p.

Definition regex_or_glob (t : string) : bool :=
  String.eqb t "regex" || String.eqb t "glob".

Definition _patterns_conflict (pattern1 pattern2 : FilePattern.t) : bool :=
  let actual_type1 := actual_type pattern1 in
  let actual_type2 := actual_type pattern2 in
  if String.eqb actual_type1 "exact" && String.eqb actual_type2 "exact" then
    String.eqb (FilePattern.pattern pattern1) (FilePattern.pattern pattern2)
  else if regex_or_glob actual_type1 && regex_or_glob actual_type2 then
    if _is_exact_regex (FilePattern.pattern pattern1)
       && _is_exact_regex (FilePattern.pattern pattern2)
    then String.eqb (normalize_exact (FilePattern.pattern pattern1))
                    (normalize_exact (FilePattern.pattern pattern2))
    else _check_regex_pattern_overlap pattern1 pattern2
  else if String.eqb actual_type1 "exact" && regex_or_glob actual_type2 then
    matches pattern2 (FilePattern.pattern pattern1)
  else if String.eqb actual_type2 "exact" && regex_or_glob actual_type1 then
    matches pattern1 (FilePattern.pattern pattern2)
  else false.

End Matcher.

(** ** A reference engine for a fragment of the [re] syntax

    The planner is stated over any engine.  To evaluate it on concrete
    patterns, this module gives the behaviour of [re.search] on ASCII text
    for patterns built from literal characters, [.], [^], [$], a backslash
    before a punctuation character, bracket sets of plain characters
    ([[abc]], [[^/]]) and the greedy repeats [*], [+], [?].  Groups,
    alternation, counted repeats, ranges, class escapes and lazy repeats are
    outside the fragment: [covers] tells whether a pattern and a text are
    inside it, and the engine is only evaluated where it holds. *)

Module ReFragment.

Inductive atom : Type :=
| AChar (c : ascii)
| AAny
| ASet (negated : bool) (members : list ascii)
| ABol
| AEol.

Inductive quant : Type := QOne | QStar | QPlus | QOpt.

Definition item : Type := (atom * quant)%type.

Inductive parse_result : Type :=
| Parsed (items : list item)
| Malformed      (* [re.error] *)
| Unsupported.   (* outside the fragment *)

Inductive pstate : Type :=
| PNormal
| PEscape
| PSetOpen
| PSet (negated first : bool) (members : list ascii).

Inductive pstep_result : Type :=
| Next (st : pstate) (acc : list item)
| Stop (r : parse_result).

Definition is_digit (c : ascii) : bool :=
  let n := nat_of_ascii c in (48 <=? n)%nat && (n <=? 57)%nat.

Definition is_letter (c : ascii) : bool :=
  let n := nat_of_ascii c in
  ((65 <=? n)%nat && (n <=? 90)%nat) || ((97 <=? n)%nat && (n <=? 122)%nat).

Definition is_ascii (c : ascii) : bool := (nat_of_ascii c <? 128)%nat.

Definition quant_of (c : ascii) : option quant :=
  if Ascii.eqb c "*" then Some QStar
  else if Ascii.eqb c "+" then Some QPlus
  else if Ascii.eqb c "?" then Some QOpt
  else None.

Definition is_anchor (a : atom) : bool :=
  match a with ABol | AEol => true | _ => false end.

Definition set_step (negated first : bool) (members : list ascii)
    (acc : list item) (c : ascii) : pstep_result :=
  if Ascii.eqb c "]" && negb first then
    Next PNormal ((ASet negated (rev members), QOne) :: acc)
  else if Ascii.eqb c "\" || Ascii.eqb c "-" || Ascii.eqb c "[" then
    Stop Unsupported
  else Next (PSet negated false (c :: members)) acc.

Definition pstep (st : pstate) (acc : list item) (c : ascii) : pstep_result :=
  match st with
  | PNormal =>
      match quant_of c with
      | Some q =>
          match acc with
          | [] => Stop Malformed                      (* nothing to repeat *)
          | (a, QOne) :: acc' =>
              if is_anchor a then Stop Malformed      (* nothing to repeat *)
              else Next PNormal ((a, q) :: acc')
          | _ => Stop Unsupported                     (* repeat of a repeat *)
          end
      | None =>
          if Ascii.eqb c "\" then Next PEscape acc
          else if Ascii.eqb c "[" then Next PSetOpen acc
          else if Ascii.eqb c ")" then Stop Malformed (* unbalanced *)
          else if Ascii.eqb c "(" || Ascii.eqb c "|" || Ascii.eqb c "{"
          then Stop Unsupported
          else if Ascii.eqb c "." then Next PNormal ((AAny, QOne) :: acc)
          else if Ascii.eqb c "^" then Next PNormal ((ABol, QOne) :: acc)
          else if Ascii.eqb c "$" then Next PNormal ((AEol, QOne) :: acc)
          else Next PNormal ((AChar c, QOne) :: acc)
      end
  | PEscape =>
      if is_digit c || is_letter c then Stop Unsupported
      else Next PNormal ((AChar c, QOne) :: acc)
  | PSetOpen =>
      if Ascii.eqb c "^" then Next (PSet true true []) acc
      else set_step false true [] acc c
  | PSet negated first members => set_step negated first members acc c
  end.

Fixpoint parse_from (st : pstate) (acc : list item) (s : string)
    : parse_result :=
  match s with
  | EmptyString =>
      match st with
      | PNormal => Parsed (rev acc)
      | PEscape => Malformed                          (* bad escape *)
      | PSetOpen | PSet _ _ _ => Malformed            (* unterminated set *)
      end
  | String c s' =>
      if is_ascii c then
        match pstep st acc c with
        | Next st' acc' => parse_from st' acc' s'
        | Stop r => r
        end
      else Unsupported
  end.

Definition parse (pattern : string) : parse_result :=
  parse_from PNormal [] pattern.

Definition atom_ok (a : atom) (c : ascii) : bool :=
  match a with
  | AChar c' => Ascii.eqb c c'
  | AAny => negb (Ascii.eqb c newline)
  | ASet negated members => xorb negated (existsb (Ascii.eqb c) members)
  | ABol | AEol => false
  end.

(** [$] holds at the end of the text and before a newline that ends it. *)
Definition at_eol (s : string) : bool :=
  String.eqb s EmptyString || String.eqb s (String newline EmptyString).

(** Some prefix of [s] matches [items]; [bol] tells whether [s] starts at
    position 0. *)
Fixpoint match_here (items : list item) (bol : bool) (s : string) : bool :=
  match items with
  | [] => true
  | (ABol, _) :: rest => bol && match_here rest bol s
  | (AEol, _) :: rest => at_eol s && match_here rest bol s
  | (a, QOne) :: rest =>
      match s with
      | String c s' => atom_ok a c && match_here rest false s'
      | EmptyString => false
      end
  | (a, QOpt) :: rest =>
      match s with
      | String c s' => atom_ok a c && match_here rest false s'
      | EmptyString => false
      end || match_here rest bol s
  | (a, QStar) :: rest =>
      (fix star (bol : bool) (s : string) : bool :=
         match s with
         | String c s' => atom_ok a c && star false s'
         | EmptyString => false
         end || match_here rest bol s) bol s
  | (a, QPlus) :: rest =>
      match s with
      | String c s' =>
          atom_ok a c &&
          (fix star (bol : bool) (s : string) : bool :=
             match s with
             | String c s' => atom_ok a c && star false s'
             | EmptyString => false
             end || match_here rest bol s) false s'
      | EmptyString => false
      end
  end.

(** A match starts at some position of [s]. *)
Fixpoint search_from (items : list item) (bol : bool) (s : string) : bool :=
  match_here items bol s ||
  match s with
  | String _ s' => search_from items false s'
  | EmptyString => false
  end.

Fixpoint all_ascii (s : string) : bool :=
  match s with
  | EmptyString => true
  | String c s' => is_ascii c && all_ascii s'
  end.

Definition covers (pattern text : string) : bool :=
  all_ascii text &&
  match parse pattern with Unsupported => false | _ => true end.

Definition re_search (pattern text : string) : re_result :=
  match parse pattern with
  | Parsed items => re_found (search_from items true text)
  | Malformed | Unsupported => re_error
  end.

End ReFragment.

(** ** Exceptions and results

    A computation returns a value or raises; [OutOfFuel] is the outcome of a
    loop of the model that was given too few iterations (the theorems show
    that the planner never reaches it). *)

Inductive exn : Type :=
| KeyError (key : string)
| ValueError (msg : string).

Inductive py (A : Type) : Type :=
| Ok (a : A)
| Raise (e : exn)
| OutOfFuel.

Arguments Ok {A} a.
Arguments Raise {A} e.
Arguments OutOfFuel {A}.

#[global] Instance py_bind : MBind py := fun A B f m =>
  match m with
  | Ok a => f a
  | Raise e => Raise e
  | OutOfFuel => OutOfFuel
  end.

Fixpoint map_py {A B : Type} (f : A -> py B) (l : list A) : py (list B) :=
  match l with
  | [] => Ok []
  | x :: l' => y ← f x; ys ← map_py f l'; Ok (y :: ys)
  end.

(** ** Dictionaries in insertion order *)

Module Dict.

Definition t (V : Type) : Type := list (string * V).

Fixpoint get {V : Type} (d : t V) (k : string) : option V :=
  match d with
  | [] => None
  | (k', v) :: d' => if String.eqb k' k then Some v else get d' k
  end.

(** [d[k] = v]: an existing key keeps its place. *)
Fixpoint set {V : Type} (d : t V) (k : string) (v : V) : t V :=
  match d with
  | [] => [(k, v)]
  | (k', v') :: d' =>
      if String.eqb k' k then (k', v) :: d' else (k', v') :: set d' k v
  end.

Definition keys {V : Type} (d : t V) : list string := map fst d.
Definition values {V : Type} (d : t V) : list V := map snd d.

(** [d[k]], which raises [KeyError] on a missing key. *)
Definition item {V : Type} (d : t V) (k : string) : py V :=
  match get d k with
  | Some v => Ok v
  | None => Raise (KeyError k)
  end.

End Dict.

(** [x in l] for a list of strings *)
Definition list_mem (x : string) (l : list string) : bool :=
  existsb (String.eqb x) l.

(** ** Tasks and the input feeds *)

Module Task.
Record t : Type := mk {
  task_id : string;
  size : string;
  expected_runtime_min : Z;
  depends_on : list string;
  conflicts_with : list string;
  file_patterns : list FilePattern.t;
  tags : list string;
  enabler : bool
}.
End Task.

(** A record of [dependency_graph.json]; an absent field is [None]. *)
Module DepRecord.
Record t : Type := mk {
  task_id : option string;
  size : option string;
  expected_runtime_min : option Z;
  depends_on : option (list string);
  tags : option (list string);
  enabler : option bool
}.
End DepRecord.

(** An entry of a [files] list: an object, a string (legacy format) or any
    other JSON value. *)
Inductive file_info : Type :=
| FileDict (pattern type : option string)
| FileStr (s : string)
| FileOther.

(** A record of [conflict_graph.json].  The feed written by the sibling
    scripts carries a [conflicts_with] list. *)
Module ConflictRecord.
Record t : Type := mk {
  task_id : option string;
  conflicts_with : list string;
  files : option (list file_info)
}.
End ConflictRecord.

(** ** ParallelExecutionPlanner

    [dependency_graph] and [reverse_dependency_graph] are
    [defaultdict(set)]: a missing key reads as the empty set.
    ([file_conflicts] is never read or written.) *)

Record Planner : Type := mkPlanner {
  tasks : Dict.t Task.t;
  dependency_graph : gmap string (gset string);
  reverse_dependency_graph : gmap string (gset string)
}.

Definition graph_get (g : gmap string (gset string)) (k : string)
    : gset string :=
  default ∅ (g !! k).

(** [g[k].add(v)] *)
Definition graph_add (g : gmap string (gset string)) (k v : string)
    : gmap string (gset string) :=
  <[k := {[v]} ∪ graph_get g k]> g.

Definition new_planner : Planner := mkPlanner [] ∅ ∅.

Definition file_patterns_of (info : file_info) : list FilePattern.t :=
  match info with
  | FileDict pattern type =>
      [FilePattern.mk (default "" pattern) (default "exact" type)]
  | FileStr s =>
      if PyStr.contains "**" s || PyStr.endswith s "/**"
      then [FilePattern.mk s "glob"]
      else [FilePattern.mk s "exact"]
  | FileOther => []
  end.

Fixpoint build_file_pattern_map (file_patterns_data : list ConflictRecord.t)
    (file_pattern_map : gmap string (list FilePattern.t))
    : py (gmap string (list FilePattern.t)) :=
  match file_patterns_data with
  | [] => Ok file_pattern_map
  | task_data :: rest =>
      match ConflictRecord.task_id task_data with
      | None => Raise (KeyError "task_id")
      | Some task_id =>
          let file_patterns :=
            flat_map file_patterns_of
              (default [] (ConflictRecord.files task_data)) in
          build_file_pattern_map rest (<[task_id := file_patterns]> file_pattern_map)
      end
  end.

Definition add_dependencies (task_id : string) (deps : list string)
    (self : Planner) : Planner :=
  fold_left
    (fun self dep =>
       mkPlanner (tasks self)
         (graph_add (dependency_graph self) task_id dep)
         (graph_add (reverse_dependency_graph self) dep task_id))
    deps self.

Definition make_task (file_pattern_map : gmap string (list FilePattern.t))
    (task_id : string) (task_data : DepRecord.t) : Task.t :=
  Task.mk task_id
    (default "M" (DepRecord.size task_data))
    (default 20%Z (DepRecord.expected_runtime_min task_data))
    (default [] (DepRecord.depends_on task_data))
    []
    (default [] (file_pattern_map !! task_id))
    (default [] (DepRecord.tags task_data))
    (default false (DepRecord.enabler task_data)).

Fixpoint load_tasks (dependencies : list DepRecord.t)
    (file_pattern_map : gmap string (list FilePattern.t))
    (self : Planner) : py Planner :=
  match dependencies with
  | [] => Ok self
  | task_data :: rest =>
      match DepRecord.task_id task_data with
      | None => Raise (KeyError "task_id")
      | Some task_id =>
          let task := make_task file_pattern_map task_id task_data in
          let self :=
            mkPlanner (Dict.set (tasks self) task_id task)
              (dependency_graph self) (reverse_dependency_graph self) in
          load_tasks rest file_pattern_map
            (add_dependencies task_id (Task.depends_on task) self)
      end
  end.

(** [load_data], on the parsed contents of the two files. *)
Definition load_data (dependencies : list DepRecord.t)
    (file_patterns_data : list ConflictRecord.t) : py Planner :=
  file_pattern_map ← build_file_pattern_map file_patterns_data ∅;
  load_tasks dependencies file_pattern_map new_planner.

(** ** Sorting

    [list.sort(key=...)] computes the keys and sorts stably by them; the
    keys of the planner are pairs of an integer and a string, compared as
    tuples. *)

Definition sort_key : Type := (Z * string)%type.

Definition key_lt (k1 k2 : sort_key) : bool :=
  (k1.1 <? k2.1)%Z || ((k1.1 =? k2.1)%Z && PyStr.lt k1.2 k2.2).

Fixpoint insert_keyed {A : Type} (x : sort_key * A)
    (l : list (sort_key * A)) : list (sort_key * A) :=
  match l with
  | [] => [x]
  | y :: l' =>
      if key_lt y.1 x.1 then y :: insert_keyed x l' else x :: y :: l'
  end.

Fixpoint sort_keyed {A : Type} (l : list (sort_key * A))
    : list (sort_key * A) :=
  match l with
  | [] => []
  | x :: l' => insert_keyed x (sort_keyed l')
  end.

(** ** Iteration order of sets

    The order in which Python iterates over a set of strings is not fixed
    by its elements (string hashes are salted per process).  An order is
    an enumeration of every set, given the key whose set it is. *)

Record set_order : Type := mk_set_order {
  iter_set : string -> gset string -> list string;
  iter_set_perm : forall owner X, iter_set owner X ≡ₚ elements X
}.

Definition canonical_order : set_order :=
  mk_set_order (fun _ X => elements X) (fun _ _ => reflexivity _).

(** ** Plans *)

Module WaveTask.
Record t : Type := mk {
  task_id : string;
  size : string;
  expected_runtime_min : Z;
  tags : list string;
  enabler : bool;
  files : list string
}.
End WaveTask.

Module Wave.
Record t : Type := mk {
  wave_number : nat;
  tasks : list WaveTask.t;
  parallel_task_count : nat;
  estimated_wave_time_min : Z;
  size_distribution : Dict.t nat
}.
End Wave.

(** The summary of a plan.  [average_parallelism] and
    [time_savings_percent] are floating-point roundings of quotients of the
    integers recorded here ([total_tasks / total_waves] and
    [1 - parallel_time_min / sequential_time_min]) and are not modelled. *)
Module Summary.
Record t : Type := mk {
  total_waves : nat;
  total_tasks : nat;
  estimated_total_time_min : Z;
  max_parallelism : nat;
  sequential_time_min : Z;
  parallel_time_min : Z
}.
End Summary.

Module ExecutionPlan.
Record t : Type := mk {
  waves : list Wave.t;
  summary : Summary.t
}.
End ExecutionPlan.

(** [sum(...)] and [max(..., default=0)] *)
Definition sum_Z (l : list Z) : Z := fold_left Z.add l 0%Z.

Definition max_default0 (l : list Z) : Z :=
  match l with
  | [] => 0%Z
  | x :: l' => fold_left Z.max l' x
  end.

Definition max_nat0 (l : list nat) : nat :=
  match l with
  | [] => 0
  | x :: l' => fold_left Nat.max l' x
  end.

Definition _get_size_distribution (tasks : list WaveTask.t) : Dict.t nat :=
  fold_left
    (fun distribution task =>
       let size := WaveTask.size task in
       Dict.set distribution size (default 0 (Dict.get distribution size) + 1))
    tasks [].

Definition wave_task_of (task : Task.t) : WaveTask.t :=
  WaveTask.mk (Task.task_id task) (Task.size task)
    (Task.expected_runtime_min task) (Task.tags task) (Task.enabler task)
    (map FilePattern.pattern (Task.file_patterns task)).

Section Planner.

Variable re_search : string -> string -> re_result.
Variable order : set_order.

Definition _check_file_conflict (task1 task2 : Task.t) : bool :=
  if String.eqb (Task.task_id task1) (Task.task_id task2) then false
  else if list_mem (Task.task_id task2) (Task.conflicts_with task1)
          || list_mem (Task.task_id task1) (Task.conflicts_with task2)
  then true
  else
    existsb
      (fun pattern1 =>
         existsb (fun pattern2 => _patterns_conflict re_search pattern1 pattern2)
           (Task.file_patterns task2))
      (Task.file_patterns task1).

Definition _get_task_priority (self : Planner) (task : Task.t) : sort_key :=
  let dependent_count :=
    size (graph_get (reverse_dependency_graph self) (Task.task_id task)) in
  ((- Z.of_nat dependent_count)%Z, Task.task_id task).

(** [available_tasks.sort(key=lambda tid:
    self._get_task_priority(self.tasks[tid]))] *)
Definition sort_by_priority (self : Planner) (available_tasks : list string)
    : py (list string) :=
  keyed ← map_py
    (fun tid => task ← Dict.item (tasks self) tid;
                Ok (_get_task_priority self task, tid))
    available_tasks;
  Ok (map snd (sort_keyed keyed)).

Definition degree_get (in_degree : gmap string Z) (k : string) : Z :=
  default 0%Z (in_degree !! k).

(** The loop over the dependents of the task just emitted. *)
Fixpoint release (dependents : list string) (in_degree : gmap string Z)
    (available_tasks : list string) : gmap string Z * list string :=
  match dependents with
  | [] => (in_degree, available_tasks)
  | dependent :: rest =>
      let in_degree := <[dependent := (degree_get in_degree dependent - 1)%Z]> in_degree in
      if (degree_get in_degree dependent =? 0)%Z
      then release rest in_degree (available_tasks ++ [dependent])
      else release rest in_degree available_tasks
  end.

(** The [while available_tasks] loop, for at most [fuel] iterations. *)
Fixpoint topo_loop (fuel : nat) (self : Planner) (in_degree : gmap string Z)
    (available_tasks result : list string) : py (list string) :=
  match available_tasks with
  | [] => Ok result
  | _ :: _ =>
      match fuel with
      | O => OutOfFuel
      | S fuel =>
          sorted ← sort_by_priority self available_tasks;
          match sorted with
          | [] => Ok result
          | current_task :: available_tasks =>
              let dependents :=
                iter_set order current_task
                  (graph_get (reverse_dependency_graph self) current_task) in
              let '(in_degree, available_tasks) :=
                release dependents in_degree available_tasks in
              topo_loop fuel self in_degree available_tasks
                (result ++ [current_task])
          end
      end
  end.

Definition initial_in_degree (self : Planner) : gmap string Z :=
  fold_left
    (fun in_degree task_id =>
       <[task_id := Z.of_nat (size (graph_get (dependency_graph self) task_id))]>
         in_degree)
    (Dict.keys (tasks self)) ∅.

Definition _topological_sort_with_priority (self : Planner)
    : py (list string) :=
  let in_degree := initial_in_degree self in
  let available_tasks :=
    List.filter (fun task_id => (degree_get in_degree task_id =? 0)%Z)
      (Dict.keys (tasks self)) in
  result ← topo_loop (length (tasks self)) self in_degree available_tasks [];
  if negb (length result =? length (tasks self))%nat
  then Raise (ValueError "Circular dependency detected!")
  else Ok result.

(** The ready tasks of a wave, in the order of [sorted_tasks]. *)
Fixpoint ready_tasks (self : Planner) (sorted_tasks : list string)
    (completed_tasks : gset string) : py (list Task.t) :=
  match sorted_tasks with
  | [] => Ok []
  | task_id :: rest =>
      if bool_decide (task_id ∈ completed_tasks)
      then ready_tasks self rest completed_tasks
      else
        task ← Dict.item (tasks self) task_id;
        available_tasks ← ready_tasks self rest completed_tasks;
        if forallb (fun dep => bool_decide (dep ∈ completed_tasks))
             (Task.depends_on task)
        then Ok (task :: available_tasks)
        else Ok available_tasks
  end.

(** [available_tasks.sort(key=lambda t: (len(t.conflicts_with),
    t.task_id))] *)
Definition sort_by_conflicts (available_tasks : list Task.t) : list Task.t :=
  map snd
    (sort_keyed
       (map (fun t => ((Z.of_nat (length (Task.conflicts_with t)),
                        Task.task_id t), t))
          available_tasks)).

(** The inner loop over the tasks already selected for the wave. *)
Fixpoint can_add (self : Planner) (task : Task.t)
    (wave_tasks : list WaveTask.t) : py bool :=
  match wave_tasks with
  | [] => Ok true
  | selected_task_dict :: rest =>
      selected_task ← Dict.item (tasks self) (WaveTask.task_id selected_task_dict);
      if _check_file_conflict task selected_task then Ok false
      else can_add self task rest
  end.

(** Greedy packing: the loop over the sorted ready tasks. *)
Fixpoint pack_wave (self : Planner) (available_tasks : list Task.t)
    (wave_tasks : list WaveTask.t) (used_task_ids completed_tasks : gset string)
    : py (list WaveTask.t * gset string) :=
  match available_tasks with
  | [] => Ok (wave_tasks, completed_tasks)
  | task :: rest =>
      if bool_decide (Task.task_id task ∈ used_task_ids)
      then pack_wave self rest wave_tasks used_task_ids completed_tasks
      else
        ok ← can_add self task wave_tasks;
        if ok : bool then
          pack_wave self rest (wave_tasks ++ [wave_task_of task])
            ({[Task.task_id task]} ∪ used_task_ids)
            ({[Task.task_id task]} ∪ completed_tasks)
        else pack_wave self rest wave_tasks used_task_ids completed_tasks
  end.

Definition make_wave (waves : list Wave.t) (wave_tasks : list WaveTask.t)
    : Wave.t :=
  let wave_total_time :=
    max_default0 (map WaveTask.expected_runtime_min wave_tasks) in
  Wave.mk (length waves + 1) wave_tasks (length wave_tasks) wave_total_time
    (_get_size_distribution wave_tasks).

(** The [while completed_tasks != set(self.tasks.keys())] loop, for at most
    [fuel] iterations. *)
Fixpoint plan_loop (fuel : nat) (self : Planner) (sorted_tasks : list string)
    (waves : list Wave.t) (completed_tasks : gset string)
    : py (list Wave.t) :=
  if bool_decide (completed_tasks = list_to_set (Dict.keys (tasks self)))
  then Ok waves
  else
    match fuel with
    | O => OutOfFuel
    | S fuel =>
        available_tasks ← ready_tasks self sorted_tasks completed_tasks;
        match available_tasks with
        | [] =>
            Raise (ValueError "No available tasks - possible circular dependency!")
        | _ :: _ =>
            let available_tasks := sort_by_conflicts available_tasks in
            packed ← pack_wave self available_tasks [] ∅ completed_tasks;
            let '(wave_tasks, completed_tasks) := packed in
            let waves :=
              match wave_tasks with
              | [] => waves
              | _ :: _ => (waves ++ [make_wave waves wave_tasks])%list
              end in
            plan_loop fuel self sorted_tasks waves completed_tasks
        end
    end.

Definition make_summary (self : Planner) (waves : list Wave.t) : Summary.t :=
  let total_time := sum_Z (map Wave.estimated_wave_time_min waves) in
  let total_tasks := length (tasks self) in
  Summary.mk (length waves) total_tasks total_time
    (max_nat0 (map Wave.parallel_task_count waves))
    (sum_Z (map Task.expected_runtime_min (Dict.values (tasks self))))
    total_time.

Definition generate_execution_plan (self : Planner) : py ExecutionPlan.t :=
  sorted_tasks ← _topological_sort_with_priority self;
  waves ← plan_loop (length (tasks self)) self sorted_tasks [] ∅;
  Ok (ExecutionPlan.mk waves (make_summary self waves)).

(** [main]: load the two feeds, then plan. *)
Definition run_planner (dependencies : list DepRecord.t)
    (file_patterns_data : list ConflictRecord.t) : py ExecutionPlan.t :=
  planner ← load_data dependencies file_patterns_data;
  generate_execution_plan planner.

End Planner.

(** ** Exceptions that the engine lets through

    Besides [re.error], [re.search] raises [OverflowError] on a counted
    repeat beyond the limit of the engine, [RecursionError] on a pattern
    nested too deep, and may raise exceptions of other classes.  The
    handlers of [FilePattern.matches] name [re.error] only, so these
    exceptions leave [matches] and each caller up to [main], which prints
    and raises them again.  [re_result] and the definitions over it give
    the planner on the calls where the engine returns or raises
    [re.error]; the definitions of [Propagating] follow the same source
    with the other exceptions propagated, call by call in the order of the
    source. *)

Inductive engine_exn : Type :=
| OverflowError
| RecursionError
| OtherError (class_name : string).

Inductive re_outcome : Type :=
| re_returns (r : re_result)    (* a match, none, or [re.error] *)
| re_raises (e : engine_exn).   (* an exception that is no [re.error] *)

(** A computation of the planner ends as [py] has it, or with an exception
    of the engine. *)
Inductive run (A : Type) : Type :=
| Finished (r : py A)
| Escaped (e : engine_exn).

Arguments Finished {A} r.
Arguments Escaped {A} e.

#[global] Instance run_bind : MBind run := fun A B f m =>
  match m with
  | Finished (Ok a) => f a
  | Finished (Raise e) => Finished (Raise e)
  | Finished OutOfFuel => Finished OutOfFuel
  | Escaped e => Escaped e
  end.

Module Propagating.

Section Planner.

Variable engine : string -> string -> re_outcome.
Variable order : set_order.

(** [try: return bool(re.search(p, s)) except re.error: return False] *)
Definition try_search (pattern text : string) : run bool :=
  match engine pattern text with
  | re_returns r => Finished (Ok (search_or_false r))
  | re_raises e => Escaped e
  end.

(** [FilePattern.matches] *)
Definition matches (self : FilePattern.t) (file_path : string) : run bool :=
  if String.eqb (FilePattern.type self) "exact" then
    Finished (Ok (String.eqb (FilePattern.pattern self) file_path))
  else if String.eqb (FilePattern.type self) "regex" then
    try_search (FilePattern.pattern self) file_path
  else if String.eqb (FilePattern.type self) "glob" then
    let regex_pattern := glob_to_regex (FilePattern.pattern self) in
    try_search regex_pattern file_path
  else Finished (Ok false).

(** The probe loop: both patterns are tried on every candidate path, the
    first pattern first. *)
Fixpoint probe_counts (pattern1 pattern2 : FilePattern.t)
    (paths : list string) (counts : nat * nat * nat) : run (nat * nat * nat) :=
  match paths with
  | [] => Finished (Ok counts)
  | path :: rest =>
      matches1 ← matches pattern1 path;
      matches2 ← matches pattern2 path;
      let '(overlap_count, match1_count, match2_count) := counts in
      probe_counts pattern1 pattern2 rest
        ((if matches1 && matches2 then S overlap_count else overlap_count),
         (if matches1 then S match1_count else match1_count),
         (if matches2 then S match2_count else match2_count))
  end.

Definition _generate_and_test_paths (pattern1 pattern2 : FilePattern.t)
    (base1 base2 : string) : run bool :=
  let parts1 := path_parts base1 in
  let parts2 := path_parts base2 in
  let common := common_prefix parts1 parts2 in
  counts ← probe_counts pattern1 pattern2 (test_paths base1 base2) (0, 0, 0);
  let '(overlap_count, match1_count, match2_count) := counts in
  Finished (Ok
    (if (0 <? overlap_count)%nat then true
     else if (0 <? match1_count)%nat && (0 <? match2_count)%nat then
       if (3 <=? length common)%nat then true else false
     else false)).

Definition _check_regex_pattern_overlap (pattern1 pattern2 : FilePattern.t)
    : run bool :=
  if _is_exact_regex (FilePattern.pattern pattern1)
     && _is_exact_regex (FilePattern.pattern pattern2)
  then Finished (Ok (String.eqb (normalize_exact (FilePattern.pattern pattern1))
                                (normalize_exact (FilePattern.pattern pattern2))))
  else
    let base1 := _extract_base_path (FilePattern.pattern pattern1) in
    let base2 := _extract_base_path (FilePattern.pattern pattern2) in
    let parts1 := path_parts base1 in
    let parts2 := path_parts base2 in
    match parts1, parts2 with
    | [], _ | _, [] => Finished (Ok true)
    | _, _ =>
        let min_len := Nat.min (length parts1) (length parts2) in
        if bool_decide (firstn min_len parts1 = firstn min_len parts2)
        then _generate_and_test_paths pattern1 pattern2 base1 base2
        else Finished (Ok false)
    end.

Definition _patterns_conflict (pattern1 pattern2 : FilePattern.t) : run bool :=
  let actual_type1 := actual_type pattern1 in
  let actual_type2 := actual_type pattern2 in
  if String.eqb actual_type1 "exact" && String.eqb actual_type2 "exact" then
    Finished (Ok (String.eqb (FilePattern.pattern pattern1)
                             (FilePattern.pattern pattern2)))
  else if regex_or_glob actual_type1 && regex_or_glob actual_type2 then
    if _is_exact_regex (FilePattern.pattern pattern1)
       && _is_exact_regex (FilePattern.pattern pattern2)
    then Finished (Ok (String.eqb (normalize_exact (FilePattern.pattern pattern1))
                                  (normalize_exact (FilePattern.pattern pattern2))))
    else _check_regex_pattern_overlap pattern1 pattern2
  else if String.eqb actual_type1 "exact" && regex_or_glob actual_type2 then
    matches pattern2 (FilePattern.pattern pattern1)
  else if String.eqb actual_type2 "exact" && regex_or_glob actual_type1 then
    matches pattern1 (FilePattern.pattern pattern2)
  else Finished (Ok false).

(** A loop that returns [True] at the first element for which the test
    holds, and [False] after the last. *)
Fixpoint first_true {A : Type} (test : A -> run bool) (l : list A) : run bool :=
  match l with
  | [] => Finished (Ok false)
  | x :: l' =>
      found ← test x;
      if found : bool then Finished (Ok true) else first_true test l'
  end.

Definition _check_file_conflict (task1 task2 : Task.t) : run bool :=
  if String.eqb (Task.task_id task1) (Task.task_id task2) then Finished (Ok false)
  else if list_mem (Task.task_id task2) (Task.conflicts_with task1)
          || list_mem (Task.task_id task1) (Task.conflicts_with task2)
  then Finished (Ok true)
  else
    first_true
      (fun pattern1 =>
         first_true (fun pattern2 => _patterns_conflict pattern1 pattern2)
           (Task.file_patterns task2))
      (Task.file_patterns task1).

(** The inner loop over the tasks already selected for the wave. *)
Fixpoint can_add (self : Planner) (task : Task.t)
    (wave_tasks : list WaveTask.t) : run bool :=
  match wave_tasks with
  | [] => Finished (Ok true)
  | selected_task_dict :: rest =>
      selected_task ←
        Finished (Dict.item (tasks self) (WaveTask.task_id selected_task_dict));
      conflict ← _check_file_conflict task selected_task;
      if conflict : bool then Finished (Ok false)
      else can_add self task rest
  end.

(** Greedy packing: the loop over the sorted ready tasks. *)
Fixpoint pack_wave (self : Planner) (available_tasks : list Task.t)
    (wave_tasks : list WaveTask.t) (used_task_ids completed_tasks : gset string)
    : run (list WaveTask.t * gset string) :=
  match available_tasks with
  | [] => Finished (Ok (wave_tasks, completed_tasks))
  | task :: rest =>
      if bool_decide (Task.task_id task ∈ used_task_ids)
      then pack_wave self rest wave_tasks used_task_ids completed_tasks
      else
        ok ← can_add self task wave_tasks;
        if ok : bool then
          pack_wave self rest (wave_tasks ++ [wave_task_of task])
            ({[Task.task_id task]} ∪ used_task_ids)
            ({[Task.task_id task]} ∪ completed_tasks)
        else pack_wave self rest wave_tasks used_task_ids completed_tasks
  end.

(** The [while completed_tasks != set(self.tasks.keys())] loop, for at most
    [fuel] iterations. *)
Fixpoint plan_loop (fuel : nat) (self : Planner) (sorted_tasks : list string)
    (waves : list Wave.t) (completed_tasks : gset string)
    : run (list Wave.t) :=
  if bool_decide (completed_tasks = list_to_set (Dict.keys (tasks self)))
  then Finished (Ok waves)
  else
    match fuel with
    | O => Finished OutOfFuel
    | S fuel =>
        available_tasks ←
          Finished (ready_tasks self sorted_tasks completed_tasks);
        match available_tasks with
        | [] =>
            Finished
              (Raise (ValueError "No available tasks - possible circular dependency!"))
        | _ :: _ =>
            let available_tasks := sort_by_conflicts available_tasks in
            packed ← pack_wave self available_tasks [] ∅ completed_tasks;
            let '(wave_tasks, completed_tasks) := packed in
            let waves :=
              match wave_tasks with
              | [] => waves
              | _ :: _ => (waves ++ [make_wave waves wave_tasks])%list
              end in
            plan_loop fuel self sorted_tasks waves completed_tasks
        end
    end.

Definition generate_execution_plan (self : Planner) : run ExecutionPlan.t :=
  sorted_tasks ← Finished (_topological_sort_with_priority order self);
  waves ← plan_loop (length (tasks self)) self sorted_tasks [] ∅;
  Finished (Ok (ExecutionPlan.mk waves (make_summary self waves))).

(** [main]: load the two feeds, then plan. *)
Definition run_planner (dependencies : list DepRecord.t)
    (file_patterns_data : list ConflictRecord.t) : run ExecutionPlan.t :=
  planner ← Finished (load_data dependencies file_patterns_data);
  generate_execution_plan planner.

End Planner.

End Propagating.

(** The engine raised [e] on some call. *)
Definition raised (engine : string -> string -> re_outcome) (e : engine_exn)
    : Prop :=
  exists pattern text, engine pattern text = re_raises e.

(** [re_search] gives what the engine returns, wherever it returns. *)
Definition returns_of (engine : string -> string -> re_outcome)
    (re_search : string -> string -> re_result) : Prop :=
  forall pattern text r,
    engine pattern text = re_returns r -> re_search pattern text = r.


(** A computation with propagation ends as the one without, unless an
    exception of the engine ends it. *)
Definition follows {A : Type} (engine : string -> string -> re_outcome)
    (r : run A) (v : py A) : Prop :=
  r = Finished v \/ exists e, r = Escaped e /\ raised engine e.

(** ** Vocabulary of the properties *)

(** [x] is not after [y]: the relation a sorted list satisfies. *)
Definition keyed_le {A : Type} (x y : sort_key * A) : Prop :=
  key_lt y.1 x.1 = false.

(** What [load_data] establishes: the keys of [tasks] are the task ids,
    the two graphs are transposes of each other, only loaded tasks have
    dependencies, and the dependencies of a task are in the graph. *)
Record planner_wf (self : Planner) : Prop := mk_planner_wf {
  wf_keys_nodup : NoDup (Dict.keys (tasks self));
  wf_task_id : forall k t,
    Dict.get (tasks self) k = Some t -> Task.task_id t = k;
  wf_transpose : forall a b,
    a ∈ graph_get (reverse_dependency_graph self) b <->
    b ∈ graph_get (dependency_graph self) a;
  wf_dep_key : forall a b,
    b ∈ graph_get (dependency_graph self) a -> a ∈ Dict.keys (tasks self);
  wf_depends_on : forall k t d,
    Dict.get (tasks self) k = Some t -> d ∈ Task.depends_on t ->
    d ∈ graph_get (dependency_graph self) k
}.

(** The invariant of the [while available_tasks] loop of the topological
    sort: no id is emitted or queued twice, the counter of a task is the
    number of its dependencies not yet emitted, every emitted or queued id
    is a task all of whose dependencies are emitted, and every emitted id
    comes after its dependencies. *)
Record topo_inv (self : Planner) (in_degree : gmap string Z)
    (available_tasks result : list string) : Prop := mk_topo_inv {
  ti_nodup : NoDup (result ++ available_tasks);
  ti_degree : forall t, t ∈ Dict.keys (tasks self) ->
    degree_get in_degree t =
    Z.of_nat (size (graph_get (dependency_graph self) t ∖ list_to_set result));
  ti_ready : forall t, t ∈ (result ++ available_tasks)%list ->
    t ∈ Dict.keys (tasks self) /\
    graph_get (dependency_graph self) t ⊆ list_to_set result;
  ti_order : forall i t, result !! i = Some t ->
    graph_get (dependency_graph self) t ⊆ list_to_set (take i result)
}.

(** The sort key of a task id in a loaded registry. *)
Definition priority (self : Planner) (tid : string) : sort_key :=
  ((- Z.of_nat (size (graph_get (reverse_dependency_graph self) tid)))%Z, tid).

(** [a] depends on [b] in the registry; in the dependency feed. *)
Definition depends (self : Planner) (a b : string) : Prop :=
  b ∈ graph_get (dependency_graph self) a.

Definition feed_task (dependencies : list DepRecord.t) (a : string) : Prop :=
  exists r, r ∈ dependencies /\ DepRecord.task_id r = Some a.

Definition feed_depends (dependencies : list DepRecord.t) (a b : string)
    : Prop :=
  exists r, r ∈ dependencies /\ DepRecord.task_id r = Some a /\
            b ∈ default [] (DepRecord.depends_on r).

(** The task ids of a wave, and of a list of waves in order. *)
Definition wave_ids (w : Wave.t) : list string :=
  map WaveTask.task_id (Wave.tasks w).

Definition plan_ids (waves : list Wave.t) : list string :=
  flat_map wave_ids waves.

(** The invariant of the greedy packing loop, started with the completed
    set [completed0]: the wave holds distinct ready tasks that were not
    completed before, each admitted without a conflict with the tasks
    admitted before it. *)
Record pack_inv (re_search : string -> string -> re_result) (self : Planner)
    (completed0 : gset string) (wave_tasks : list WaveTask.t)
    (used_task_ids completed_tasks : gset string) : Prop := mk_pack_inv {
  pk_used : used_task_ids = list_to_set (map WaveTask.task_id wave_tasks);
  pk_completed :
    completed_tasks = list_to_set (map WaveTask.task_id wave_tasks) ∪ completed0;
  pk_nodup : NoDup (map WaveTask.task_id wave_tasks);
  pk_fresh : forall wt, wt ∈ wave_tasks -> WaveTask.task_id wt ∉ completed0;
  pk_tasks : forall j wt, wave_tasks !! j = Some wt ->
    exists task,
      Dict.get (tasks self) (WaveTask.task_id wt) = Some task /\
      wt = wave_task_of task /\
      (forall d, d ∈ Task.depends_on task -> d ∈ completed0) /\
      can_add re_search self task (take j wave_tasks) = Ok true
}.

(** A wave as [generate_execution_plan] builds it from admitted tasks. *)
Record wave_ok (re_search : string -> string -> re_result) (self : Planner)
    (earlier : list Wave.t) (w : Wave.t) : Prop := mk_wave_ok {
  wo_number : Wave.wave_number w = length earlier + 1;
  wo_nonempty : Wave.tasks w <> [];
  wo_count : Wave.parallel_task_count w = length (Wave.tasks w);
  wo_time : Wave.estimated_wave_time_min w =
            max_default0 (map WaveTask.expected_runtime_min (Wave.tasks w));
  wo_tasks : forall j wt, Wave.tasks w !! j = Some wt ->
    exists task,
      Dict.get (tasks self) (WaveTask.task_id wt) = Some task /\
      wt = wave_task_of task /\
      (forall d, d ∈ Task.depends_on task -> d ∈ plan_ids earlier) /\
      can_add re_search self task (take j (Wave.tasks w)) = Ok true
}.

(** The invariant of the [while completed_tasks != ...] loop. *)
Record plan_inv (re_search : string -> string -> re_result) (self : Planner)
    (waves : list Wave.t) (completed_tasks : gset string) : Prop := mk_plan_inv {
  pi_completed : completed_tasks = list_to_set (plan_ids waves);
  pi_nodup : NoDup (plan_ids waves);
  pi_waves : forall i w, waves !! i = Some w ->
    wave_ok re_search self (take i waves) w
}.

(** Task [t] is scheduled in the wave numbered [n]. *)
Definition in_wave (plan : ExecutionPlan.t) (t : string) (n : nat) : Prop :=
  exists w, w ∈ ExecutionPlan.waves plan /\ Wave.wave_number w = n /\
            t ∈ wave_ids w.

(** [m] is the greatest element of [l]. *)
Definition is_max (m : Z) (l : list Z) : Prop :=
  m ∈ l /\ forall x, x ∈ l -> (x <= m)%Z.

(** The expected runtime recorded for a task id ([0] for an unknown id). *)
Definition runtime_of (self : Planner) (task_id : string) : Z :=
  match Dict.get (tasks self) task_id with
  | Some task => Task.expected_runtime_min task
  | None => 0%Z
  end.

(** Every loaded task is in exactly one wave, once, and in a later wave
    than each task it depends on. *)
Definition waves_partition_tasks (self : Planner) (plan : ExecutionPlan.t)
    : Prop :=
  (forall t, t ∈ Dict.keys (tasks self) ->
     exists n, in_wave plan t n /\ forall m, in_wave plan t m -> m = n) /\
  (forall w, w ∈ ExecutionPlan.waves plan -> NoDup (wave_ids w)).

Definition waves_follow_dependencies (self : Planner) (plan : ExecutionPlan.t)
    : Prop :=
  forall t n task d,
    in_wave plan t n -> Dict.get (tasks self) t = Some task ->
    d ∈ Task.depends_on task ->
    exists m, in_wave plan d m /\ m < n.

(** ** Sample feeds *)

Definition dep_record (task_id : string) (depends_on : list string)
    : DepRecord.t :=
  DepRecord.mk (Some task_id) None None (Some depends_on) None None.

Definition timed_record (task_id : string) (minutes : Z)
    (depends_on : list string) : DepRecord.t :=
  DepRecord.mk (Some task_id) None (Some minutes) (Some depends_on) None None.

(** A (no dependencies), B (no dependencies, declared in conflict with A),
    C (depends on A). *)
Definition three_tasks_deps : list DepRecord.t :=
  [dep_record "A" []; dep_record "B" []; dep_record "C" ["A"]].

Definition three_tasks_conflicts : list ConflictRecord.t :=
  [ConflictRecord.mk (Some "A") [] None;
   ConflictRecord.mk (Some "B") ["A"] None;
   ConflictRecord.mk (Some "C") [] None].

(** A depends on B and B depends on A. *)
Definition cyclic_deps : list DepRecord.t :=
  [dep_record "A" ["B"]; dep_record "B" ["A"]].

(** A depends on X, which is no task. *)
Definition dangling_deps : list DepRecord.t := [dep_record "A" ["X"]].

(** A, B and C of the three-task feed with runtimes 30, 10 and 5. *)
Definition timed_deps : list DepRecord.t :=
  [timed_record "A" 30 []; timed_record "B" 10 []; timed_record "C" 5 ["A"]].

(** Sibling directories under a common root three segments deep. *)
Definition sibling_a : FilePattern.t := FilePattern.mk "src/app/core/a/.*" "regex".
Definition sibling_b : FilePattern.t := FilePattern.mk "src/app/core/b/.*" "regex".

(** The literal prefix of a pattern, as path segments. *)
Definition prefix_parts (p : FilePattern.t) : list string :=
  path_parts (_extract_base_path (FilePattern.pattern p)).

(** The declared conflict of either task names the other. *)
Definition explicit_conflict (task1 task2 : Task.t) : bool :=
  list_mem (Task.task_id task2) (Task.conflicts_with task1)
  || list_mem (Task.task_id task1) (Task.conflicts_with task2).

(** A task without resource patterns and a task with one. *)
Definition patternless_task : Task.t :=
  Task.mk "A" "M" 20 [] [] [] [] false.

Definition globbed_task : Task.t :=
  Task.mk "B" "M" 20 [] [] [FilePattern.mk "src/**" "glob"] [] false.

(** A directory pattern and a pattern below it. *)
Definition parent_pattern : FilePattern.t :=
  FilePattern.mk "src/services/.*" "regex".

Definition child_pattern : FilePattern.t :=
  FilePattern.mk "src/services/handlers/.*\.ts" "regex".

(** ** Vocabulary of the further properties *)

(** The sort key of the packing order: [(len(t.conflicts_with),
    t.task_id)]. *)
Definition conflict_key (t : Task.t) : sort_key :=
  (Z.of_nat (length (Task.conflicts_with t)), Task.task_id t).

(** Wave [w] is what one iteration of the wave loop builds after the waves
    [earlier]: the ready tasks are collected in the order of
    [sorted_tasks], sorted for packing, and packed greedily. *)
Definition wave_built (re_search : string -> string -> re_result)
    (self : Planner) (sorted_tasks : list string) (earlier : list Wave.t)
    (w : Wave.t) : Prop :=
  exists available_tasks completed',
    ready_tasks self sorted_tasks (list_to_set (plan_ids earlier))
      = Ok available_tasks /\
    pack_wave re_search self (sort_by_conflicts available_tasks) [] ∅
      (list_to_set (plan_ids earlier)) = Ok (Wave.tasks w, completed') /\
    Wave.tasks w <> [] /\
    w = make_wave earlier (Wave.tasks w).

(** What [ready_tasks] contributes for one id of [sorted_tasks]. *)
Definition ready_one (self : Planner) (completed_tasks : gset string)
    (task_id : string) : list Task.t :=
  match Dict.get (tasks self) task_id with
  | Some task =>
      if bool_decide (task_id ∈ completed_tasks) then []
      else if forallb (fun dep => bool_decide (dep ∈ completed_tasks))
                (Task.depends_on task)
      then [task] else []
  | None => []
  end.

(** The last record of a feed with a given [task_id]. *)
Definition last_dep_record (dependencies : list DepRecord.t) (task_id : string)
    : option DepRecord.t :=
  last (List.filter
          (fun r => bool_decide (DepRecord.task_id r = Some task_id))
          dependencies).

Definition last_conflict_record (file_patterns_data : list ConflictRecord.t)
    (task_id : string) : option ConflictRecord.t :=
  last (List.filter
          (fun c => bool_decide (ConflictRecord.task_id c = Some task_id))
          file_patterns_data).

(** Every record of the two feeds has a [task_id]. *)
Definition feeds_have_ids (dependencies : list DepRecord.t)
    (file_patterns_data : list ConflictRecord.t) : Prop :=
  (forall r, r ∈ dependencies -> DepRecord.task_id r <> None) /\
  (forall c, c ∈ file_patterns_data -> ConflictRecord.task_id c <> None).

(** Every dependency names a task of the feed and no task depends on
    itself through a chain of dependencies. *)
Definition feed_sound (dependencies : list DepRecord.t) : Prop :=
  (forall a b, feed_depends dependencies a b -> feed_task dependencies b) /\
  (forall a, ~ tc (feed_depends dependencies) a a).

(** [t] is not after [t'] in the priority order of the ready queue. *)
Definition priority_le (self : Planner) (t t' : string) : Prop :=
  key_lt (priority self t') (priority self t) = false.

(** What the ready queue of the topological sort keeps besides [topo_inv]:
    every task all of whose dependencies are emitted is emitted or queued,
    and each emitted id was first in the priority order among the tasks
    that were ready when it was emitted. *)
Record topo_greedy (self : Planner) (available_tasks result : list string)
    : Prop := mk_topo_greedy {
  tg_complete : forall t, t ∈ Dict.keys (tasks self) ->
    graph_get (dependency_graph self) t ⊆ list_to_set result ->
    t ∈ (result ++ available_tasks)%list;
  tg_least : forall i t t', result !! i = Some t ->
    t' ∈ Dict.keys (tasks self) -> t' ∉ take i result ->
    graph_get (dependency_graph self) t' ⊆ list_to_set (take i result) ->
    priority_le self t t'
}.

(** [l] is a path of the relation that starts after [x]. *)
Fixpoint chain {A : Type} (R : A -> A -> Prop) (x : A) (l : list A) : Prop :=
  match l with
  | [] => True
  | y :: l' => R x y /\ chain R y l'
  end.

(** The characters of a string. *)
Definition chars (s : string) : list ascii := list_ascii_of_string s.

(** The single characters among the wildcards of [_is_exact_regex]. *)
Definition wildcard_chars : list ascii :=
  ["["; "]"; "("; "|"; "{"; "}"; "?"; "+"; "*"]%char.

(** A pattern that begins with the anchor, and a pattern without anchor
    for the same directory. *)
Definition anchored_pattern : FilePattern.t :=
  FilePattern.mk "^src/services/.*" "regex".

Definition unanchored_pattern : FilePattern.t :=
  FilePattern.mk "src/services/.*\.ts" "regex".


Definition exact_service_file : FilePattern.t :=
  FilePattern.mk "src/services/foo.ts" "exact".

Definition legacy_service_regex : FilePattern.t :=
  FilePattern.mk "src/services/.*" "exact".

(** ** Further sample feeds *)

(** Three independent tasks; A and B name the same file, C another. *)
Definition overlap_deps : list DepRecord.t :=
  [dep_record "A" []; dep_record "B" []; dep_record "C" []].

Definition overlap_files : list ConflictRecord.t :=
  [ConflictRecord.mk (Some "A") [] (Some [FileStr "src/a.ts"]);
   ConflictRecord.mk (Some "B") [] (Some [FileStr "src/a.ts"]);
   ConflictRecord.mk (Some "C") [] (Some [FileStr "src/b.ts"])].

(** A and B have no dependencies and C depends on B, so B has a dependent
    and A has none. *)
Definition priority_deps : list DepRecord.t :=
  [dep_record "A" []; dep_record "B" []; dep_record "C" ["B"]].

(** Two records for the same task id: the first declares a dependency on X
    and 5 minutes, the second no dependency and 7 minutes. *)
Definition duplicate_deps : list DepRecord.t :=
  [timed_record "A" 5 ["X"]; timed_record "A" 7 []].

(** A pattern that starts with a wildcard, and a pattern in a directory. *)
Definition any_markdown_pattern : FilePattern.t :=
  FilePattern.mk ".*\.md$" "regex".

Definition source_ts_pattern : FilePattern.t :=
  FilePattern.mk "src/.*\.ts$" "regex".

(** A chain A, B, C, an independent task D, and E, which depends on A and
    D, in feeds as the sibling scripts write them: the conflict records
    carry [conflicts_with] lists and no [files]. *)
Definition chain_deps : list DepRecord.t :=
  [dep_record "A" []; dep_record "B" ["A"]; dep_record "C" ["B"];
   dep_record "D" []; dep_record "E" ["A"; "D"]].

Definition chain_conflicts : list ConflictRecord.t :=
  [ConflictRecord.mk (Some "A") ["D"] None;
   ConflictRecord.mk (Some "D") ["A"] None].

(** ** The repeat limit of the engine

    The parser of CPython reads a counted repeat [{n}] as a number and
    raises [OverflowError] ("the repetition number is too large") when it
    reaches [MAXREPEAT], before it looks at what is repeated or at the rest
    of the pattern.  [re_search] is the reference engine with that outcome
    for the patterns made of letters, digits, [/], [-] and [_] up to such a
    repeat; the count has at most 4300 digits, the longest text that [int]
    converts.  It gives the behaviour of [re.search] where
    [repeat_too_large] or [ReFragment.covers] holds. *)

Module ReLimits.

Definition MAXREPEAT : N := 4294967295.

(** The digits at the start of [s]: their value after [value], their number
    after [count], and the rest of [s]. *)
Fixpoint read_digits (s : string) (value : N) (count : nat)
    : N * nat * string :=
  match s with
  | EmptyString => (value, count, s)
  | String c s' =>
      if ReFragment.is_digit c
      then read_digits s' (10 * value + N.of_nat (nat_of_ascii c - 48)) (S count)
      else (value, count, s)
  end.

Definition is_plain (c : ascii) : bool :=
  ReFragment.is_letter c || ReFragment.is_digit c
  || Ascii.eqb c "/" || Ascii.eqb c "-" || Ascii.eqb c "_".

Fixpoint repeat_too_large (pattern : string) : bool :=
  match pattern with
  | EmptyString => false
  | String c s' =>
      if Ascii.eqb c "{" then
        let '(value, count, rest) := read_digits s' 0 0 in
        (0 <? count)%nat && (count <=? 4300)%nat
        && String.prefix "}" rest && (MAXREPEAT <=? value)%N
      else is_plain c && repeat_too_large s'
  end.

Definition re_search (pattern text : string) : re_outcome :=
  if repeat_too_large pattern then re_raises OverflowError
  else re_returns (ReFragment.re_search pattern text).

End ReLimits.

(** A pattern with a repeat count beyond the limit of the engine. *)
Definition overflow_pattern : FilePattern.t :=
  FilePattern.mk "a{99999999999999999999}" "regex".

(** Two independent tasks under [src]; the pattern of the first has a
    repeat count beyond the limit of the engine. *)
Definition overflow_deps : list DepRecord.t :=
  [dep_record "A" []; dep_record "B" []].

Definition overflow_files : list ConflictRecord.t :=
  [ConflictRecord.mk (Some "A") []
     (Some [FileDict (Some "src/a{99999999999999999999}/.*") (Some "regex")]);
   ConflictRecord.mk (Some "B") []
     (Some [FileDict (Some "src/.*") (Some "regex")])].

(** A without resource patterns and B with the glob [src/**], independent
    of each other. *)
Definition mixed_deps : list DepRecord.t :=
  [dep_record "A" []; dep_record "B" []].

Definition mixed_files : list ConflictRecord.t :=
  [ConflictRecord.mk (Some "B") [] (Some [FileStr "src/**"])].

(** * Properties *)

(** ** The order of sort keys *)

Lemma ascii_compare_refl (a : ascii) : Ascii.compare a a = Eq.
Proof. unfold Ascii.compare. apply N.compare_refl. Qed.

Lemma string_compare_refl (s : string) : String.compare s s = Eq.
Proof.
  induction s as [|a s IH]; simpl; [reflexivity|].
  by rewrite ascii_compare_refl.
Qed.

Lemma ascii_compare_lt_trans (a b c : ascii) :
  Ascii.compare a b = Lt -> Ascii.compare b c = Lt -> Ascii.compare a c = Lt.
Proof.
  unfold Ascii.compare. rewrite !N.compare_lt_iff. lia.
Qed.

Lemma string_compare_lt_trans (s1 s2 s3 : string) :
  String.compare s1 s2 = Lt -> String.compare s2 s3 = Lt ->
  String.compare s1 s3 = Lt.
Proof.
  revert s2 s3. induction s1 as [|a1 s1 IH]; intros [|a2 s2] [|a3 s3];
    simpl; try congruence.
  destruct (Ascii.compare a1 a2) eqn:E12; try discriminate;
    destruct (Ascii.compare a2 a3) eqn:E23; try discriminate; intros H1 H2.
  - apply Ascii.compare_eq_iff in E12, E23. subst.
    rewrite ascii_compare_refl. eauto.
  - apply Ascii.compare_eq_iff in E12. subst. by rewrite E23.
  - apply Ascii.compare_eq_iff in E23. subst. by rewrite E12.
  - by rewrite (ascii_compare_lt_trans _ _ _ E12 E23).
Qed.

Lemma str_lt_irrefl (s : string) : PyStr.lt s s = false.
Proof. unfold PyStr.lt. by rewrite string_compare_refl. Qed.

Lemma str_lt_trans (s1 s2 s3 : string) :
  PyStr.lt s1 s2 = true -> PyStr.lt s2 s3 = true -> PyStr.lt s1 s3 = true.
Proof.
  unfold PyStr.lt.
  destruct (String.compare s1 s2) eqn:E1; try discriminate.
  destruct (String.compare s2 s3) eqn:E2; try discriminate.
  by rewrite (string_compare_lt_trans _ _ _ E1 E2).
Qed.

Lemma str_lt_connex (s1 s2 : string) :
  PyStr.lt s1 s2 = false -> PyStr.lt s2 s1 = false -> s1 = s2.
Proof.
  unfold PyStr.lt. rewrite (String.compare_antisym s2 s1).
  destruct (String.compare s1 s2) eqn:E; simpl; try discriminate.
  intros _ _. by apply String.compare_eq_iff.
Qed.

Lemma key_lt_irrefl (k : sort_key) : key_lt k k = false.
Proof.
  unfold key_lt. rewrite str_lt_irrefl, Z.ltb_irrefl. by rewrite andb_false_r.
Qed.

Lemma key_lt_trans (k1 k2 k3 : sort_key) :
  key_lt k1 k2 = true -> key_lt k2 k3 = true -> key_lt k1 k3 = true.
Proof.
  unfold key_lt. destruct k1 as [z1 s1], k2 as [z2 s2], k3 as [z3 s3]; simpl.
  rewrite !orb_true_iff, !andb_true_iff, !Z.ltb_lt, !Z.eqb_eq.
  intros [H1|[H1 L1]] [H2|[H2 L2]]; subst; auto; try (left; lia).
  right. split; [done|]. eapply str_lt_trans; eauto.
Qed.

Lemma key_lt_connex (k1 k2 : sort_key) :
  key_lt k1 k2 = false -> key_lt k2 k1 = false -> k1 = k2.
Proof.
  unfold key_lt. destruct k1 as [z1 s1], k2 as [z2 s2]; simpl.
  rewrite !orb_false_iff, !andb_false_iff, !Z.ltb_ge, !Z.eqb_neq.
  intros [H1 H1'] [H2 H2'].
  assert (z1 = z2) by lia. subst.
  f_equal. apply str_lt_connex; destruct H1', H2'; congruence.
Qed.

Lemma keyed_le_trans {A : Type} (x y z : sort_key * A) :
  keyed_le x y -> keyed_le y z -> keyed_le x z.
Proof.
  unfold keyed_le. intros Hxy Hyz.
  destruct (key_lt z.1 x.1) eqn:Hzx; [|done].
  destruct (key_lt x.1 y.1) eqn:Hlt.
  - by rewrite (key_lt_trans _ _ _ Hzx Hlt) in Hyz.
  - rewrite (key_lt_connex _ _ Hlt Hxy) in Hzx. congruence.
Qed.

Lemma insert_keyed_perm {A : Type} (x : sort_key * A) l :
  insert_keyed x l ≡ₚ x :: l.
Proof.
  induction l as [|y l IH]; simpl; [done|].
  destruct (key_lt y.1 x.1); [|done].
  rewrite IH. apply Permutation_swap.
Qed.

Lemma sort_keyed_perm {A : Type} (l : list (sort_key * A)) :
  sort_keyed l ≡ₚ l.
Proof.
  induction l as [|x l IH]; simpl; [done|].
  by rewrite insert_keyed_perm, IH.
Qed.

Lemma insert_keyed_sorted {A : Type} (x : sort_key * A) l :
  StronglySorted keyed_le l -> StronglySorted keyed_le (insert_keyed x l).
Proof.
  induction 1 as [|y l Hl IH Hy]; simpl.
  - repeat constructor.
  - destruct (key_lt y.1 x.1) eqn:Hyx.
    + constructor; [done|].
      rewrite insert_keyed_perm. constructor; [|done].
      unfold keyed_le.
      destruct (key_lt x.1 y.1) eqn:Hxy; [|done].
      pose proof (key_lt_trans _ _ _ Hxy Hyx) as Hc.
      by rewrite key_lt_irrefl in Hc.
    + constructor; [by constructor|].
      constructor; [done|].
      eapply Forall_impl; [exact Hy|].
      intros z Hz. by eapply keyed_le_trans.
Qed.

Lemma sort_keyed_sorted {A : Type} (l : list (sort_key * A)) :
  StronglySorted keyed_le (sort_keyed l).
Proof.
  induction l as [|x l IH]; simpl; [constructor|].
  by apply insert_keyed_sorted.
Qed.

(** Sorting does not depend on the order of the input when the key
    determines the element. *)
Lemma sort_keyed_perm_eq {A : Type} (l1 l2 : list (sort_key * A)) :
  l1 ≡ₚ l2 ->
  (forall x y, x ∈ l1 -> y ∈ l1 -> x.1 = y.1 -> x = y) ->
  sort_keyed l1 = sort_keyed l2.
Proof.
  intros Hp Hinj.
  apply (StronglySorted_unique_strong keyed_le);
    [|apply sort_keyed_sorted..|by rewrite !sort_keyed_perm].
  intros x y Hx Hy Hxy Hyx.
  rewrite sort_keyed_perm in Hx. rewrite sort_keyed_perm, <- Hp in Hy.
  apply Hinj; [done..|]. by apply key_lt_connex.
Qed.

(** ** Dictionaries and graphs *)

Lemma dict_get_set {V : Type} (d : Dict.t V) k v k' :
  Dict.get (Dict.set d k v) k' = if decide (k = k') then Some v else Dict.get d k'.
Proof.
  induction d as [|[k0 v0] d IH]; simpl.
  - destruct (String.eqb_spec k k'); case_decide; congruence.
  - destruct (String.eqb_spec k0 k) as [->|Hne]; simpl.
    + destruct (String.eqb_spec k k'); case_decide; congruence.
    + destruct (String.eqb_spec k0 k') as [->|Hne'].
      * case_decide; congruence.
      * apply IH.
Qed.

Lemma dict_get_Some_keys {V : Type} (d : Dict.t V) k v :
  Dict.get d k = Some v -> k ∈ Dict.keys d.
Proof.
  induction d as [|[k0 v0] d IH]; simpl; [done|].
  destruct (String.eqb_spec k0 k) as [->|Hne]; intros H.
  - left.
  - right. by apply IH.
Qed.

Lemma dict_keys_get {V : Type} (d : Dict.t V) k :
  k ∈ Dict.keys d -> exists v, Dict.get d k = Some v.
Proof.
  induction d as [|[k0 v0] d IH]; simpl.
  - by intros ?%elem_of_nil.
  - intros H. destruct (String.eqb_spec k0 k) as [->|Hne]; [eauto|].
    apply elem_of_cons in H as [->|H]; [done|]. by apply IH.
Qed.

Lemma dict_get_elem {V : Type} (d : Dict.t V) k v :
  Dict.get d k = Some v -> (k, v) ∈ d.
Proof.
  induction d as [|[k0 v0] d IH]; simpl; [done|].
  destruct (String.eqb_spec k0 k) as [->|Hne]; intros H.
  - simplify_eq. left.
  - right. by apply IH.
Qed.

Lemma dict_elem_get {V : Type} (d : Dict.t V) k v :
  NoDup (Dict.keys d) -> (k, v) ∈ d -> Dict.get d k = Some v.
Proof.
  induction d as [|[k0 v0] d IH]; simpl.
  - by intros _ ?%elem_of_nil.
  - intros [Hk0 Hnd]%NoDup_cons [Heq|Hin]%elem_of_cons.
    + simplify_eq. by rewrite String.eqb_refl.
    + destruct (String.eqb_spec k0 k) as [->|Hne]; [|by apply IH].
      exfalso. apply Hk0. unfold Dict.keys.
      apply list_elem_of_fmap. by exists (k, v).
Qed.

Lemma dict_keys_set {V : Type} (d : Dict.t V) k v :
  Dict.keys (Dict.set d k v) =
  if decide (k ∈ Dict.keys d) then Dict.keys d else (Dict.keys d ++ [k])%list.
Proof.
  induction d as [|[k0 v0] d IH].
  - rewrite decide_False; [done|]. by intros ?%elem_of_nil.
  - cbn [Dict.set Dict.keys map fst].
    destruct (String.eqb_spec k0 k) as [->|Hne]; cbn [Dict.keys map fst].
    + rewrite decide_True; [done|left].
    + fold (Dict.keys (Dict.set d k v)). fold (Dict.keys d). rewrite IH.
      destruct (decide (k ∈ Dict.keys d)) as [Hin|Hnin].
      * rewrite decide_True; [done|by right].
      * rewrite decide_False; [done|].
        intros [?|?]%elem_of_cons; congruence.
Qed.

Lemma dict_keys_set_nodup {V : Type} (d : Dict.t V) k v :
  NoDup (Dict.keys d) -> NoDup (Dict.keys (Dict.set d k v)).
Proof.
  intros Hnd. rewrite dict_keys_set. case_decide; [done|].
  apply NoDup_app. split_and!; [done| |apply NoDup_singleton].
  intros x Hx ->%list_elem_of_singleton. done.
Qed.

Lemma dict_keys_set_elem {V : Type} (d : Dict.t V) k v k' :
  k' ∈ Dict.keys (Dict.set d k v) <-> k' = k \/ k' ∈ Dict.keys d.
Proof.
  rewrite dict_keys_set. case_decide as H.
  - split; [auto|]. intros [->|?]; done.
  - rewrite elem_of_app, list_elem_of_singleton. tauto.
Qed.

Lemma graph_get_add g k v k' :
  graph_get (graph_add g k v) k' =
  if decide (k = k') then {[v]} ∪ graph_get g k else graph_get g k'.
Proof.
  unfold graph_add, graph_get at 1. rewrite lookup_insert.
  case_decide; done.
Qed.

Lemma graph_get_empty k : graph_get ∅ k = ∅.
Proof. unfold graph_get. by rewrite lookup_empty. Qed.

(** ** Loading establishes the registry invariants *)

Lemma add_dependencies_tasks task_id deps self :
  tasks (add_dependencies task_id deps self) = tasks self.
Proof.
  unfold add_dependencies. revert self.
  induction deps as [|d deps IH]; intros self; simpl; [done|].
  by rewrite IH.
Qed.

Lemma add_dependencies_dep task_id deps self a :
  graph_get (dependency_graph (add_dependencies task_id deps self)) a =
  graph_get (dependency_graph self) a ∪
  (if decide (a = task_id) then list_to_set deps else ∅).
Proof.
  unfold add_dependencies. revert self.
  induction deps as [|d deps IH]; intros self; simpl.
  - case_decide; set_solver.
  - rewrite IH. simpl. rewrite graph_get_add.
    repeat case_decide; subst; set_solver.
Qed.

Lemma add_dependencies_rev task_id deps self b :
  graph_get (reverse_dependency_graph (add_dependencies task_id deps self)) b =
  graph_get (reverse_dependency_graph self) b ∪
  (if decide (b ∈ deps) then {[task_id]} else ∅).
Proof.
  unfold add_dependencies. revert self.
  induction deps as [|d deps IH]; intros self; cbn [fold_left].
  - rewrite decide_False; [set_solver|]. by intros ?%elem_of_nil.
  - rewrite IH. cbn [reverse_dependency_graph]. rewrite graph_get_add.
    destruct (decide (b ∈ deps)), (decide (d = b)), (decide (b ∈ d :: deps));
      set_solver.
Qed.

Lemma new_planner_wf : planner_wf new_planner.
Proof.
  split; simpl; try done. constructor.
Qed.

Lemma load_tasks_step_wf m task_id task_data self :
  planner_wf self ->
  let task := make_task m task_id task_data in
  planner_wf
    (add_dependencies task_id (Task.depends_on task)
       (mkPlanner (Dict.set (tasks self) task_id task)
          (dependency_graph self) (reverse_dependency_graph self))).
Proof.
  intros [Hnd Hid Htr Hkey Hdep] task.
  split.
  - rewrite add_dependencies_tasks. simpl. by apply dict_keys_set_nodup.
  - intros k t. rewrite add_dependencies_tasks. simpl. rewrite dict_get_set.
    case_decide; [|by apply Hid]. intros [= <-]. by subst.
  - intros a b. rewrite add_dependencies_rev, add_dependencies_dep. simpl.
    specialize (Htr a b). repeat case_decide; set_solver.
  - intros a b. rewrite add_dependencies_dep, add_dependencies_tasks. simpl.
    rewrite dict_keys_set_elem. specialize (Hkey a b).
    case_decide; set_solver.
  - intros k t d. rewrite add_dependencies_tasks, add_dependencies_dep. simpl.
    rewrite dict_get_set. specialize (Hdep k t d).
    destruct (decide (task_id = k)) as [->|Hne].
    + intros [= <-] Hd. rewrite decide_True by done. set_solver.
    + intros Hg Hd. set_solver.
Qed.

Lemma load_tasks_wf dependencies m self self' :
  planner_wf self -> load_tasks dependencies m self = Ok self' ->
  planner_wf self'.
Proof.
  revert self. induction dependencies as [|task_data rest IH]; intros self Hwf; simpl.
  - by intros [= <-].
  - destruct (DepRecord.task_id task_data) as [task_id|]; [|done].
    apply IH. by apply load_tasks_step_wf.
Qed.

Lemma load_data_wf dependencies file_patterns_data self :
  load_data dependencies file_patterns_data = Ok self -> planner_wf self.
Proof.
  unfold load_data.
  destruct (build_file_pattern_map file_patterns_data ∅) as [m| |]; simpl; try done.
  apply load_tasks_wf, new_planner_wf.
Qed.

(** ** The priority sort of the ready queue *)

Lemma map_py_ok {A B : Type} (f : A -> py B) (g : A -> B) (l : list A) :
  (forall x, x ∈ l -> f x = Ok (g x)) -> map_py f l = Ok (map g l).
Proof.
  induction l as [|x l IH]; intros H; simpl; [done|].
  rewrite (H x) by left. simpl.
  rewrite IH by (intros; apply H; by right). done.
Qed.

Lemma sort_by_priority_ok self available_tasks :
  planner_wf self ->
  (forall t, t ∈ available_tasks -> t ∈ Dict.keys (tasks self)) ->
  sort_by_priority self available_tasks =
  Ok (map snd (sort_keyed (map (fun tid => (priority self tid, tid)) available_tasks))).
Proof.
  intros Hwf Hk. unfold sort_by_priority.
  rewrite (map_py_ok _ (fun tid => (priority self tid, tid))); [done|].
  intros t Ht. destruct (dict_keys_get _ _ (Hk t Ht)) as [task Htask].
  unfold Dict.item. rewrite Htask. simpl.
  unfold _get_task_priority, priority.
  by rewrite (wf_task_id _ Hwf _ _ Htask).
Qed.

Lemma sort_by_priority_perm self l1 l2 :
  planner_wf self ->
  (forall t, t ∈ l1 -> t ∈ Dict.keys (tasks self)) ->
  l1 ≡ₚ l2 ->
  sort_by_priority self l1 = sort_by_priority self l2.
Proof.
  intros Hwf Hk Hp.
  rewrite !sort_by_priority_ok; [|done|by intros t; rewrite <- Hp; auto|done..].
  do 2 f_equal. apply sort_keyed_perm_eq.
  - by apply Permutation_map.
  - intros [k1 t1] [k2 t2] (x1 & [= -> ->] & _)%list_elem_of_fmap
      (x2 & [= -> ->] & _)%list_elem_of_fmap.
    simpl. by intros [= _ ->].
Qed.

Lemma sort_by_priority_Permutation self l sorted :
  planner_wf self ->
  (forall t, t ∈ l -> t ∈ Dict.keys (tasks self)) ->
  sort_by_priority self l = Ok sorted -> sorted ≡ₚ l.
Proof.
  intros Hwf Hk. rewrite sort_by_priority_ok by done. intros [= <-].
  rewrite sort_keyed_perm. rewrite map_map. simpl. by rewrite map_id.
Qed.

(** ** The topological sort *)

Lemma degree_get_insert in_degree k v k' :
  degree_get (<[k := v]> in_degree) k' =
  if decide (k = k') then v else degree_get in_degree k'.
Proof. unfold degree_get. rewrite lookup_insert. by case_decide. Qed.

Lemma release_spec dependents in_degree available_tasks in_degree' available_tasks' :
  NoDup dependents ->
  release dependents in_degree available_tasks = (in_degree', available_tasks') ->
  (forall t, in_degree' !! t =
     if decide (t ∈ dependents) then Some (degree_get in_degree t - 1)%Z
     else in_degree !! t) /\
  available_tasks' =
    (available_tasks ++
     List.filter (fun d => (degree_get in_degree d - 1 =? 0)%Z) dependents)%list.
Proof.
  revert in_degree available_tasks.
  induction dependents as [|d rest IH]; intros deg av Hnd; cbn [release].
  - intros [= <- <-]. split; [|by rewrite app_nil_r].
    intros t. rewrite decide_False; [done|]. by intros ?%elem_of_nil.
  - apply NoDup_cons in Hnd as [Hd Hnd].
    rewrite degree_get_insert, decide_True by done.
    set (deg1 := <[d := (degree_get deg d - 1)%Z]> deg).
    assert (Hext : List.filter (fun x => (degree_get deg1 x - 1 =? 0)%Z) rest =
                   List.filter (fun x => (degree_get deg x - 1 =? 0)%Z) rest).
    { apply filter_ext_in. intros x Hx%list_elem_of_In.
      unfold deg1. rewrite degree_get_insert, decide_False; [done|].
      intros ->. by apply Hd. }
    assert (Hlook : forall t (o : option Z),
      o = (if decide (t ∈ rest) then Some (degree_get deg1 t - 1)%Z else deg1 !! t) ->
      o = (if decide (t ∈ d :: rest) then Some (degree_get deg t - 1)%Z else deg !! t)).
    { intros t o ->. unfold deg1. rewrite degree_get_insert, lookup_insert.
      repeat case_decide; subst; try done; set_solver. }
    destruct (degree_get deg d - 1 =? 0)%Z eqn:Hzero; intros Hrel;
      apply IH in Hrel as [H1 ->]; try done; (split; [by intros t; apply Hlook|]);
      rewrite Hext; cbn [List.filter]; rewrite Hzero; [by rewrite <- app_assoc|done].
Qed.

Lemma size_difference_snoc (X : gset string) (result : list string) cur :
  cur ∉ result ->
  Z.of_nat (size (X ∖ list_to_set (result ++ [cur]))) =
  (Z.of_nat (size (X ∖ list_to_set result)) - (if decide (cur ∈ X) then 1 else 0))%Z.
Proof.
  intros Hcur.
  assert (X ∖ list_to_set (result ++ [cur]) = (X ∖ list_to_set result) ∖ {[cur]}) as ->.
  { rewrite list_to_set_app_L. set_solver. }
  case_decide as HX.
  - rewrite size_difference by set_solver. rewrite size_singleton.
    assert (size (X ∖ list_to_set result) ≠ 0).
    { apply size_non_empty_iff. intros Hemp.
      assert (cur ∈ X ∖ list_to_set result) as Hin by set_solver.
      rewrite Hemp in Hin. set_solver. }
    lia.
  - assert ((X ∖ list_to_set result) ∖ {[cur]} = X ∖ list_to_set result) as ->
      by set_solver. lia.
Qed.

Lemma iter_set_elem (order : set_order) owner X d :
  d ∈ iter_set order owner X <-> d ∈ X.
Proof. by rewrite (iter_set_perm order owner X), elem_of_elements. Qed.

Lemma iter_set_nodup (order : set_order) owner X :
  NoDup (iter_set order owner X).
Proof. rewrite (iter_set_perm order owner X). apply NoDup_elements. Qed.

Lemma NoDup_list_filter {A : Type} (f : A -> bool) (l : list A) :
  NoDup l -> NoDup (List.filter f l).
Proof. rewrite !NoDup_ListNoDup. apply List.NoDup_filter. Qed.

Lemma elem_of_list_filter {A : Type} (f : A -> bool) (l : list A) x :
  x ∈ List.filter f l <-> x ∈ l /\ f x = true.
Proof. rewrite !list_elem_of_In. apply filter_In. Qed.

Lemma topo_step (order : set_order) self in_degree available_tasks result
    current_task rest in_degree' available_tasks' :
  planner_wf self ->
  topo_inv self in_degree available_tasks result ->
  current_task :: rest ≡ₚ available_tasks ->
  release
    (iter_set order current_task
       (graph_get (reverse_dependency_graph self) current_task))
    in_degree rest = (in_degree', available_tasks') ->
  topo_inv self in_degree' available_tasks' (result ++ [current_task]).
Proof.
  intros Hwf [Hnd Hdeg Hready Hord] Hperm Hrel.
  apply release_spec in Hrel as [Hdeg' ->]; [|apply iter_set_nodup].
  set (ds := iter_set order current_task _) in *.
  assert (Hds : forall d, d ∈ ds <-> current_task ∈ graph_get (dependency_graph self) d).
  { intros d. unfold ds. rewrite iter_set_elem. apply (wf_transpose _ Hwf). }
  assert (Hready' : forall t, t ∈ (result ++ current_task :: rest)%list ->
            t ∈ Dict.keys (tasks self) /\
            graph_get (dependency_graph self) t ⊆ list_to_set result).
  { intros t Ht. apply Hready. by rewrite <- Hperm. }
  rewrite <- Hperm in Hnd. clear Hperm Hready.
  apply NoDup_app in Hnd as (Hnd_res & Hdisj & Hnd_av).
  apply NoDup_cons in Hnd_av as [Hcur_rest Hnd_rest].
  assert (Hcur_res : current_task ∉ result).
  { intros Hin. apply (Hdisj _ Hin). left. }
  set (new := List.filter (fun d => (degree_get in_degree d - 1 =? 0)%Z) ds).
  assert (Hnew : forall d, d ∈ new ->
            d ∈ ds /\ degree_get in_degree d = 1%Z).
  { intros d [Hd Hz]%list_elem_of_In%filter_In. split; [by apply list_elem_of_In|lia]. }
  assert (Hnew_fresh : forall d, d ∈ new -> d ∉ (result ++ current_task :: rest)%list).
  { intros d [Hd _]%Hnew Hin. apply Hds in Hd.
    destruct (Hready' d Hin) as [_ Hsub].
    apply Hcur_res. apply Hsub in Hd. by apply elem_of_list_to_set in Hd. }
  split.
  - replace ((result ++ [current_task]) ++ rest ++ new)%list
      with ((result ++ current_task :: rest) ++ new)%list
      by (by rewrite <- !app_assoc).
    apply NoDup_app. split_and!.
    + apply NoDup_app. split_and!; [done|done|by apply NoDup_cons].
    + intros x Hx Hx'. by apply (Hnew_fresh x).
    + unfold new. apply NoDup_list_filter, iter_set_nodup.
  - intros t Ht. rewrite size_difference_snoc by done.
    rewrite <- (Hdeg t Ht). unfold degree_get at 1. rewrite Hdeg'.
    destruct (decide (t ∈ ds)) as [Hin|Hnin].
    + rewrite decide_True by (by apply Hds). done.
    + rewrite decide_False by (by rewrite <- Hds). unfold degree_get. lia.
  - intros t Ht.
    assert (Hcases : t ∈ (result ++ current_task :: rest)%list \/ t ∈ new).
    { rewrite !elem_of_app in Ht. rewrite list_elem_of_singleton in Ht.
      rewrite elem_of_app, elem_of_cons. tauto. }
    rewrite list_to_set_app_L.
    destruct Hcases as [Hold|Hn].
    + destruct (Hready' t Hold) as [Hk Hsub]. split; [done|set_solver].
    + destruct (Hnew t Hn) as [Hd Hone]. apply Hds in Hd.
      assert (Hk : t ∈ Dict.keys (tasks self))
        by (by apply (wf_dep_key _ Hwf t current_task)).
      split; [done|].
      rewrite (Hdeg t Hk) in Hone.
      assert (Hsz : size (graph_get (dependency_graph self) t ∖ list_to_set result) = 1) by lia.
      assert (Hin : current_task ∈ graph_get (dependency_graph self) t ∖ list_to_set result)
        by set_solver.
      intros x Hx. destruct (decide (x ∈ (list_to_set result : gset string))) as [|Hxr];
        [set_solver|].
      assert (x = current_task); [|set_solver].
      apply (size_singleton_inv _ x current_task Hsz); [set_solver|done].
  - intros i t Hi.
    destruct (decide (i < length result)) as [Hlt|Hge].
    + rewrite lookup_app_l in Hi by done.
      rewrite take_app_le by lia. by apply Hord.
    + rewrite lookup_app_r in Hi by lia.
      apply list_lookup_singleton_Some in Hi as [Hi <-].
      rewrite take_app_ge by lia.
      replace (i - length result) with 0 by lia. rewrite take_0, app_nil_r.
      apply (Hready' current_task). rewrite elem_of_app. right. left.
Qed.

Lemma NoDup_subset_length {A : Type} (l k : list A) :
  NoDup l -> (forall x, x ∈ l -> x ∈ k) -> length l <= length k.
Proof. intros Hnd Hsub. by apply submseteq_length, NoDup_submseteq. Qed.

Lemma dict_keys_length {V : Type} (d : Dict.t V) :
  length (Dict.keys d) = length d.
Proof. unfold Dict.keys. apply length_map. Qed.

Lemma initial_in_degree_get self t :
  degree_get (initial_in_degree self) t =
  if decide (t ∈ Dict.keys (tasks self))
  then Z.of_nat (size (graph_get (dependency_graph self) t)) else 0%Z.
Proof.
  unfold initial_in_degree.
  assert (H : forall l m,
    degree_get (fold_left (fun in_degree task_id =>
        <[task_id := Z.of_nat (size (graph_get (dependency_graph self) task_id))]>
          in_degree) l m) t =
    if decide (t ∈ l) then Z.of_nat (size (graph_get (dependency_graph self) t))
    else degree_get m t).
  { induction l as [|k l IH]; intros m; cbn [fold_left].
    - rewrite decide_False; [done|]. by intros ?%elem_of_nil.
    - rewrite IH, degree_get_insert.
      repeat case_decide; subst; try done; set_solver. }
  rewrite H. by case_decide.
Qed.

Lemma topo_inv_initial self :
  planner_wf self ->
  topo_inv self (initial_in_degree self)
    (List.filter (fun task_id => (degree_get (initial_in_degree self) task_id =? 0)%Z)
       (Dict.keys (tasks self))) [].
Proof.
  intros Hwf. split; simpl.
  - apply NoDup_list_filter, (wf_keys_nodup _ Hwf).
  - intros t Ht. rewrite initial_in_degree_get, decide_True by done.
    by rewrite difference_empty_L.
  - intros t [Ht Hz]%elem_of_list_filter. split; [done|].
    rewrite initial_in_degree_get, decide_True in Hz by done.
    assert (size (graph_get (dependency_graph self) t) = 0) as Hs by lia.
    apply size_empty_iff in Hs. set_solver.
  - intros i t Hi. by rewrite lookup_nil in Hi.
Qed.

Lemma topo_loop_ok (order : set_order) self fuel :
  planner_wf self ->
  forall in_degree available_tasks result,
  topo_inv self in_degree available_tasks result ->
  length (tasks self) <= fuel + length result ->
  exists result' in_degree',
    topo_loop order fuel self in_degree available_tasks result = Ok result' /\
    topo_inv self in_degree' [] result'.
Proof.
  intros Hwf. induction fuel as [|fuel IH]; intros deg av res Hinv Hfuel.
  - destruct av as [|a av]; [by exists res, deg|].
    exfalso.
    pose proof (NoDup_subset_length _ (Dict.keys (tasks self)) (ti_nodup _ _ _ _ Hinv)
                  (fun x Hx => proj1 (ti_ready _ _ _ _ Hinv x Hx))) as Hlen.
    rewrite length_app, dict_keys_length in Hlen. simpl in Hlen. lia.
  - destruct av as [|a av]; [by exists res, deg|].
    cbn [topo_loop].
    assert (Hk : forall t, t ∈ a :: av -> t ∈ Dict.keys (tasks self)).
    { intros t Ht. apply (ti_ready _ _ _ _ Hinv). rewrite elem_of_app. by right. }
    destruct (sort_by_priority self (a :: av)) as [sorted| |] eqn:Hsort;
      try (rewrite sort_by_priority_ok in Hsort by done; discriminate).
    pose proof (sort_by_priority_Permutation _ _ _ Hwf Hk Hsort) as Hperm.
    simpl.
    destruct sorted as [|cur rest].
    { by apply Permutation_nil_cons in Hperm. }
    destruct (release _ deg rest) as [deg' av'] eqn:Hrel.
    apply (IH deg' av' (res ++ [cur])%list).
    + by eapply topo_step.
    + rewrite length_app. simpl. lia.
Qed.

Lemma topo_loop_spec (order : set_order) self :
  planner_wf self ->
  exists result in_degree',
    topo_loop order (length (tasks self)) self (initial_in_degree self)
      (List.filter (fun task_id => (degree_get (initial_in_degree self) task_id =? 0)%Z)
         (Dict.keys (tasks self))) [] = Ok result /\
    topo_inv self in_degree' [] result.
Proof.
  intros Hwf. apply topo_loop_ok; [done|by apply topo_inv_initial|simpl; lia].
Qed.

(** The sort emits every task exactly once when it succeeds. *)
Lemma topo_result_perm self in_degree result :
  planner_wf self ->
  topo_inv self in_degree [] result ->
  length result = length (tasks self) ->
  result ≡ₚ Dict.keys (tasks self).
Proof.
  intros Hwf Hinv Hlen.
  apply submseteq_length_Permutation.
  - apply NoDup_submseteq.
    + pose proof (ti_nodup _ _ _ _ Hinv) as H. by rewrite app_nil_r in H.
    + intros x Hx. apply (ti_ready _ _ _ _ Hinv). by rewrite app_nil_r.
  - rewrite dict_keys_length. lia.
Qed.

(** ** What loading records *)

Lemma load_tasks_graph dependencies m self self' :
  load_tasks dependencies m self = Ok self' ->
  (forall a b, depends self' a b <-> depends self a b \/ feed_depends dependencies a b) /\
  (forall k, k ∈ Dict.keys (tasks self') <->
             k ∈ Dict.keys (tasks self) \/ feed_task dependencies k).
Proof.
  unfold depends, feed_depends, feed_task.
  revert self. induction dependencies as [|r rest IH]; intros self; simpl.
  - intros [= <-]. split; intros; set_solver.
  - destruct (DepRecord.task_id r) as [task_id|] eqn:Hid; [|done].
    intros [Hdep Hkey]%IH. split.
    + intros a b. rewrite Hdep, add_dependencies_dep. simpl.
      split.
      * intros [[?|Hin]%elem_of_union|(r' & ? & ? & ?)];
          [by left| |right; exists r'; set_solver].
        case_decide; [subst|set_solver]. right. exists r. set_solver.
      * intros [?|(r' & [->|?]%elem_of_cons & Ha & Hb)]; [set_solver| |].
        -- left. assert (a = task_id) as -> by congruence.
           rewrite decide_True by done. set_solver.
        -- right. by exists r'.
    + intros k. rewrite Hkey, add_dependencies_tasks. simpl.
      rewrite dict_keys_set_elem. split.
      * intros [[->|?]|(r' & ? & ?)]; [right; exists r; set_solver|by left|].
        right. exists r'. set_solver.
      * intros [?|(r' & [->|?]%elem_of_cons & Ha)]; [by left; right| |].
        -- left. left. congruence.
        -- right. by exists r'.
Qed.

Lemma load_data_graph dependencies file_patterns_data self :
  load_data dependencies file_patterns_data = Ok self ->
  (forall a b, depends self a b <-> feed_depends dependencies a b) /\
  (forall k, k ∈ Dict.keys (tasks self) <-> feed_task dependencies k).
Proof.
  unfold load_data.
  destruct (build_file_pattern_map file_patterns_data ∅) as [m| |]; simpl; try done.
  intros [Hdep Hkey]%load_tasks_graph. split.
  - intros a b. rewrite Hdep. unfold depends. simpl. rewrite graph_get_empty.
    set_solver.
  - intros k. rewrite Hkey. simpl. set_solver.
Qed.

Lemma load_tasks_conflicts_with dependencies m self self' :
  load_tasks dependencies m self = Ok self' ->
  (forall k t, Dict.get (tasks self) k = Some t -> Task.conflicts_with t = []) ->
  forall k t, Dict.get (tasks self') k = Some t -> Task.conflicts_with t = [].
Proof.
  revert self. induction dependencies as [|r rest IH]; intros self; simpl.
  - by intros [= <-].
  - destruct (DepRecord.task_id r) as [task_id|]; [|done].
    intros Hload Hold. apply (IH _ Hload).
    intros k t. rewrite add_dependencies_tasks. simpl. rewrite dict_get_set.
    case_decide; [by intros [= <-]|apply Hold].
Qed.

Lemma load_data_conflicts_with dependencies file_patterns_data self k t :
  load_data dependencies file_patterns_data = Ok self ->
  Dict.get (tasks self) k = Some t -> Task.conflicts_with t = [].
Proof.
  unfold load_data.
  destruct (build_file_pattern_map file_patterns_data ∅) as [m| |]; simpl; try done.
  intros Hload. by apply (load_tasks_conflicts_with _ _ _ _ Hload).
Qed.

(** ** Outcome of the topological sort *)

Lemma topo_sort_outcome (order : set_order) self :
  planner_wf self ->
  exists result in_degree,
    topo_inv self in_degree [] result /\
    _topological_sort_with_priority order self =
    if (length result =? length (tasks self))%nat then Ok result
    else Raise (ValueError "Circular dependency detected!").
Proof.
  intros Hwf. destruct (topo_loop_spec order self Hwf) as (result & deg & Hloop & Hinv).
  exists result, deg. split; [done|].
  unfold _topological_sort_with_priority. rewrite Hloop. simpl.
  by destruct (length result =? length (tasks self))%nat.
Qed.

(** In the emitted order a task comes after everything it depends on,
    directly or through other tasks. *)
Lemma topo_order_tc self in_degree result a b :
  topo_inv self in_degree [] result ->
  tc (depends self) a b ->
  forall i, result !! i = Some a -> exists j, j < i /\ result !! j = Some b.
Proof.
  intros Hinv. induction 1 as [a b Hab|a c b Hac _ IH]; intros i Hi.
  - apply (ti_order _ _ _ _ Hinv i a Hi) in Hab.
    apply elem_of_list_to_set, list_elem_of_lookup in Hab as [j Hj].
    apply lookup_take_Some in Hj as [Hj Hlt]. eauto.
  - apply (ti_order _ _ _ _ Hinv i a Hi) in Hac.
    apply elem_of_list_to_set, list_elem_of_lookup in Hac as [j Hj].
    apply lookup_take_Some in Hj as [Hj Hlt].
    destruct (IH j Hj) as (j' & Hlt' & Hj'). exists j'. split; [lia|done].
Qed.

Lemma topo_sort_cycle (order : set_order) self a :
  planner_wf self -> tc (depends self) a a ->
  _topological_sort_with_priority order self =
  Raise (ValueError "Circular dependency detected!").
Proof.
  intros Hwf Hcyc.
  destruct (topo_sort_outcome order self Hwf) as (result & deg & Hinv & ->).
  destruct (length result =? length (tasks self))%nat eqn:Hlen; [|done].
  exfalso. apply Nat.eqb_eq in Hlen.
  pose proof (topo_result_perm _ _ _ Hwf Hinv Hlen) as Hperm.
  assert (Ha : a ∈ Dict.keys (tasks self)).
  { inversion Hcyc as [? ? Hab|? c ? Hac]; subst;
      by eapply (wf_dep_key _ Hwf). }
  rewrite <- Hperm in Ha. apply list_elem_of_lookup in Ha as [i Hi].
  destruct (topo_order_tc _ _ _ _ _ Hinv Hcyc i Hi) as (j & Hlt & Hj).
  pose proof (ti_nodup _ _ _ _ Hinv) as Hnd. rewrite app_nil_r in Hnd.
  pose proof (NoDup_lookup _ _ _ _ Hnd Hi Hj). lia.
Qed.

Lemma topo_sort_dangling (order : set_order) self a b :
  planner_wf self -> depends self a b -> b ∉ Dict.keys (tasks self) ->
  _topological_sort_with_priority order self =
  Raise (ValueError "Circular dependency detected!").
Proof.
  intros Hwf Hab Hb.
  destruct (topo_sort_outcome order self Hwf) as (result & deg & Hinv & ->).
  destruct (length result =? length (tasks self))%nat eqn:Hlen; [|done].
  exfalso. apply Nat.eqb_eq in Hlen.
  pose proof (topo_result_perm _ _ _ Hwf Hinv Hlen) as Hperm.
  assert (Ha : a ∈ result).
  { rewrite Hperm. by eapply (wf_dep_key _ Hwf). }
  assert (Ha' : a ∈ (result ++ [])%list) by (by rewrite app_nil_r).
  destruct (ti_ready _ _ _ _ Hinv a Ha') as [_ Hsub].
  apply Hsub, elem_of_list_to_set in Hab. rewrite Hperm in Hab. done.
Qed.

(** A successful sort is a permutation of the task ids. *)
Lemma topo_sort_ok_perm (order : set_order) self sorted_tasks :
  planner_wf self ->
  _topological_sort_with_priority order self = Ok sorted_tasks ->
  sorted_tasks ≡ₚ Dict.keys (tasks self).
Proof.
  intros Hwf.
  destruct (topo_sort_outcome order self Hwf) as (result & deg & Hinv & ->).
  destruct (length result =? length (tasks self))%nat eqn:Hlen; [|done].
  intros [= <-]. apply Nat.eqb_eq in Hlen. by eapply topo_result_perm.
Qed.

(** ** The iteration order of sets does not matter *)

Lemma topo_inv_perm self in_degree av1 av2 result :
  av1 ≡ₚ av2 -> topo_inv self in_degree av1 result ->
  topo_inv self in_degree av2 result.
Proof.
  intros Hp [H1 H2 H3 H4]. split; [by rewrite <- Hp|done| |done].
  intros t Ht. apply H3. by rewrite Hp.
Qed.

Lemma topo_loop_order_irrelevant (order1 order2 : set_order) self fuel :
  planner_wf self ->
  forall in_degree av1 av2 result,
  topo_inv self in_degree av1 result -> av1 ≡ₚ av2 ->
  topo_loop order1 fuel self in_degree av1 result =
  topo_loop order2 fuel self in_degree av2 result.
Proof.
  intros Hwf. induction fuel as [|fuel IH]; intros deg av1 av2 res Hinv Hp.
  - destruct av1 as [|a1 av1].
    + apply Permutation_nil in Hp. by subst.
    + destruct av2 as [|a2 av2]; [|done].
      symmetry in Hp. by apply Permutation_nil_cons in Hp.
  - destruct av1 as [|a1 av1].
    { apply Permutation_nil in Hp. by subst. }
    destruct av2 as [|a2 av2].
    { symmetry in Hp. by apply Permutation_nil_cons in Hp. }
    cbn [topo_loop].
    assert (Hk : forall t, t ∈ a1 :: av1 -> t ∈ Dict.keys (tasks self)).
    { intros t Ht. apply (ti_ready _ _ _ _ Hinv). rewrite elem_of_app. by right. }
    rewrite <- (sort_by_priority_perm self _ _ Hwf Hk Hp).
    destruct (sort_by_priority self (a1 :: av1)) as [sorted| |] eqn:Hsort; try done.
    pose proof (sort_by_priority_Permutation _ _ _ Hwf Hk Hsort) as Hperm.
    simpl. destruct sorted as [|cur rest]; [done|].
    destruct (release (iter_set order1 cur _) deg rest) as [deg1 av1'] eqn:Hrel1.
    destruct (release (iter_set order2 cur _) deg rest) as [deg2 av2'] eqn:Hrel2.
    pose proof (topo_step _ _ _ _ _ _ _ _ _ Hwf Hinv Hperm Hrel1) as Hinv1.
    apply release_spec in Hrel1 as [Hd1 ->]; [|apply iter_set_nodup].
    apply release_spec in Hrel2 as [Hd2 ->]; [|apply iter_set_nodup].
    assert (deg1 = deg2) as ->.
    { apply map_eq. intros t. rewrite Hd1, Hd2.
      destruct (decide (t ∈ iter_set order1 cur _)) as [H1|H1];
        rewrite iter_set_elem in H1.
      - rewrite decide_True; [done|by rewrite iter_set_elem].
      - rewrite decide_False; [done|by rewrite iter_set_elem]. }
    apply IH; [done|].
    apply Permutation_app_head. apply NoDup_Permutation.
    + apply NoDup_list_filter, iter_set_nodup.
    + apply NoDup_list_filter, iter_set_nodup.
    + intros x. rewrite !elem_of_list_filter, !iter_set_elem. done.
Qed.

Lemma topo_sort_order_irrelevant (order1 order2 : set_order) self :
  planner_wf self ->
  _topological_sort_with_priority order1 self =
  _topological_sort_with_priority order2 self.
Proof.
  intros Hwf. unfold _topological_sort_with_priority.
  rewrite (topo_loop_order_irrelevant order1 order2 self _ Hwf _ _ _ _
             (topo_inv_initial self Hwf) (Permutation_refl _)).
  done.
Qed.

(** ** Ready tasks and greedy packing *)

Lemma ready_tasks_ok self sorted_tasks completed_tasks :
  (forall t, t ∈ sorted_tasks -> t ∈ Dict.keys (tasks self)) ->
  exists available_tasks,
    ready_tasks self sorted_tasks completed_tasks = Ok available_tasks /\
    forall task, task ∈ available_tasks ->
      exists k, k ∈ sorted_tasks /\ Dict.get (tasks self) k = Some task /\
                (k ∉ completed_tasks) /\
                forall d, d ∈ Task.depends_on task -> d ∈ completed_tasks.
Proof.
  induction sorted_tasks as [|k rest IH]; intros Hk; cbn [ready_tasks].
  - exists []. split; [done|]. by intros task ?%elem_of_nil.
  - destruct IH as (l & Hl & Hspec); [by intros; apply Hk; right|].
    assert (Hrest : forall task, task ∈ l ->
      exists k0, k0 ∈ k :: rest /\ Dict.get (tasks self) k0 = Some task /\
                 (k0 ∉ completed_tasks) /\
                 forall d, d ∈ Task.depends_on task -> d ∈ completed_tasks).
    { intros task (k0 & ? & ?)%Hspec. exists k0. split; [by right|done]. }
    destruct (bool_decide (k ∈ completed_tasks)) eqn:Hc.
    { by exists l. }
    apply bool_decide_eq_false in Hc.
    destruct (dict_keys_get _ _ (Hk k (list_elem_of_here _ _))) as [task Htask].
    unfold Dict.item. rewrite Htask, Hl. simpl.
    destruct (forallb _ (Task.depends_on task)) eqn:Hall.
    + exists (task :: l). split; [done|].
      intros t [->|Ht]%elem_of_cons; [|by apply Hrest].
      exists k. split_and!; [left|done|done|].
      intros d Hd%list_elem_of_In.
      rewrite forallb_forall in Hall. by apply Hall, bool_decide_eq_true in Hd.
    + by exists l.
Qed.

Lemma sort_by_conflicts_perm available_tasks :
  sort_by_conflicts available_tasks ≡ₚ available_tasks.
Proof.
  unfold sort_by_conflicts. rewrite sort_keyed_perm, map_map. simpl.
  by rewrite map_id.
Qed.

Lemma can_add_ok re_search self task wave_tasks :
  (forall wt, wt ∈ wave_tasks ->
     exists st, Dict.get (tasks self) (WaveTask.task_id wt) = Some st) ->
  exists b, can_add re_search self task wave_tasks = Ok b.
Proof.
  induction wave_tasks as [|wt rest IH]; intros H; cbn [can_add]; [by eexists|].
  destruct (H wt (list_elem_of_here _ _)) as [st Hst]. unfold Dict.item. rewrite Hst. simpl.
  destruct (_check_file_conflict re_search task st); [by eexists|].
  apply IH. intros; apply H; by right.
Qed.

(** An admitted task conflicts with none of the tasks selected before. *)
Lemma can_add_true re_search self task wave_tasks wt st :
  can_add re_search self task wave_tasks = Ok true ->
  wt ∈ wave_tasks ->
  Dict.get (tasks self) (WaveTask.task_id wt) = Some st ->
  _check_file_conflict re_search task st = false.
Proof.
  induction wave_tasks as [|wt0 rest IH]; cbn [can_add]; [by intros _ ?%elem_of_nil|].
  unfold Dict.item.
  destruct (Dict.get (tasks self) (WaveTask.task_id wt0)) as [st0|] eqn:Hst0; [|done].
  simpl. destruct (_check_file_conflict re_search task st0) eqn:Hc; [done|].
  intros Hrest [->|Hin]%elem_of_cons Hst; [congruence|by apply IH].
Qed.

Lemma pack_inv_empty re_search self completed0 :
  pack_inv re_search self completed0 [] ∅ completed0.
Proof.
  split; simpl; [done|set_solver|constructor|by intros ? ?%elem_of_nil|].
  intros j wt Hj. by rewrite lookup_nil in Hj.
Qed.

Lemma pack_wave_spec re_search self completed0 :
  planner_wf self ->
  forall available_tasks wave_tasks used_task_ids completed_tasks,
  (forall task, task ∈ available_tasks ->
     Dict.get (tasks self) (Task.task_id task) = Some task /\
     (Task.task_id task ∉ completed0) /\
     forall d, d ∈ Task.depends_on task -> d ∈ completed0) ->
  pack_inv re_search self completed0 wave_tasks used_task_ids completed_tasks ->
  exists wave_tasks' used' completed',
    pack_wave re_search self available_tasks wave_tasks used_task_ids completed_tasks
      = Ok (wave_tasks', completed') /\
    pack_inv re_search self completed0 wave_tasks' used' completed' /\
    (wave_tasks <> [] \/ available_tasks <> [] -> wave_tasks' <> []).
Proof.
  intros Hwf. induction available_tasks as [|task rest IH];
    intros wave_tasks used completed Hav Hinv; cbn [pack_wave].
  - exists wave_tasks, used, completed. split_and!; [done..|]. by intros [?|?].
  - assert (Hrest : forall t, t ∈ rest ->
       Dict.get (tasks self) (Task.task_id t) = Some t /\
       (Task.task_id t ∉ completed0) /\
       forall d, d ∈ Task.depends_on t -> d ∈ completed0)
      by (intros; apply Hav; by right).
    destruct (Hav task (list_elem_of_here _ _)) as (Htask & Hfresh & Hdeps).
    destruct (bool_decide (Task.task_id task ∈ used)) eqn:Hused.
    { destruct (IH wave_tasks used completed Hrest Hinv) as (w' & u' & c' & ? & ? & Hne).
      exists w', u', c'. split_and!; [done..|].
      intros _. apply Hne. left. intros ->.
      apply bool_decide_eq_true in Hused.
      rewrite (pk_used _ _ _ _ _ _ Hinv) in Hused. set_solver. }
    apply bool_decide_eq_false in Hused.
    destruct (can_add_ok re_search self task wave_tasks) as [b Hb].
    { intros wt [j Hj]%list_elem_of_lookup.
      destruct (pk_tasks _ _ _ _ _ _ Hinv j wt Hj) as (st & ? & _). eauto. }
    rewrite Hb. simpl. destruct b.
    + destruct (IH (wave_tasks ++ [wave_task_of task])%list
                  ({[Task.task_id task]} ∪ used) ({[Task.task_id task]} ∪ completed))
        as (w' & u' & c' & ? & ? & Hne); [done| |].
      { destruct Hinv as [Hu Hc Hnd Hfr Hts]. split.
        - rewrite map_app, list_to_set_app_L. simpl. set_solver.
        - rewrite map_app, list_to_set_app_L. simpl. set_solver.
        - rewrite map_app. apply NoDup_app. split_and!; [done| |apply NoDup_singleton].
          intros x Hx ->%list_elem_of_singleton. apply Hused. rewrite Hu.
          by apply elem_of_list_to_set.
        - intros wt [Hwt|Hwt]%elem_of_app; [by apply Hfr|].
          apply list_elem_of_singleton in Hwt. by subst.
        - intros j wt Hj.
          destruct (decide (j < length wave_tasks)) as [Hlt|Hge].
          + rewrite lookup_app_l in Hj by done.
            rewrite take_app_le by lia. by apply Hts.
          + rewrite lookup_app_r in Hj by lia.
            apply list_lookup_singleton_Some in Hj as [Hj <-].
            rewrite take_app_ge by lia.
            replace (j - length wave_tasks) with 0 by lia.
            rewrite take_0, app_nil_r.
            exists task. by split_and!. }
      exists w', u', c'. split_and!; [done..|].
      intros _. apply Hne. left. by destruct wave_tasks.
    + destruct (IH wave_tasks used completed Hrest Hinv) as (w' & u' & c' & ? & ? & Hne).
      exists w', u', c'. split_and!; [done..|].
      intros _. apply Hne. left. intros ->. by simpl in Hb.
Qed.

(** ** The wave loop *)

Lemma plan_ids_app waves1 waves2 :
  plan_ids (waves1 ++ waves2) = (plan_ids waves1 ++ plan_ids waves2)%list.
Proof. unfold plan_ids. apply flat_map_app. Qed.

Lemma plan_ids_singleton w : plan_ids [w] = wave_ids w.
Proof. unfold plan_ids. simpl. by rewrite app_nil_r. Qed.

Lemma elem_of_plan_ids t waves :
  t ∈ plan_ids waves <->
  exists i w, waves !! i = Some w /\ t ∈ wave_ids w.
Proof.
  unfold plan_ids. rewrite list_elem_of_In, in_flat_map. split.
  - intros (w & [i Hi]%list_elem_of_In%list_elem_of_lookup & Ht%list_elem_of_In). eauto.
  - intros (i & w & Hi & Ht). exists w. split; apply list_elem_of_In; [|done].
    apply list_elem_of_lookup. eauto.
Qed.

Lemma plan_inv_keys re_search self waves completed_tasks t :
  plan_inv re_search self waves completed_tasks ->
  t ∈ plan_ids waves -> t ∈ Dict.keys (tasks self).
Proof.
  intros Hinv (i & w & Hi & Ht)%elem_of_plan_ids.
  unfold wave_ids in Ht. apply list_elem_of_fmap in Ht as (wt & -> & Hwt).
  apply list_elem_of_lookup in Hwt as [j Hj].
  destruct (wo_tasks _ _ _ _ (pi_waves _ _ _ _ Hinv i w Hi) j wt Hj) as (task & Hg & _).
  by eapply dict_get_Some_keys.
Qed.

Lemma plan_inv_initial re_search self : plan_inv re_search self [] ∅.
Proof.
  split; simpl; [done|constructor|]. intros i w Hi. by rewrite lookup_nil in Hi.
Qed.

Lemma plan_inv_step re_search self waves completed_tasks wave_tasks used completed' :
  plan_inv re_search self waves completed_tasks ->
  pack_inv re_search self completed_tasks wave_tasks used completed' ->
  wave_tasks <> [] ->
  plan_inv re_search self (waves ++ [make_wave waves wave_tasks]) completed'.
Proof.
  intros [Hc Hnd Hw] [Hu Hc' Hnd' Hfr Hts] Hne.
  assert (Hids : wave_ids (make_wave waves wave_tasks) = map WaveTask.task_id wave_tasks)
    by done.
  split.
  - rewrite plan_ids_app, plan_ids_singleton, Hids, list_to_set_app_L, Hc', Hc.
    set_solver.
  - rewrite plan_ids_app, plan_ids_singleton, Hids.
    apply NoDup_app. split_and!; [done| |done].
    intros x Hx (wt & -> & Hwt)%list_elem_of_fmap.
    apply (Hfr wt Hwt). rewrite Hc. by apply elem_of_list_to_set.
  - intros i w Hi.
    destruct (decide (i < length waves)) as [Hlt|Hge].
    + rewrite lookup_app_l in Hi by done.
      rewrite take_app_le by lia. by apply Hw.
    + rewrite lookup_app_r in Hi by lia.
      apply list_lookup_singleton_Some in Hi as [Hi <-].
      rewrite take_app_ge by lia.
      replace (i - length waves) with 0 by lia. rewrite take_0, app_nil_r.
      split; simpl; [done|done|done|done|].
      intros j wt Hj. destruct (Hts j wt Hj) as (task & ? & ? & Hd & ?).
      exists task. split_and!; [done|done| |done].
      intros d Hdd. apply Hd in Hdd. rewrite Hc in Hdd.
      by apply elem_of_list_to_set in Hdd.
Qed.

Lemma pack_inv_size re_search self completed0 wave_tasks used completed' :
  pack_inv re_search self completed0 wave_tasks used completed' ->
  wave_tasks <> [] -> size completed0 < size completed'.
Proof.
  intros [Hu Hc Hnd Hfr Hts] Hne. rewrite Hc.
  rewrite size_union.
  - assert (size (list_to_set (map WaveTask.task_id wave_tasks) : gset string) ≠ 0); [|lia].
    apply size_non_empty_iff. destruct wave_tasks as [|wt ?]; [done|].
    simpl. set_solver.
  - intros x (wt & -> & Hwt)%elem_of_list_to_set%list_elem_of_fmap. by apply Hfr.
Qed.

Lemma plan_loop_spec re_search self sorted_tasks fuel :
  planner_wf self ->
  (forall t, t ∈ sorted_tasks -> t ∈ Dict.keys (tasks self)) ->
  forall waves completed_tasks,
  plan_inv re_search self waves completed_tasks ->
  length (tasks self) <= fuel + size completed_tasks ->
  (exists waves',
     plan_loop re_search fuel self sorted_tasks waves completed_tasks = Ok waves' /\
     plan_inv re_search self waves' (list_to_set (Dict.keys (tasks self)))) \/
  (plan_loop re_search fuel self sorted_tasks waves completed_tasks =
     Raise (ValueError "No available tasks - possible circular dependency!") /\
   exists waves' completed',
     plan_inv re_search self waves' completed' /\
     completed' <> list_to_set (Dict.keys (tasks self)) /\
     ready_tasks self sorted_tasks completed' = Ok []).
Proof.
  intros Hwf Hsorted. induction fuel as [|fuel IH]; intros waves completed Hinv Hfuel.
  - cbn [plan_loop]. case_bool_decide as Hdone.
    { left. exists waves. split; [done|]. by rewrite <- Hdone. }
    exfalso.
    assert (Hsub : completed ⊂ list_to_set (Dict.keys (tasks self))).
    { assert (Hle : completed ⊆ list_to_set (Dict.keys (tasks self))).
      { intros x Hx. rewrite (pi_completed _ _ _ _ Hinv) in Hx.
        apply elem_of_list_to_set in Hx. apply elem_of_list_to_set.
        by eapply plan_inv_keys. }
      split; [done|]. intros Hge. apply Hdone. set_solver. }
    apply subset_size in Hsub.
    rewrite size_list_to_set in Hsub by apply (wf_keys_nodup _ Hwf).
    rewrite dict_keys_length in Hsub. lia.
  - cbn [plan_loop]. case_bool_decide as Hdone.
    { left. exists waves. split; [done|]. by rewrite <- Hdone. }
    destruct (ready_tasks_ok self sorted_tasks completed Hsorted) as (av & Hready & Hav).
    rewrite Hready. simpl. destruct av as [|a av].
    { right. split; [done|]. by exists waves, completed. }
    set (sorted_av := sort_by_conflicts (a :: av)).
    assert (Hsav : forall task, task ∈ sorted_av ->
       Dict.get (tasks self) (Task.task_id task) = Some task /\
       (Task.task_id task ∉ completed) /\
       forall d, d ∈ Task.depends_on task -> d ∈ completed).
    { intros task Ht. unfold sorted_av in Ht. rewrite sort_by_conflicts_perm in Ht.
      destruct (Hav task Ht) as (k & _ & Hg & Hk & Hd).
      rewrite (wf_task_id _ Hwf _ _ Hg). done. }
    destruct (pack_wave_spec re_search self completed Hwf sorted_av [] ∅ completed Hsav
                (pack_inv_empty _ _ _)) as (w' & u' & c' & -> & Hpack & Hne).
    simpl.
    assert (Hw' : w' <> []).
    { apply Hne. right. intros Hnil.
      pose proof (sort_by_conflicts_perm (a :: av)) as Hp. fold sorted_av in Hp.
      rewrite Hnil in Hp. by apply Permutation_nil_cons in Hp. }
    destruct w' as [|wt w']; [done|].
    apply IH.
    + by eapply plan_inv_step.
    + pose proof (pack_inv_size _ _ _ _ _ _ Hpack Hw'). lia.
Qed.

(** A ready task is found whenever some task is not completed, when the
    tasks are listed after their dependencies. *)
Lemma ready_tasks_complete self sorted_tasks completed_tasks available_tasks k task :
  ready_tasks self sorted_tasks completed_tasks = Ok available_tasks ->
  k ∈ sorted_tasks -> Dict.get (tasks self) k = Some task ->
  k ∉ completed_tasks ->
  (forall d, d ∈ Task.depends_on task -> d ∈ completed_tasks) ->
  task ∈ available_tasks.
Proof.
  revert available_tasks.
  induction sorted_tasks as [|k0 rest IH]; intros av Hready Hk Hg Hnc Hdeps.
  - by apply elem_of_nil in Hk.
  - cbn [ready_tasks] in Hready.
    destruct (bool_decide (k0 ∈ completed_tasks)) eqn:Hc.
    { apply bool_decide_eq_true in Hc.
      apply elem_of_cons in Hk as [->|Hk]; [done|]. by apply IH. }
    unfold Dict.item in Hready.
    destruct (Dict.get (tasks self) k0) as [task0|] eqn:Hg0; [|done].
    simpl in Hready.
    destruct (ready_tasks self rest completed_tasks) as [l| |] eqn:Hl; try done.
    simpl in Hready.
    destruct (forallb _ (Task.depends_on task0)) eqn:Hall.
    + injection Hready as <-.
      apply elem_of_cons in Hk as [->|Hk]; [|right; by apply IH].
      assert (task0 = task) as -> by congruence. left.
    + injection Hready as <-.
      apply elem_of_cons in Hk as [->|Hk]; [|by apply IH].
      exfalso. assert (task0 = task) as -> by congruence.
      assert (Htrue : forallb (fun dep => bool_decide (dep ∈ completed_tasks))
                        (Task.depends_on task) = true); [|congruence].
      apply forallb_forall. intros d Hd%list_elem_of_In.
      apply bool_decide_eq_true. auto.
Qed.

Lemma ready_tasks_progress self sorted_tasks completed_tasks :
  planner_wf self ->
  sorted_tasks ≡ₚ Dict.keys (tasks self) ->
  (forall i t, sorted_tasks !! i = Some t ->
     graph_get (dependency_graph self) t ⊆ list_to_set (take i sorted_tasks)) ->
  completed_tasks <> list_to_set (Dict.keys (tasks self)) ->
  completed_tasks ⊆ list_to_set (Dict.keys (tasks self)) ->
  ready_tasks self sorted_tasks completed_tasks <> Ok [].
Proof.
  intros Hwf Hperm Hord Hne Hsub Hready.
  destruct (list_find (fun t => t ∉ completed_tasks) sorted_tasks) as [[i t]|] eqn:Hfind.
  - apply list_find_Some in Hfind as (Hi & Ht & Hfirst).
    assert (Hk : t ∈ Dict.keys (tasks self)).
    { rewrite <- Hperm. apply list_elem_of_lookup. eauto. }
    destruct (dict_keys_get _ _ Hk) as [task Hg].
    assert (Hin : task ∈ ([] : list Task.t)); [|by apply elem_of_nil in Hin].
    apply (ready_tasks_complete self sorted_tasks completed_tasks [] t task Hready);
      [apply list_elem_of_lookup; eauto|done|done|].
    intros d Hd. apply (wf_depends_on _ Hwf _ _ _ Hg) in Hd.
    apply (Hord i t Hi), elem_of_list_to_set, list_elem_of_lookup in Hd as [j Hj].
    apply lookup_take_Some in Hj as [Hj Hlt].
    destruct (decide (d ∈ completed_tasks)); [done|].
    exfalso. by apply (Hfirst j d).
  - apply list_find_None in Hfind. apply Hne. apply set_eq. intros x. split; [by apply Hsub|].
    intros Hx%elem_of_list_to_set. rewrite <- Hperm in Hx.
    rewrite Forall_forall in Hfind. specialize (Hfind x Hx).
    by destruct (decide (x ∈ completed_tasks)).
Qed.

(** ** Plans that are produced *)

Lemma plan_loop_ok_inv re_search self sorted_tasks waves :
  planner_wf self ->
  (forall t, t ∈ sorted_tasks -> t ∈ Dict.keys (tasks self)) ->
  plan_loop re_search (length (tasks self)) self sorted_tasks [] ∅ = Ok waves ->
  plan_inv re_search self waves (list_to_set (Dict.keys (tasks self))).
Proof.
  intros Hwf Hk Hloop.
  destruct (plan_loop_spec re_search self sorted_tasks (length (tasks self)) Hwf Hk [] ∅
              (plan_inv_initial _ _)) as [(waves' & Hw & Hinv)|[Hw _]]; [lia| |congruence].
  congruence.
Qed.

Lemma generate_execution_plan_inv re_search order self plan :
  planner_wf self ->
  generate_execution_plan re_search order self = Ok plan ->
  plan_inv re_search self (ExecutionPlan.waves plan)
    (list_to_set (Dict.keys (tasks self))) /\
  ExecutionPlan.summary plan = make_summary self (ExecutionPlan.waves plan).
Proof.
  intros Hwf. unfold generate_execution_plan.
  destruct (_topological_sort_with_priority order self) as [sorted| |] eqn:Hsort;
    simpl; try done.
  pose proof (topo_sort_ok_perm _ _ _ Hwf Hsort) as Hperm.
  destruct (plan_loop re_search (length (tasks self)) self sorted [] ∅)
    as [waves| |] eqn:Hloop; simpl; try done.
  intros [= <-]. simpl. split; [|done].
  apply (plan_loop_ok_inv re_search self sorted waves Hwf); [|done].
  intros t Ht. by rewrite <- Hperm.
Qed.

(** Planning is total: a registry that was loaded gets a plan, or the
    topological sort reports a circular dependency; the second check of
    the wave loop never fires and no iteration bound is exhausted. *)
Lemma generate_execution_plan_total re_search order self :
  planner_wf self ->
  (exists plan, generate_execution_plan re_search order self = Ok plan) \/
  generate_execution_plan re_search order self =
    Raise (ValueError "Circular dependency detected!").
Proof.
  intros Hwf. unfold generate_execution_plan.
  destruct (topo_sort_outcome order self Hwf) as (result & deg & Hinv & Hsort).
  rewrite Hsort.
  destruct (length result =? length (tasks self))%nat eqn:Hlen; [|by right].
  left. apply Nat.eqb_eq in Hlen. simpl.
  pose proof (topo_result_perm _ _ _ Hwf Hinv Hlen) as Hperm.
  assert (Hk : forall t, t ∈ result -> t ∈ Dict.keys (tasks self))
    by (intros t Ht; by rewrite <- Hperm).
  destruct (plan_loop_spec re_search self result (length (tasks self)) Hwf Hk [] ∅
              (plan_inv_initial _ _))
    as [(waves & -> & _)|[_ (waves & completed & Hpi & Hne & Hready)]]; [lia|by eexists|].
  exfalso.
  apply (ready_tasks_progress self result completed Hwf Hperm
           (ti_order _ _ _ _ Hinv) Hne); [|done].
  intros x Hx. rewrite (pi_completed _ _ _ _ Hpi) in Hx.
  apply elem_of_list_to_set in Hx. apply elem_of_list_to_set.
  by eapply plan_inv_keys.
Qed.

Lemma generate_execution_plan_terminates re_search order self :
  planner_wf self ->
  generate_execution_plan re_search order self <> OutOfFuel.
Proof.
  intros Hwf.
  by destruct (generate_execution_plan_total re_search order self Hwf) as [[plan ->]| ->].
Qed.

Lemma flat_map_nodup_unique {A B : Type} (f : A -> list B) (l : list A) i j x y t :
  NoDup (flat_map f l) -> l !! i = Some x -> l !! j = Some y ->
  t ∈ f x -> t ∈ f y -> i = j.
Proof.
  revert i j. induction l as [|a l IH]; intros i j Hnd Hi Hj Hx Hy.
  - by rewrite lookup_nil in Hi.
  - simpl in Hnd. apply NoDup_app in Hnd as (_ & Hdisj & Hnd).
    assert (Hin : forall k z, l !! k = Some z -> t ∈ f z -> t ∈ flat_map f l).
    { intros k z Hk Hz. apply list_elem_of_In, in_flat_map. exists z.
      split; apply list_elem_of_In; [|done]. apply list_elem_of_lookup. eauto. }
    destruct i as [|i], j as [|j]; simpl in *; simplify_eq; [done| | |].
    + exfalso. eapply Hdisj; eauto.
    + exfalso. eapply Hdisj; eauto.
    + f_equal. by eapply IH.
Qed.

Lemma flat_map_nodup_each {A B : Type} (f : A -> list B) (l : list A) x :
  NoDup (flat_map f l) -> x ∈ l -> NoDup (f x).
Proof.
  induction l as [|a l IH]; simpl; [by intros _ ?%elem_of_nil|].
  intros (Ha & _ & Hl)%NoDup_app [->|Hx]%elem_of_cons; auto.
Qed.

Lemma plan_inv_wave_number re_search self waves completed_tasks i w :
  plan_inv re_search self waves completed_tasks ->
  waves !! i = Some w -> Wave.wave_number w = i + 1.
Proof.
  intros Hinv Hi. rewrite (wo_number _ _ _ _ (pi_waves _ _ _ _ Hinv i w Hi)).
  rewrite length_take. apply lookup_lt_Some in Hi. lia.
Qed.

(** ** Sums and maxima *)

Lemma fold_left_add_acc (l : list Z) (a : Z) :
  fold_left Z.add l a = (a + fold_left Z.add l 0)%Z.
Proof.
  revert a. induction l as [|x l IH]; intros a; cbn [fold_left]; [lia|].
  rewrite (IH (a + x)%Z), (IH (0 + x)%Z). lia.
Qed.

Lemma sum_Z_cons x l : sum_Z (x :: l) = (x + sum_Z l)%Z.
Proof. unfold sum_Z. cbn [fold_left]. rewrite fold_left_add_acc. lia. Qed.

Lemma sum_Z_app l1 l2 : sum_Z (l1 ++ l2) = (sum_Z l1 + sum_Z l2)%Z.
Proof.
  induction l1 as [|x l1 IH]; simpl; [done|].
  rewrite !sum_Z_cons, IH. lia.
Qed.

Lemma sum_Z_perm l1 l2 : l1 ≡ₚ l2 -> sum_Z l1 = sum_Z l2.
Proof.
  induction 1 as [|x l1 l2 _ IH|x y l|l1 l2 l3 _ IH1 _ IH2];
    rewrite ?sum_Z_cons; lia.
Qed.

Lemma fold_left_max_spec (l : list Z) (a : Z) :
  is_max (fold_left Z.max l a) (a :: l).
Proof.
  revert a. induction l as [|x l IH]; intros a; simpl.
  - split; [left|]. intros y ->%list_elem_of_singleton. lia.
  - destruct (IH (Z.max a x)) as [Hin Hmax]. split.
    + apply elem_of_cons in Hin as [Heq|Hin]; [|by right; right].
      rewrite Heq. destruct (Z.max_spec a x) as [[_ ->]|[_ ->]]; [right|]; left.
    + intros y Hy. assert (Z.max a x <= fold_left Z.max l (Z.max a x))%Z
        by (apply Hmax; left).
      apply elem_of_cons in Hy as [->|[->|Hy]%elem_of_cons]; [lia|lia|].
      apply Hmax. by right.
Qed.

Lemma max_default0_is_max (l : list Z) : l <> [] -> is_max (max_default0 l) l.
Proof. destruct l as [|x l]; [done|]. intros _. apply fold_left_max_spec. Qed.

Lemma sum_Z_nonneg (l : list Z) :
  (forall x, x ∈ l -> (0 <= x)%Z) -> (0 <= sum_Z l)%Z.
Proof.
  induction l as [|x l IH]; intros Hpos; [done|]. rewrite sum_Z_cons.
  assert (0 <= x)%Z by (apply Hpos; left).
  assert (0 <= sum_Z l)%Z; [|lia]. apply IH. intros; apply Hpos; by right.
Qed.

Lemma elem_le_sum_Z (l : list Z) (m : Z) :
  (forall x, x ∈ l -> (0 <= x)%Z) -> m ∈ l -> (m <= sum_Z l)%Z.
Proof.
  induction l as [|x l IH]; intros Hpos Hin; [by apply elem_of_nil in Hin|].
  rewrite sum_Z_cons.
  assert (0 <= x)%Z by (apply Hpos; left).
  assert (Hl : forall y, y ∈ l -> (0 <= y)%Z) by (intros; apply Hpos; by right).
  pose proof (sum_Z_nonneg l Hl).
  apply elem_of_cons in Hin as [->|Hin]; [lia|].
  pose proof (IH Hl Hin). lia.
Qed.

Lemma max_default0_le_sum (l : list Z) :
  (forall x, x ∈ l -> (0 <= x)%Z) -> (max_default0 l <= sum_Z l)%Z.
Proof.
  intros Hpos. destruct (decide (l = [])) as [->|Hne]; [done|].
  apply elem_le_sum_Z; [done|]. by apply max_default0_is_max.
Qed.

(** ** Wave durations against the sequential time *)

Lemma wave_runtimes re_search self earlier w :
  wave_ok re_search self earlier w ->
  map WaveTask.expected_runtime_min (Wave.tasks w) =
  map (runtime_of self) (wave_ids w).
Proof.
  intros Hw. unfold wave_ids. rewrite map_map.
  apply map_ext_in. intros wt [j Hj]%list_elem_of_In%list_elem_of_lookup.
  destruct (wo_tasks _ _ _ _ Hw j wt Hj) as (task & Hg & -> & _).
  unfold runtime_of. simpl in *. by rewrite Hg.
Qed.

Lemma dict_values_runtime self :
  NoDup (Dict.keys (tasks self)) ->
  map (runtime_of self) (Dict.keys (tasks self)) =
  map Task.expected_runtime_min (Dict.values (tasks self)).
Proof.
  intros Hnd. unfold Dict.keys, Dict.values. rewrite !map_map.
  apply map_ext_in. intros [k t] Hkt%list_elem_of_In. simpl.
  unfold runtime_of. by rewrite (dict_elem_get _ _ _ Hnd Hkt).
Qed.

Lemma plan_ids_perm re_search self waves :
  planner_wf self ->
  plan_inv re_search self waves (list_to_set (Dict.keys (tasks self))) ->
  plan_ids waves ≡ₚ Dict.keys (tasks self).
Proof.
  intros Hwf [Hc Hnd _]. apply NoDup_Permutation; [done|apply (wf_keys_nodup _ Hwf)|].
  intros x. rewrite <- !(elem_of_list_to_set (C := gset string)). by rewrite Hc.
Qed.

Lemma plan_time_le_sum re_search self waves completed_tasks :
  plan_inv re_search self waves completed_tasks ->
  (forall t, t ∈ Dict.values (tasks self) -> (0 <= Task.expected_runtime_min t)%Z) ->
  (sum_Z (map Wave.estimated_wave_time_min waves) <=
   sum_Z (map (runtime_of self) (plan_ids waves)))%Z.
Proof.
  intros Hinv Hpos.
  assert (Hw : forall w, w ∈ waves ->
            (Wave.estimated_wave_time_min w <= sum_Z (map (runtime_of self) (wave_ids w)))%Z).
  { intros w [i Hi]%list_elem_of_lookup.
    pose proof (pi_waves _ _ _ _ Hinv i w Hi) as Hok.
    rewrite (wo_time _ _ _ _ Hok), <- (wave_runtimes _ _ _ _ Hok).
    apply max_default0_le_sum.
    intros x (wt & -> & [j Hj]%list_elem_of_lookup)%list_elem_of_fmap.
    destruct (wo_tasks _ _ _ _ Hok j wt Hj) as (task & Hg & -> & _). simpl.
    apply Hpos. unfold Dict.values. apply list_elem_of_fmap.
    exists (Task.task_id task, task). split; [done|]. by apply dict_get_elem. }
  clear Hinv. induction waves as [|w waves IH]; [done|].
  cbn [map plan_ids flat_map]. rewrite sum_Z_cons, map_app, sum_Z_app.
  assert (Wave.estimated_wave_time_min w <= sum_Z (map (runtime_of self) (wave_ids w)))%Z
    by (apply Hw; left).
  assert (sum_Z (map Wave.estimated_wave_time_min waves) <=
          sum_Z (map (runtime_of self) (plan_ids waves)))%Z; [|unfold plan_ids in *; lia].
  apply IH. intros; apply Hw; by right.
Qed.

(** ** Loading fails only on a record without [task_id] *)

Lemma build_file_pattern_map_ok file_patterns_data m :
  (forall c, c ∈ file_patterns_data -> ConflictRecord.task_id c <> None) ->
  exists m', build_file_pattern_map file_patterns_data m = Ok m'.
Proof.
  revert m. induction file_patterns_data as [|c rest IH]; intros m H; simpl; [eauto|].
  destruct (ConflictRecord.task_id c) eqn:Hc.
  - apply IH. intros; apply H; by right.
  - exfalso. by apply (H c (list_elem_of_here _ _)).
Qed.

Lemma load_tasks_ok dependencies m self :
  (forall r, r ∈ dependencies -> DepRecord.task_id r <> None) ->
  exists self', load_tasks dependencies m self = Ok self'.
Proof.
  revert self. induction dependencies as [|r rest IH]; intros self H; simpl; [eauto|].
  destruct (DepRecord.task_id r) eqn:Hr.
  - apply IH. intros; apply H; by right.
  - exfalso. by apply (H r (list_elem_of_here _ _)).
Qed.

Lemma load_data_ok dependencies file_patterns_data :
  (forall r, r ∈ dependencies -> DepRecord.task_id r <> None) ->
  (forall c, c ∈ file_patterns_data -> ConflictRecord.task_id c <> None) ->
  exists self, load_data dependencies file_patterns_data = Ok self.
Proof.
  intros Hd Hc. unfold load_data.
  destruct (build_file_pattern_map_ok file_patterns_data ∅ Hc) as [m ->]. simpl.
  by apply load_tasks_ok.
Qed.

Lemma feed_cycle_in_graph dependencies file_patterns_data self a b :
  load_data dependencies file_patterns_data = Ok self ->
  tc (feed_depends dependencies) a b -> tc (depends self) a b.
Proof.
  intros [Hdep _]%load_data_graph Htc.
  induction Htc as [x y Hxy|x y z Hxy _ IH].
  - apply tc_once. by apply Hdep.
  - eapply tc_l; [|exact IH]. by apply Hdep.
Qed.

Lemma topo_result_short (order : set_order) self :
  planner_wf self ->
  _topological_sort_with_priority order self =
    Raise (ValueError "Circular dependency detected!") ->
  exists result,
    topo_loop order (length (tasks self)) self (initial_in_degree self)
      (List.filter (fun task_id => (degree_get (initial_in_degree self) task_id =? 0)%Z)
         (Dict.keys (tasks self))) [] = Ok result /\
    length result < length (tasks self).
Proof.
  intros Hwf Hraise.
  destruct (topo_loop_spec order self Hwf) as (result & deg & Hloop & Hinv).
  exists result. split; [done|].
  unfold _topological_sort_with_priority in Hraise. rewrite Hloop in Hraise.
  simpl in Hraise.
  destruct (length result =? length (tasks self))%nat eqn:Hlen; [done|].
  apply Nat.eqb_neq in Hlen.
  pose proof (NoDup_subset_length _ (Dict.keys (tasks self)) (ti_nodup _ _ _ _ Hinv)
                (fun x Hx => proj1 (ti_ready _ _ _ _ Hinv x Hx))) as Hle.
  rewrite app_nil_r, dict_keys_length in Hle. lia.
Qed.

Lemma run_planner_order_irrelevant
    re_search order1 order2 dependencies file_patterns_data :
  run_planner re_search order1 dependencies file_patterns_data =
  run_planner re_search order2 dependencies file_patterns_data.
Proof.
  unfold run_planner.
  destruct (load_data dependencies file_patterns_data) as [self| |] eqn:Hload;
    simpl; try done.
  unfold generate_execution_plan.
  by rewrite (topo_sort_order_irrelevant order1 order2 self (load_data_wf _ _ _ Hload)).
Qed.

(** No two tasks of a wave conflict: the later one was admitted against
    the earlier one. *)
Lemma plan_inv_conflict_free re_search self waves completed_tasks w i j wi wj ti tj :
  plan_inv re_search self waves completed_tasks ->
  w ∈ waves -> Wave.tasks w !! i = Some wi -> Wave.tasks w !! j = Some wj ->
  i < j ->
  Dict.get (tasks self) (WaveTask.task_id wi) = Some ti ->
  Dict.get (tasks self) (WaveTask.task_id wj) = Some tj ->
  _check_file_conflict re_search tj ti = false.
Proof.
  intros Hinv [k Hk]%list_elem_of_lookup Hi Hj Hlt Hti Htj.
  destruct (wo_tasks _ _ _ _ (pi_waves _ _ _ _ Hinv k w Hk) j wj Hj)
    as (task & Hg & _ & _ & Hadd).
  assert (task = tj) as -> by congruence.
  apply (can_add_true _ _ _ _ wi ti Hadd); [|done].
  apply list_elem_of_lookup. exists i. by apply lookup_take_Some.
Qed.


(** ** The overlap probe *)

Lemma probe_counts_filter re_search pattern1 pattern2 paths :
  probe_counts re_search pattern1 pattern2 paths =
  (length (List.filter (fun path => matches re_search pattern1 path
                                    && matches re_search pattern2 path) paths),
   length (List.filter (matches re_search pattern1) paths),
   length (List.filter (matches re_search pattern2) paths)).
Proof.
  unfold probe_counts.
  assert (H : forall o m1 m2,
    fold_left
      (fun '(overlap_count, match1_count, match2_count) path =>
         let matches1 := matches re_search pattern1 path in
         let matches2 := matches re_search pattern2 path in
         ((if matches1 && matches2 then S overlap_count else overlap_count),
          (if matches1 then S match1_count else match1_count),
          (if matches2 then S match2_count else match2_count)))
      paths (o, m1, m2) =
    (o + length (List.filter (fun path => matches re_search pattern1 path
                                          && matches re_search pattern2 path) paths),
     m1 + length (List.filter (matches re_search pattern1) paths),
     m2 + length (List.filter (matches re_search pattern2) paths))).
  { induction paths as [|p paths IH]; intros o m1 m2; cbn [fold_left List.filter].
    - simpl. by rewrite !Nat.add_0_r.
    - rewrite IH.
      destruct (matches re_search pattern1 p), (matches re_search pattern2 p);
        cbn [andb length]; rewrite ?Nat.add_succ_comm; reflexivity. }
  apply H.
Qed.

Lemma filter_length_pos {A : Type} (f : A -> bool) (l : list A) :
  0 < length (List.filter f l) <-> exists x, x ∈ l /\ f x = true.
Proof.
  split.
  - destruct (List.filter f l) as [|x l'] eqn:E; simpl; [lia|]. intros _.
    exists x. apply elem_of_list_filter. rewrite E. left.
  - intros (x & Hx). apply elem_of_list_filter in Hx.
    destruct (List.filter f l); [by apply elem_of_nil in Hx|simpl; lia].
Qed.

Lemma generate_and_test_paths_spec re_search pattern1 pattern2 base1 base2 :
  _generate_and_test_paths re_search pattern1 pattern2 base1 base2 = true <->
  (exists path, path ∈ test_paths base1 base2 /\
     matches re_search pattern1 path = true /\
     matches re_search pattern2 path = true) \/
  ((exists path, path ∈ test_paths base1 base2 /\
      matches re_search pattern1 path = true) /\
   (exists path, path ∈ test_paths base1 base2 /\
      matches re_search pattern2 path = true) /\
   3 <= length (common_prefix (path_parts base1) (path_parts base2))).
Proof.
  unfold _generate_and_test_paths. rewrite probe_counts_filter.
  set (paths := test_paths base1 base2).
  set (n := length (common_prefix (path_parts base1) (path_parts base2))).
  assert (Hboth : 0 < length (List.filter (fun path => matches re_search pattern1 path
                       && matches re_search pattern2 path) paths) <->
            exists path, path ∈ paths /\ matches re_search pattern1 path = true /\
                         matches re_search pattern2 path = true).
  { rewrite filter_length_pos. by setoid_rewrite andb_true_iff. }
  rewrite <- Hboth, <- !filter_length_pos.
  destruct (Nat.ltb_spec 0 (length (List.filter (fun path => matches re_search pattern1 path
                       && matches re_search pattern2 path) paths))); [tauto|].
  destruct (Nat.ltb_spec 0 (length (List.filter (matches re_search pattern1) paths)));
    destruct (Nat.ltb_spec 0 (length (List.filter (matches re_search pattern2) paths)));
    cbn [andb]; try destruct (Nat.leb_spec 3 n);
    (split; [try done; tauto|]); intros [?|(? & ? & ?)]; try done; lia.
Qed.

Lemma take_min_prefix {A : Type} (l1 l2 : list A) :
  take (Nat.min (length l1) (length l2)) l1 =
  take (Nat.min (length l1) (length l2)) l2 <->
  l1 `prefix_of` l2 \/ l2 `prefix_of` l1.
Proof.
  split.
  - intros H. destruct (Nat.le_ge_cases (length l1) (length l2)) as [Hle|Hle].
    + left. rewrite Nat.min_l in H by done. rewrite firstn_all in H.
      exists (drop (length l1) l2). by rewrite H at 1; rewrite take_drop.
    + right. rewrite Nat.min_r in H by done. rewrite (firstn_all l2) in H.
      exists (drop (length l2) l1). by rewrite <- H at 1; rewrite take_drop.
  - intros [[k ->]|[k ->]]; rewrite length_app.
    + rewrite Nat.min_l by lia. rewrite firstn_all. by rewrite take_app_length.
    + rewrite Nat.min_r by lia. rewrite firstn_all. by rewrite take_app_length.
Qed.

Lemma common_prefix_nil_not_prefix (l1 l2 : list string) :
  l1 <> [] -> l2 <> [] -> common_prefix l1 l2 = [] ->
  ~ (l1 `prefix_of` l2 \/ l2 `prefix_of` l1).
Proof.
  destruct l1 as [|a l1], l2 as [|b l2]; try done. intros _ _. simpl.
  destruct (String.eqb_spec a b) as [->|Hne]; [done|].
  intros _ [[k Hk]|[k Hk]]; simplify_eq/=; done.
Qed.

(** ** Declared conflicts held by the registry *)

Lemma explicit_conflict_sym task1 task2 :
  explicit_conflict task1 task2 = explicit_conflict task2 task1.
Proof. unfold explicit_conflict. apply orb_comm. Qed.

Lemma explicit_conflict_check re_search task1 task2 :
  Task.task_id task1 <> Task.task_id task2 ->
  explicit_conflict task1 task2 = true ->
  _check_file_conflict re_search task1 task2 = true.
Proof.
  intros Hne Hex. unfold _check_file_conflict, explicit_conflict in *.
  destruct (String.eqb_spec (Task.task_id task1) (Task.task_id task2)); [done|].
  by rewrite Hex.
Qed.

Lemma generate_execution_plan_order_irrelevant re_search order1 order2 self :
  planner_wf self ->
  generate_execution_plan re_search order1 self =
  generate_execution_plan re_search order2 self.
Proof.
  intros Hwf. unfold generate_execution_plan.
  by rewrite (topo_sort_order_irrelevant order1 order2 self Hwf).
Qed.

Lemma feed_task_dangling_deps k : feed_task dangling_deps k -> k = "A".
Proof.
  intros (r & Hr & Hid). apply list_elem_of_singleton in Hr. subst r.
  simpl in Hid. congruence.
Qed.

(** ** Symmetry of the conflict tests *)

Lemma string_eqb_sym (s1 s2 : string) : String.eqb s1 s2 = String.eqb s2 s1.
Proof.
  destruct (String.eqb_spec s1 s2) as [->|Hne].
  - by rewrite String.eqb_refl.
  - symmetry. apply String.eqb_neq. congruence.
Qed.

Lemma common_prefix_comm (l1 l2 : list string) :
  common_prefix l1 l2 = common_prefix l2 l1.
Proof.
  revert l2. induction l1 as [|p1 r1 IH]; intros [|p2 r2]; simpl; try done.
  rewrite (string_eqb_sym p2 p1).
  destruct (String.eqb_spec p1 p2) as [->|_]; [|done]. by rewrite IH.
Qed.

Lemma test_paths_perm (base1 base2 : string) :
  test_paths base1 base2 ≡ₚ test_paths base2 base1.
Proof.
  unfold test_paths.
  rewrite (orb_comm (PyStr.contains "services" base2)),
          (orb_comm (PyStr.contains "utils" base2)).
  rewrite (string_eqb_sym base1 base2).
  destruct (String.eqb_spec base2 base1) as [->|Hne]; [done|].
  rewrite !andb_true_r, !app_assoc.
  do 2 apply Permutation_app_tail. apply Permutation_app_comm.
Qed.

Lemma bool_eq_iff (b1 b2 : bool) : (b1 = true <-> b2 = true) -> b1 = b2.
Proof. destruct b1, b2; intuition congruence. Qed.

Lemma generate_and_test_paths_sym re_search pattern1 pattern2 base1 base2 :
  _generate_and_test_paths re_search pattern1 pattern2 base1 base2 =
  _generate_and_test_paths re_search pattern2 pattern1 base2 base1.
Proof.
  apply bool_eq_iff. rewrite !generate_and_test_paths_spec.
  rewrite (common_prefix_comm (path_parts base2)).
  assert (Hin : forall path, path ∈ test_paths base2 base1 <->
                             path ∈ test_paths base1 base2).
  { intros path. by rewrite (test_paths_perm base1 base2). }
  setoid_rewrite Hin. split.
  - intros [(path & ? & ? & ?)|(? & ? & ?)]; [left; by exists path|by right].
  - intros [(path & ? & ? & ?)|(? & ? & ?)]; [left; by exists path|by right].
Qed.

Lemma check_regex_pattern_overlap_sym re_search pattern1 pattern2 :
  _check_regex_pattern_overlap re_search pattern1 pattern2 =
  _check_regex_pattern_overlap re_search pattern2 pattern1.
Proof.
  unfold _check_regex_pattern_overlap.
  rewrite (andb_comm (_is_exact_regex (FilePattern.pattern pattern2))).
  rewrite (string_eqb_sym (normalize_exact (FilePattern.pattern pattern2))).
  destruct (_is_exact_regex _ && _is_exact_regex _); [done|].
  rewrite (generate_and_test_paths_sym re_search pattern2 pattern1).
  destruct (path_parts (_extract_base_path (FilePattern.pattern pattern1))) as [|a l1];
    destruct (path_parts (_extract_base_path (FilePattern.pattern pattern2))) as [|b l2];
    try done.
  rewrite (Nat.min_comm (length (b :: l2))).
  set (n := Nat.min (length (a :: l1)) (length (b :: l2))).
  by rewrite (bool_decide_ext (take n (b :: l2) = take n (a :: l1))
               (take n (a :: l1) = take n (b :: l2))) by (split; congruence).
Qed.

Lemma patterns_conflict_sym re_search pattern1 pattern2 :
  _patterns_conflict re_search pattern1 pattern2 =
  _patterns_conflict re_search pattern2 pattern1.
Proof.
  unfold _patterns_conflict.
  rewrite (string_eqb_sym (FilePattern.pattern pattern2)).
  rewrite (string_eqb_sym (normalize_exact (FilePattern.pattern pattern2))).
  rewrite (check_regex_pattern_overlap_sym re_search pattern2 pattern1).
  unfold regex_or_glob.
  destruct (String.eqb_spec (actual_type pattern1) "exact") as [->|H1];
    destruct (String.eqb_spec (actual_type pattern2) "exact") as [->|H2]; simpl; try done.
  - by destruct (String.eqb (actual_type pattern2) "regex" || String.eqb (actual_type pattern2) "glob").
  - destruct (String.eqb (actual_type pattern1) "regex" || String.eqb (actual_type pattern1) "glob");
      simpl; done.
  - destruct (String.eqb (actual_type pattern1) "regex" || String.eqb (actual_type pattern1) "glob");
      destruct (String.eqb (actual_type pattern2) "regex" || String.eqb (actual_type pattern2) "glob");
      simpl; try done.
    by rewrite (andb_comm (_is_exact_regex (FilePattern.pattern pattern2))).
Qed.

Lemma existsb_iff {A : Type} (f : A -> bool) (l : list A) :
  existsb f l = true <-> exists x, x ∈ l /\ f x = true.
Proof. rewrite existsb_exists. by setoid_rewrite list_elem_of_In. Qed.

Lemma check_file_conflict_sym re_search task1 task2 :
  _check_file_conflict re_search task1 task2 =
  _check_file_conflict re_search task2 task1.
Proof.
  unfold _check_file_conflict.
  rewrite (string_eqb_sym (Task.task_id task2)).
  destruct (String.eqb _ _); [done|].
  rewrite (orb_comm (list_mem (Task.task_id task1) _)).
  destruct (_ || _); [done|].
  apply bool_eq_iff. rewrite !existsb_iff. split.
  - intros (p1 & H1 & (p2 & H2 & Hc)%existsb_iff). exists p2. split; [done|].
    apply existsb_iff. exists p1. split; [done|]. by rewrite patterns_conflict_sym.
  - intros (p1 & H1 & (p2 & H2 & Hc)%existsb_iff). exists p2. split; [done|].
    apply existsb_iff. exists p1. split; [done|]. by rewrite patterns_conflict_sym.
Qed.

(** ** Each wave is one greedy packing of the ready tasks *)

Lemma pack_wave_added re_search self available_tasks :
  forall wave_tasks used_task_ids completed_tasks wave_tasks' completed',
  pack_wave re_search self available_tasks wave_tasks used_task_ids completed_tasks
    = Ok (wave_tasks', completed') ->
  exists added,
    added `sublist_of` available_tasks /\
    wave_tasks' = (wave_tasks ++ map wave_task_of added)%list /\
    completed' = list_to_set (map Task.task_id added) ∪ completed_tasks.
Proof.
  induction available_tasks as [|task rest IH];
    intros wave_tasks used completed w' c'; cbn [pack_wave].
  - intros [= <- <-]. exists []. split_and!; [done|by rewrite app_nil_r|set_solver].
  - case_bool_decide as Hused.
    { intros (added & ? & ? & ?)%IH. exists added. split; [by apply sublist_cons|done]. }
    destruct (can_add re_search self task wave_tasks) as [[|]| |]; simpl; try done.
    + intros (added & Hsub & -> & ->)%IH. exists (task :: added).
      split_and!; [by apply sublist_skip|by rewrite <- app_assoc|].
      simpl. set_solver.
    + intros (added & ? & ? & ?)%IH. exists added. split; [by apply sublist_cons|done].
Qed.

Lemma plan_loop_built re_search self sorted_tasks fuel :
  forall waves completed_tasks waves',
  completed_tasks = list_to_set (plan_ids waves) ->
  (forall i w, waves !! i = Some w ->
     wave_built re_search self sorted_tasks (take i waves) w) ->
  plan_loop re_search fuel self sorted_tasks waves completed_tasks = Ok waves' ->
  forall i w, waves' !! i = Some w ->
    wave_built re_search self sorted_tasks (take i waves') w.
Proof.
  induction fuel as [|fuel IH]; intros waves completed waves' Hc Hw; cbn [plan_loop].
  - case_bool_decide; [|done]. by intros [= <-].
  - case_bool_decide; [by intros [= <-]|].
    destruct (ready_tasks self sorted_tasks completed) as [av| |] eqn:Hready;
      simpl; try done.
    destruct av as [|a av]; [done|].
    destruct (pack_wave re_search self (sort_by_conflicts (a :: av)) [] ∅ completed)
      as [[wave_tasks completed']| |] eqn:Hpack; simpl; try done.
    destruct (pack_wave_added _ _ _ _ _ _ _ _ Hpack) as (added & _ & Hwt & Hc').
    simpl in Hwt.
    apply IH.
    + destruct wave_tasks as [|wt wts].
      * destruct added; [|done]. rewrite Hc'. simpl. set_solver.
      * rewrite plan_ids_app, plan_ids_singleton, list_to_set_app_L, Hc', <- Hc.
        unfold wave_ids. cbn [make_wave Wave.tasks]. rewrite Hwt, map_map.
        set_solver.
    + destruct wave_tasks as [|wt wts]; [done|].
      intros i w Hi.
      destruct (decide (i < length waves)) as [Hlt|Hge].
      * rewrite lookup_app_l in Hi by done.
        rewrite take_app_le by lia. by apply Hw.
      * rewrite lookup_app_r in Hi by lia.
        apply list_lookup_singleton_Some in Hi as [Hi <-].
        rewrite take_app_ge by lia.
        replace (i - length waves) with 0 by lia. rewrite take_0, app_nil_r.
        exists (a :: av), completed'. rewrite <- Hc. by split_and!.
Qed.

Lemma generate_execution_plan_built re_search order self plan :
  generate_execution_plan re_search order self = Ok plan ->
  exists sorted_tasks,
    _topological_sort_with_priority order self = Ok sorted_tasks /\
    forall i w, ExecutionPlan.waves plan !! i = Some w ->
      wave_built re_search self sorted_tasks (take i (ExecutionPlan.waves plan)) w.
Proof.
  unfold generate_execution_plan.
  destruct (_topological_sort_with_priority order self) as [sorted| |]; simpl; try done.
  destruct (plan_loop re_search (length (tasks self)) self sorted [] ∅)
    as [waves| |] eqn:Hloop; simpl; try done.
  intros [= <-]. exists sorted. split; [done|]. simpl.
  apply (plan_loop_built re_search self sorted (length (tasks self)) [] ∅ waves); [done| |done].
  intros i w Hi. by rewrite lookup_nil in Hi.
Qed.

(** ** Greedy packing leaves out only conflicting tasks *)

Lemma can_add_false re_search self task wave_tasks :
  can_add re_search self task wave_tasks = Ok false ->
  exists wt st, wt ∈ wave_tasks /\
    Dict.get (tasks self) (WaveTask.task_id wt) = Some st /\
    _check_file_conflict re_search task st = true.
Proof.
  induction wave_tasks as [|wt0 rest IH]; cbn [can_add]; [done|].
  unfold Dict.item.
  destruct (Dict.get (tasks self) (WaveTask.task_id wt0)) as [st0|] eqn:Hst0; [|done].
  simpl. destruct (_check_file_conflict re_search task st0) eqn:Hc.
  - intros _. exists wt0, st0. split; [left|done].
  - intros (wt & st & ? & ?)%IH. exists wt, st. split; [by right|done].
Qed.

Lemma pack_wave_rejected re_search self available_tasks :
  forall wave_tasks used_task_ids completed_tasks wave_tasks' completed',
  used_task_ids = list_to_set (map WaveTask.task_id wave_tasks) ->
  pack_wave re_search self available_tasks wave_tasks used_task_ids completed_tasks
    = Ok (wave_tasks', completed') ->
  forall task, task ∈ available_tasks ->
    Task.task_id task ∈ map WaveTask.task_id wave_tasks' \/
    exists wt st, wt ∈ wave_tasks' /\
      Dict.get (tasks self) (WaveTask.task_id wt) = Some st /\
      _check_file_conflict re_search task st = true.
Proof.
  induction available_tasks as [|task0 rest IH];
    intros wave_tasks used completed w' c' Hused Hpack task Htask.
  { by apply elem_of_nil in Htask. }
  assert (Hgrow : forall wt, wt ∈ wave_tasks -> wt ∈ w').
  { intros wt Hwt.
    destruct (pack_wave_added _ _ _ _ _ _ _ _ Hpack) as (added & _ & -> & _).
    rewrite elem_of_app. by left. }
  cbn [pack_wave] in Hpack.
  case_bool_decide as Hin.
  - apply elem_of_cons in Htask as [->|Htask]; [|by eapply IH].
    left. rewrite Hused in Hin. apply elem_of_list_to_set in Hin.
    apply list_elem_of_fmap in Hin as (wt & -> & Hwt).
    apply list_elem_of_fmap. exists wt. split; [done|by apply Hgrow].
  - destruct (can_add re_search self task0 wave_tasks) as [[|]| |] eqn:Hadd;
      simpl in Hpack; try done.
    + apply elem_of_cons in Htask as [->|Htask].
      * left. destruct (pack_wave_added _ _ _ _ _ _ _ _ Hpack) as (added & _ & -> & _).
        rewrite !map_app. simpl. set_solver.
      * eapply IH; [|exact Hpack|done].
        rewrite map_app, list_to_set_app_L, Hused. simpl. set_solver.
    + apply elem_of_cons in Htask as [->|Htask]; [|by eapply IH].
      right. destruct (can_add_false _ _ _ _ Hadd) as (wt & st & Hwt & Hst & Hc).
      exists wt, st. split; [by apply Hgrow|done].
Qed.

(** A task that is ready when a wave is built and is not put in it
    conflicts with a task of the wave. *)
Lemma wave_built_maximal re_search self sorted_tasks earlier w k task :
  wave_built re_search self sorted_tasks earlier w ->
  k ∈ sorted_tasks -> Dict.get (tasks self) k = Some task ->
  Task.task_id task = k ->
  k ∉ plan_ids earlier ->
  (forall d, d ∈ Task.depends_on task -> d ∈ plan_ids earlier) ->
  k ∈ wave_ids w \/
  exists wt st, wt ∈ Wave.tasks w /\
    Dict.get (tasks self) (WaveTask.task_id wt) = Some st /\
    _check_file_conflict re_search task st = true.
Proof.
  intros (av & c' & Hready & Hpack & _ & _) Hk Hg Hid Hnew Hdeps.
  assert (Hav : task ∈ av).
  { apply (ready_tasks_complete self sorted_tasks _ av k task Hready Hk Hg).
    - by rewrite elem_of_list_to_set.
    - intros d Hd. rewrite elem_of_list_to_set. by apply Hdeps. }
  rewrite <- (sort_by_conflicts_perm av) in Hav.
  destruct (pack_wave_rejected _ _ _ _ _ _ _ _ eq_refl Hpack task Hav) as [Hin|Hrej].
  - left. by rewrite <- Hid.
  - by right.
Qed.

(** ** Wave numbers and positions *)

Lemma in_wave_index re_search self plan completed_tasks t n :
  plan_inv re_search self (ExecutionPlan.waves plan) completed_tasks ->
  in_wave plan t n <->
  exists i w, ExecutionPlan.waves plan !! i = Some w /\ n = i + 1 /\ t ∈ wave_ids w.
Proof.
  intros Hinv. split.
  - intros (w & [i Hi]%list_elem_of_lookup & <- & Ht). exists i, w.
    split_and!; [done| |done]. by eapply plan_inv_wave_number.
  - intros (i & w & Hi & -> & Ht). exists w. split_and!; [|by eapply plan_inv_wave_number|done].
    apply list_elem_of_lookup; eauto.
Qed.

Lemma elem_of_plan_ids_take t waves n :
  t ∈ plan_ids (take n waves) <->
  exists i w, waves !! i = Some w /\ i < n /\ t ∈ wave_ids w.
Proof.
  rewrite elem_of_plan_ids. split.
  - intros (i & w & [Hi Hlt]%lookup_take_Some & Ht). by exists i, w.
  - intros (i & w & Hi & Hlt & Ht). exists i, w. split; [|done].
    by apply lookup_take_Some.
Qed.

(** What a plan that was produced satisfies. *)
Lemma generate_execution_plan_facts re_search order self plan :
  planner_wf self ->
  generate_execution_plan re_search order self = Ok plan ->
  plan_inv re_search self (ExecutionPlan.waves plan)
    (list_to_set (Dict.keys (tasks self))) /\
  exists sorted_tasks,
    sorted_tasks ≡ₚ Dict.keys (tasks self) /\
    forall i w, ExecutionPlan.waves plan !! i = Some w ->
      wave_built re_search self sorted_tasks (take i (ExecutionPlan.waves plan)) w.
Proof.
  intros Hwf Hplan. split; [by eapply generate_execution_plan_inv|].
  destruct (generate_execution_plan_built _ _ _ _ Hplan) as (sorted & Hsort & Hbuilt).
  exists sorted. split; [by eapply topo_sort_ok_perm|done].
Qed.

Lemma plan_maximal re_search order self plan i w k task :
  planner_wf self ->
  generate_execution_plan re_search order self = Ok plan ->
  ExecutionPlan.waves plan !! i = Some w ->
  Dict.get (tasks self) k = Some task ->
  (forall d, d ∈ Task.depends_on task ->
     d ∈ plan_ids (take i (ExecutionPlan.waves plan))) ->
  k ∉ plan_ids (take (S i) (ExecutionPlan.waves plan)) ->
  exists wt st, wt ∈ Wave.tasks w /\
    Dict.get (tasks self) (WaveTask.task_id wt) = Some st /\
    _check_file_conflict re_search task st = true.
Proof.
  intros Hwf Hplan Hi Hg Hdeps Hk.
  destruct (generate_execution_plan_facts _ _ _ _ Hwf Hplan)
    as (Hinv & sorted & Hperm & Hbuilt).
  destruct (wave_built_maximal re_search self sorted _ w k task (Hbuilt i w Hi))
    as [Hin|Hrej]; try done.
  - rewrite Hperm. by eapply dict_get_Some_keys.
  - by eapply (wf_task_id _ Hwf).
  - intros Hin. apply Hk. apply elem_of_plan_ids_take.
    apply elem_of_plan_ids_take in Hin as (j & w' & ? & ? & ?).
    exists j, w'. split_and!; [done|lia|done].
  - exfalso. apply Hk. apply elem_of_plan_ids_take. exists i, w. split_and!; [done|lia|done].
Qed.

Lemma plan_no_idle_wait re_search order self plan k task n :
  planner_wf self ->
  generate_execution_plan re_search order self = Ok plan ->
  in_wave plan k (S (S n)) ->
  Dict.get (tasks self) k = Some task ->
  (exists d, d ∈ Task.depends_on task /\ in_wave plan d (S n)) \/
  (exists s st, in_wave plan s (S n) /\ Dict.get (tasks self) s = Some st /\
     _check_file_conflict re_search task st = true).
Proof.
  intros Hwf Hplan Hk Hg.
  destruct (generate_execution_plan_inv _ _ _ _ Hwf Hplan) as [Hinv _].
  set (waves := ExecutionPlan.waves plan) in *.
  apply (in_wave_index _ _ _ _ _ _ Hinv) in Hk as (i & w & Hi & Hn & Hkw).
  assert (i = S n) as -> by lia. clear Hn. fold waves in Hi.
  destruct (waves !! n) as [w0|] eqn:Hn.
  2:{ apply lookup_ge_None in Hn. apply lookup_lt_Some in Hi. lia. }
  assert (Hdeps : forall d, d ∈ Task.depends_on task -> d ∈ plan_ids (take (S n) waves)).
  { unfold wave_ids in Hkw. apply list_elem_of_fmap in Hkw as (wt & -> & [j Hj]%list_elem_of_lookup).
    destruct (wo_tasks _ _ _ _ (pi_waves _ _ _ _ Hinv (S n) w Hi) j wt Hj)
      as (task' & Hg' & _ & Hd & _).
    by assert (task' = task) as -> by congruence. }
  assert (Hnew : k ∉ plan_ids (take (S n) waves)).
  { intros (j & w' & Hj & Hlt & Hkw')%elem_of_plan_ids_take.
    pose proof (flat_map_nodup_unique wave_ids waves j (S n) w' w k
                  (pi_nodup _ _ _ _ Hinv) Hj Hi Hkw' Hkw). lia. }
  destruct (decide (Forall (fun d => d ∈ plan_ids (take n waves)) (Task.depends_on task)))
    as [Hall|Hsome].
  - right. rewrite Forall_forall in Hall.
    destruct (plan_maximal re_search order self plan n w0 k task Hwf Hplan Hn Hg Hall Hnew)
      as (wt & st & Hwt & Hst & Hc).
    exists (WaveTask.task_id wt), st. split_and!; [|done|done].
    apply (in_wave_index _ _ _ _ _ _ Hinv). exists n, w0. split_and!; [done|lia|].
    unfold wave_ids. apply list_elem_of_fmap. by exists wt.
  - left. apply not_Forall_Exists in Hsome; [|intros d; apply _].
    apply Exists_exists in Hsome as (d & Hd & Hnd). exists d. split; [done|].
    apply Hdeps, elem_of_plan_ids_take in Hd as (j & w' & Hj & Hlt & Hdw).
    apply (in_wave_index _ _ _ _ _ _ Hinv). exists j, w'. split_and!; [done| |done].
    destruct (decide (j = n)) as [->|Hne]; [lia|]. exfalso. apply Hnd.
    apply elem_of_plan_ids_take. exists j, w'. split_and!; [done|lia|done].
Qed.

Lemma plan_wave_conflict_free re_search order self plan w s1 s2 t1 t2 :
  planner_wf self ->
  generate_execution_plan re_search order self = Ok plan ->
  w ∈ ExecutionPlan.waves plan ->
  s1 ∈ wave_ids w -> s2 ∈ wave_ids w ->
  Dict.get (tasks self) s1 = Some t1 -> Dict.get (tasks self) s2 = Some t2 ->
  _check_file_conflict re_search t1 t2 = false.
Proof.
  intros Hwf Hplan Hw H1 H2 Hg1 Hg2.
  destruct (generate_execution_plan_inv _ _ _ _ Hwf Hplan) as [Hinv _].
  unfold wave_ids in H1, H2.
  apply list_elem_of_fmap in H1 as (w1 & -> & [i Hi]%list_elem_of_lookup).
  apply list_elem_of_fmap in H2 as (w2 & -> & [j Hj]%list_elem_of_lookup).
  destruct (lt_eq_lt_dec i j) as [[Hlt| ->]|Hgt].
  - rewrite check_file_conflict_sym.
    exact (plan_inv_conflict_free _ _ _ _ w i j w1 w2 t1 t2 Hinv Hw Hi Hj Hlt Hg1 Hg2).
  - assert (w1 = w2) as -> by congruence. assert (t1 = t2) as -> by congruence.
    unfold _check_file_conflict. by rewrite String.eqb_refl.
  - exact (plan_inv_conflict_free _ _ _ _ w j i w2 w1 t2 t1 Hinv Hw Hj Hi Hgt Hg2 Hg1).
Qed.

(** ** The ready queue is complete and the choice greedy *)

Lemma sort_keyed_head_least {A : Type} (l : list (sort_key * A)) x rest y :
  sort_keyed l = x :: rest -> y ∈ l -> key_lt y.1 x.1 = false.
Proof.
  intros Hs Hy. rewrite <- (sort_keyed_perm l), Hs in Hy.
  pose proof (sort_keyed_sorted l) as Hsorted. rewrite Hs in Hsorted.
  apply elem_of_cons in Hy as [->|Hy]; [apply key_lt_irrefl|].
  apply StronglySorted_inv in Hsorted as [_ Hall].
  rewrite Forall_forall in Hall. by apply Hall.
Qed.

Lemma sort_by_priority_head_least self available_tasks current_task rest t :
  planner_wf self ->
  (forall t, t ∈ available_tasks -> t ∈ Dict.keys (tasks self)) ->
  sort_by_priority self available_tasks = Ok (current_task :: rest) ->
  t ∈ available_tasks -> priority_le self current_task t.
Proof.
  intros Hwf Hk. rewrite sort_by_priority_ok by done. intros [= Hs] Ht.
  destruct (sort_keyed (map (fun tid => (priority self tid, tid)) available_tasks))
    as [|[k c] rest'] eqn:Hsorted; [done|].
  simpl in Hs. injection Hs as -> _.
  assert (Hin : (k, current_task) ∈ map (fun tid => (priority self tid, tid)) available_tasks).
  { rewrite <- (sort_keyed_perm _), Hsorted. left. }
  apply list_elem_of_fmap in Hin as (c' & [= -> <-] & _).
  unfold priority_le.
  apply (sort_keyed_head_least _ _ _ (priority self t, t) Hsorted).
  apply list_elem_of_fmap. by exists t.
Qed.

Lemma topo_greedy_initial self :
  planner_wf self ->
  topo_greedy self
    (List.filter (fun task_id => (degree_get (initial_in_degree self) task_id =? 0)%Z)
       (Dict.keys (tasks self))) [].
Proof.
  intros Hwf. split.
  - intros t Ht Hsub. simpl. apply elem_of_list_filter. split; [done|].
    rewrite initial_in_degree_get, decide_True by done.
    assert (graph_get (dependency_graph self) t = ∅) as -> by set_solver.
    by rewrite size_empty.
  - intros i t t' Hi. by rewrite lookup_nil in Hi.
Qed.

Lemma topo_greedy_step (order : set_order) self in_degree available_tasks result
    current_task rest in_degree' available_tasks' :
  planner_wf self ->
  topo_inv self in_degree available_tasks result ->
  topo_greedy self available_tasks result ->
  sort_by_priority self available_tasks = Ok (current_task :: rest) ->
  release
    (iter_set order current_task
       (graph_get (reverse_dependency_graph self) current_task))
    in_degree rest = (in_degree', available_tasks') ->
  topo_greedy self available_tasks' (result ++ [current_task]).
Proof.
  intros Hwf Hinv [Hcomplete Hleast] Hsort Hrel.
  assert (Hk : forall t, t ∈ available_tasks -> t ∈ Dict.keys (tasks self)).
  { intros t Ht. apply (ti_ready _ _ _ _ Hinv). rewrite elem_of_app. by right. }
  pose proof (sort_by_priority_Permutation _ _ _ Hwf Hk Hsort) as Hperm.
  apply release_spec in Hrel as [_ ->]; [|apply iter_set_nodup].
  pose proof (ti_nodup _ _ _ _ Hinv) as Hnd. rewrite <- Hperm in Hnd.
  apply NoDup_app in Hnd as (_ & Hdisj & _).
  assert (Hcur : current_task ∉ result).
  { intros Hin. apply (Hdisj _ Hin). left. }
  split.
  - intros t Ht Hsub.
    destruct (decide (graph_get (dependency_graph self) t ⊆ list_to_set result)) as [Hold|Hnew].
    + specialize (Hcomplete t Ht Hold). rewrite <- Hperm in Hcomplete.
      rewrite !elem_of_app, elem_of_cons in Hcomplete.
      rewrite !elem_of_app, list_elem_of_singleton. tauto.
    + rewrite !elem_of_app. right. right.
      assert (Hdiff : graph_get (dependency_graph self) t ∖ list_to_set result
                      = {[current_task]}).
      { rewrite list_to_set_app_L in Hsub. simpl in Hsub.
        apply set_eq. intros x. rewrite elem_of_difference, elem_of_singleton.
        split; [set_solver|]. intros ->. split; [|by rewrite elem_of_list_to_set].
        destruct (decide (current_task ∈ graph_get (dependency_graph self) t)); [done|].
        exfalso. apply Hnew. set_solver. }
      apply elem_of_list_filter. split.
      * rewrite iter_set_elem. apply (wf_transpose _ Hwf).
        assert (current_task ∈ graph_get (dependency_graph self) t ∖ list_to_set result)
          by (rewrite Hdiff; set_solver).
        set_solver.
      * rewrite (ti_degree _ _ _ _ Hinv t Ht), Hdiff, size_singleton. done.
  - intros i t t' Hi Ht' Hnot Hsub.
    destruct (decide (i < length result)) as [Hlt|Hge].
    + rewrite lookup_app_l in Hi by done.
      rewrite take_app_le in Hnot, Hsub by lia. by eapply Hleast.
    + rewrite lookup_app_r in Hi by lia.
      apply list_lookup_singleton_Some in Hi as [Hi <-].
      rewrite take_app_ge in Hnot, Hsub by lia.
      replace (i - length result) with 0 in Hnot, Hsub by lia.
      rewrite take_0, app_nil_r in Hnot, Hsub.
      apply (sort_by_priority_head_least self available_tasks current_task rest t' Hwf Hk Hsort).
      specialize (Hcomplete t' Ht' Hsub). rewrite elem_of_app in Hcomplete.
      by destruct Hcomplete.
Qed.

Lemma topo_loop_greedy (order : set_order) self fuel :
  planner_wf self ->
  forall in_degree available_tasks result result',
  topo_inv self in_degree available_tasks result ->
  topo_greedy self available_tasks result ->
  topo_loop order fuel self in_degree available_tasks result = Ok result' ->
  topo_greedy self [] result'.
Proof.
  intros Hwf. induction fuel as [|fuel IH]; intros deg av res res' Hinv Hgr.
  - destruct av as [|a av]; [|done]. by intros [= <-].
  - destruct av as [|a av]; [by intros [= <-]|].
    cbn [topo_loop].
    assert (Hk : forall t, t ∈ a :: av -> t ∈ Dict.keys (tasks self)).
    { intros t Ht. apply (ti_ready _ _ _ _ Hinv). rewrite elem_of_app. by right. }
    destruct (sort_by_priority self (a :: av)) as [sorted| |] eqn:Hsort; try done.
    pose proof (sort_by_priority_Permutation _ _ _ Hwf Hk Hsort) as Hperm.
    simpl. destruct sorted as [|cur rest].
    { by apply Permutation_nil_cons in Hperm. }
    destruct (release _ deg rest) as [deg' av'] eqn:Hrel.
    apply IH.
    + by eapply topo_step.
    + by eapply topo_greedy_step.
Qed.

Lemma topo_sort_outcome_greedy (order : set_order) self :
  planner_wf self ->
  exists result in_degree,
    topo_inv self in_degree [] result /\ topo_greedy self [] result /\
    _topological_sort_with_priority order self =
    if (length result =? length (tasks self))%nat then Ok result
    else Raise (ValueError "Circular dependency detected!").
Proof.
  intros Hwf. destruct (topo_loop_spec order self Hwf) as (result & deg & Hloop & Hinv).
  exists result, deg. split; [done|]. split.
  - eapply (topo_loop_greedy order self _ Hwf); [|by apply topo_greedy_initial|exact Hloop].
    by apply topo_inv_initial.
  - unfold _topological_sort_with_priority. rewrite Hloop. simpl.
    by destruct (length result =? length (tasks self))%nat.
Qed.

(** ** A finite relation without sinks has a cycle *)

Lemma chain_tc {A : Type} (R : A -> A -> Prop) (x : A) (l : list A) z :
  chain R x l -> z ∈ l -> tc R x z.
Proof.
  revert x. induction l as [|y l IH]; intros x; simpl; [by intros _ ?%elem_of_nil|].
  intros [Hxy Hl] [->|Hz]%elem_of_cons; [by apply tc_once|].
  eapply tc_l; [exact Hxy|by apply IH].
Qed.

Lemma chain_nodup_or_cycle (R : string -> string -> Prop) (x : string) l :
  chain R x l -> NoDup (x :: l) \/ exists y, tc R y y.
Proof.
  revert x. induction l as [|y l IH]; intros x; simpl.
  - intros _. left. apply NoDup_singleton.
  - intros [Hxy Hl]. destruct (IH y Hl) as [Hnd|Hcyc]; [|by right].
    destruct (decide (x ∈ y :: l)) as [Hin|Hnin].
    + right. exists x. apply (chain_tc R x (y :: l)); [by split|done].
    + left. by apply NoDup_cons.
Qed.

Lemma chain_exists (R : string -> string -> Prop) (X : gset string) n :
  (forall x, x ∈ X -> exists y, y ∈ X /\ R x y) ->
  forall x, x ∈ X ->
  exists l, length l = n /\ (forall y, y ∈ l -> y ∈ X) /\ chain R x l.
Proof.
  intros Hnext. induction n as [|n IH]; intros x Hx.
  - exists []. split_and!; [done|by intros ? ?%elem_of_nil|done].
  - destruct (Hnext x Hx) as (y & Hy & Hxy).
    destruct (IH y Hy) as (l & Hlen & HX & Hl).
    exists (y :: l). split_and!; [by rewrite length_cons, Hlen| |by split].
    intros z [->|Hz]%elem_of_cons; auto.
Qed.

Lemma finite_no_sink_cycle (R : string -> string -> Prop) (X : gset string) x0 :
  x0 ∈ X -> (forall x, x ∈ X -> exists y, y ∈ X /\ R x y) ->
  exists y, tc R y y.
Proof.
  intros Hx0 Hnext.
  destruct (chain_exists R X (size X) Hnext x0 Hx0) as (l & Hlen & HX & Hl).
  destruct (chain_nodup_or_cycle R x0 l Hl) as [Hnd|Hcyc]; [|done].
  exfalso.
  pose proof (NoDup_subset_length (x0 :: l) (elements X) Hnd) as Hle.
  rewrite length_cons, Hlen in Hle. unfold size, set_size in Hle. simpl in Hle.
  assert (S (length (elements X)) <= length (elements X)); [|lia].
  apply Hle. intros y [->|Hy]%elem_of_cons; apply elem_of_elements; auto.
Qed.

(** ** When the sort fails *)

Lemma topo_short_not_sound (order : set_order) self :
  planner_wf self ->
  _topological_sort_with_priority order self =
    Raise (ValueError "Circular dependency detected!") ->
  (exists a b, depends self a b /\ b ∉ Dict.keys (tasks self)) \/
  (exists a, tc (depends self) a a).
Proof.
  intros Hwf Hraise.
  destruct (topo_sort_outcome_greedy order self Hwf) as (result & deg & Hinv & Hgr & Hsort).
  rewrite Hsort in Hraise.
  destruct (length result =? length (tasks self))%nat eqn:Hlen; [done|].
  apply Nat.eqb_neq in Hlen. clear Hraise Hsort.
  pose proof (ti_nodup _ _ _ _ Hinv) as Hnd. rewrite app_nil_r in Hnd.
  assert (Hres : forall t, t ∈ result -> t ∈ Dict.keys (tasks self)).
  { intros t Ht. apply (ti_ready _ _ _ _ Hinv). by rewrite app_nil_r. }
  set (X := list_to_set (Dict.keys (tasks self)) ∖ list_to_set result : gset string).
  assert (HX : forall x, x ∈ X <-> x ∈ Dict.keys (tasks self) /\ x ∉ result).
  { intros x. unfold X. rewrite elem_of_difference, !elem_of_list_to_set. done. }
  assert (Hstuck : forall x, x ∈ X -> exists d, depends self x d /\ d ∉ result).
  { intros x [Hk Hnr]%HX.
    destruct (decide (graph_get (dependency_graph self) x ∖ list_to_set result = ∅))
      as [Hemp|Hne].
    - exfalso. apply Hnr.
      pose proof (tg_complete _ _ _ Hgr x Hk) as Hc. rewrite app_nil_r in Hc.
      apply Hc. intros d Hd.
      destruct (decide (d ∈ (list_to_set result : gset string))); [done|].
      assert (d ∈ graph_get (dependency_graph self) x ∖ list_to_set result) by set_solver.
      set_solver.
    - apply set_choose_L in Hne as [d Hd]. exists d.
      apply elem_of_difference in Hd as [Hd Hdr]. split; [done|].
      by rewrite elem_of_list_to_set in Hdr. }
  destruct (decide (X = ∅)) as [Hemp|Hne].
  { exfalso. apply Hlen. apply Nat.le_antisymm.
    - rewrite <- dict_keys_length. by apply NoDup_subset_length.
    - rewrite <- dict_keys_length. apply NoDup_subset_length; [apply (wf_keys_nodup _ Hwf)|].
      intros x Hx. destruct (decide (x ∈ result)); [done|].
      assert (x ∈ X) by (by apply HX). set_solver. }
  apply set_choose_L in Hne as [x0 Hx0].
  destruct (decide (Forall (fun x =>
              Forall (fun d => d ∈ Dict.keys (tasks self))
                (elements (graph_get (dependency_graph self) x))) (elements X)))
    as [Hclosed|Hopen].
  - right. apply (finite_no_sink_cycle (depends self) X x0 Hx0).
    intros x Hx. destruct (Hstuck x Hx) as (d & Hd & Hdr). exists d. split; [|done].
    apply HX. split; [|done].
    rewrite Forall_forall in Hclosed.
    specialize (Hclosed x (proj2 (elem_of_elements _ _) Hx)).
    rewrite Forall_forall in Hclosed. apply Hclosed. by apply elem_of_elements.
  - left. apply not_Forall_Exists in Hopen; [|intros x; apply _].
    apply Exists_exists in Hopen as (a & _ & Hna).
    apply not_Forall_Exists in Hna; [|intros d; apply _].
    apply Exists_exists in Hna as (b & Hb & Hnb). exists a, b.
    split; [by apply elem_of_elements in Hb|done].
Qed.

Lemma get_task_priority_eq self k task :
  planner_wf self -> Dict.get (tasks self) k = Some task ->
  _get_task_priority self task = priority self k.
Proof.
  intros Hwf Hg. unfold _get_task_priority, priority.
  by rewrite (wf_task_id _ Hwf _ _ Hg).
Qed.

Lemma topo_sort_greedy (order : set_order) self sorted_tasks :
  planner_wf self ->
  _topological_sort_with_priority order self = Ok sorted_tasks ->
  sorted_tasks ≡ₚ Dict.keys (tasks self) /\
  (forall i t d, sorted_tasks !! i = Some t -> depends self t d ->
     exists j, j < i /\ sorted_tasks !! j = Some d) /\
  (forall i t t', sorted_tasks !! i = Some t ->
     t' ∈ Dict.keys (tasks self) -> t' ∉ take i sorted_tasks ->
     (forall d, depends self t' d -> d ∈ take i sorted_tasks) ->
     priority_le self t t').
Proof.
  intros Hwf Hsort.
  destruct (topo_sort_outcome_greedy order self Hwf) as (result & deg & Hinv & Hgr & Heq).
  rewrite Heq in Hsort.
  destruct (length result =? length (tasks self))%nat eqn:Hlen; [|done].
  injection Hsort as <-. apply Nat.eqb_eq in Hlen. split_and!.
  - by eapply topo_result_perm.
  - intros i t d Hi Hd. apply (topo_order_tc _ _ _ _ _ Hinv (tc_once _ _ _ Hd) i Hi).
  - intros i t t' Hi Ht' Hnot Hdeps. apply (tg_least _ _ _ Hgr i t t' Hi Ht' Hnot).
    intros d Hd. apply elem_of_list_to_set. by apply Hdeps.
Qed.

Lemma generate_execution_plan_sound_iff re_search order dependencies
    file_patterns_data self :
  load_data dependencies file_patterns_data = Ok self ->
  (exists plan, generate_execution_plan re_search order self = Ok plan) <->
  (forall a b, feed_depends dependencies a b -> feed_task dependencies b) /\
  (forall a, ~ tc (feed_depends dependencies) a a).
Proof.
  intros Hload. pose proof (load_data_wf _ _ _ Hload) as Hwf.
  destruct (load_data_graph _ _ _ Hload) as [Hdep Hkey].
  split.
  - intros [plan Hplan]. split.
    + intros a b Hab. destruct (decide (b ∈ Dict.keys (tasks self))) as [Hb|Hb];
        [by apply Hkey|].
      exfalso. unfold generate_execution_plan in Hplan.
      rewrite (topo_sort_dangling order self a b Hwf) in Hplan; [done|by apply Hdep|done].
    + intros a Hcyc. unfold generate_execution_plan in Hplan.
      rewrite (topo_sort_cycle order self a Hwf) in Hplan; [done|].
      by eapply feed_cycle_in_graph.
  - intros [Hclosed Hacyclic].
    destruct (_topological_sort_with_priority order self) as [sorted| |] eqn:Hsort.
    + destruct (generate_execution_plan_total re_search order self Hwf) as [Hplan|Hraise];
        [done|].
      exfalso. unfold generate_execution_plan in Hraise. rewrite Hsort in Hraise.
      simpl in Hraise.
      pose proof (topo_sort_ok_perm _ _ _ Hwf Hsort) as Hperm.
      assert (Hk : forall t, t ∈ sorted -> t ∈ Dict.keys (tasks self))
        by (intros t Ht; by rewrite <- Hperm).
      destruct (plan_loop_spec re_search self sorted (length (tasks self)) Hwf Hk [] ∅
                  (plan_inv_initial _ _)) as [(waves & Hw & _)|[Hw _]]; [lia| |];
        rewrite Hw in Hraise; done.
    + exfalso.
      assert (Hraise : _topological_sort_with_priority order self =
                       Raise (ValueError "Circular dependency detected!")).
      { destruct (topo_sort_outcome order self Hwf) as (result & deg & _ & Heq).
        rewrite Heq in Hsort |- *.
        by destruct (length result =? length (tasks self))%nat. }
      destruct (topo_short_not_sound order self Hwf Hraise) as [(a & b & Hab & Hb)|[a Hcyc]].
      * apply Hb, Hkey, (Hclosed a), Hdep, Hab.
      * apply (Hacyclic a). eapply (tc_congruence id); [|exact Hcyc].
        intros x y Hxy. by apply Hdep.
    + exfalso.
      destruct (topo_sort_outcome order self Hwf) as (result & deg & _ & Heq).
      rewrite Heq in Hsort. by destruct (length result =? length (tasks self))%nat.
Qed.

(** ** The packing order does not depend on the topological order *)

Lemma ready_tasks_flat self sorted_tasks completed_tasks :
  (forall t, t ∈ sorted_tasks -> t ∈ Dict.keys (tasks self)) ->
  ready_tasks self sorted_tasks completed_tasks =
  Ok (flat_map (ready_one self completed_tasks) sorted_tasks).
Proof.
  induction sorted_tasks as [|k rest IH]; intros Hk; cbn [ready_tasks flat_map]; [done|].
  rewrite IH by (intros; apply Hk; by right).
  destruct (dict_keys_get _ _ (Hk k (list_elem_of_here _ _))) as [task Htask].
  assert (Hone : ready_one self completed_tasks k =
            if bool_decide (k ∈ completed_tasks) then []
            else if forallb (fun dep => bool_decide (dep ∈ completed_tasks))
                      (Task.depends_on task)
            then [task] else []).
  { unfold ready_one. by rewrite Htask. }
  rewrite Hone. unfold Dict.item. rewrite Htask.
  destruct (bool_decide (k ∈ completed_tasks)); simpl; [done|].
  by destruct (forallb _ (Task.depends_on task)).
Qed.

Lemma ready_one_task self completed_tasks k task :
  task ∈ ready_one self completed_tasks k -> Dict.get (tasks self) k = Some task.
Proof.
  unfold ready_one. destruct (Dict.get (tasks self) k) as [task'|]; [|by intros ?%elem_of_nil].
  case_bool_decide; [by intros ?%elem_of_nil|].
  destruct (forallb _ _); [|by intros ?%elem_of_nil].
  by intros ->%list_elem_of_singleton.
Qed.

Lemma sort_by_conflicts_perm_eq self available1 available2 :
  planner_wf self ->
  (forall task, task ∈ available1 ->
     exists k, Dict.get (tasks self) k = Some task) ->
  available1 ≡ₚ available2 ->
  sort_by_conflicts available1 = sort_by_conflicts available2.
Proof.
  intros Hwf Hget Hp. unfold sort_by_conflicts. f_equal.
  apply sort_keyed_perm_eq; [by apply Permutation_map|].
  intros [k1 t1] [k2 t2] (x1 & [= -> ->] & H1)%list_elem_of_fmap
    (x2 & [= -> ->] & H2)%list_elem_of_fmap. simpl. intros [= _ Hid].
  destruct (Hget _ H1) as [a1 Ha1]. destruct (Hget _ H2) as [a2 Ha2].
  pose proof (wf_task_id _ Hwf _ _ Ha1). pose proof (wf_task_id _ Hwf _ _ Ha2).
  assert (x1 = x2) as -> by congruence. done.
Qed.

Lemma plan_loop_perm re_search self sorted1 sorted2 fuel :
  planner_wf self ->
  sorted1 ≡ₚ sorted2 ->
  (forall t, t ∈ sorted1 -> t ∈ Dict.keys (tasks self)) ->
  forall waves completed_tasks,
  plan_loop re_search fuel self sorted1 waves completed_tasks =
  plan_loop re_search fuel self sorted2 waves completed_tasks.
Proof.
  intros Hwf Hp Hk1.
  assert (Hk2 : forall t, t ∈ sorted2 -> t ∈ Dict.keys (tasks self))
    by (intros t Ht; apply Hk1; by rewrite Hp).
  induction fuel as [|fuel IH]; intros waves completed; cbn [plan_loop]; [done|].
  case_bool_decide; [done|].
  rewrite !ready_tasks_flat by done. simpl.
  pose proof (Permutation_flat_map (ready_one self completed) Hp) as Hav.
  assert (Hsort : sort_by_conflicts (flat_map (ready_one self completed) sorted1) =
                  sort_by_conflicts (flat_map (ready_one self completed) sorted2)).
  { apply (sort_by_conflicts_perm_eq self); [done| |done].
    intros task (k & _ & Hin%list_elem_of_In)%list_elem_of_In%in_flat_map.
    exists k. by eapply ready_one_task. }
  destruct (flat_map (ready_one self completed) sorted1) as [|a1 av1];
    destruct (flat_map (ready_one self completed) sorted2) as [|a2 av2].
  - done.
  - by apply Permutation_nil_cons in Hav.
  - symmetry in Hav. by apply Permutation_nil_cons in Hav.
  - rewrite Hsort.
    destruct (pack_wave re_search self (sort_by_conflicts (a2 :: av2)) [] ∅ completed)
      as [[wave_tasks completed']| |]; simpl; [|done..].
    apply IH.
Qed.

Lemma generate_execution_plan_feed_order re_search order self plan :
  planner_wf self ->
  generate_execution_plan re_search order self = Ok plan ->
  plan_loop re_search (length (tasks self)) self (Dict.keys (tasks self)) [] ∅ =
  Ok (ExecutionPlan.waves plan).
Proof.
  intros Hwf. unfold generate_execution_plan.
  destruct (_topological_sort_with_priority order self) as [sorted| |] eqn:Hsort;
    simpl; try done.
  pose proof (topo_sort_ok_perm _ _ _ Hwf Hsort) as Hperm.
  rewrite (plan_loop_perm re_search self sorted (Dict.keys (tasks self)) _ Hwf Hperm).
  - destruct (plan_loop _ _ _ _ _ _) as [waves| |]; simpl; try done. by intros [= <-].
  - intros t Ht. by rewrite <- Hperm.
Qed.

(** ** The tasks of a wave are in packing order *)

Lemma StronglySorted_sublist {A : Type} (R : A -> A -> Prop) (l1 l2 : list A) :
  l1 `sublist_of` l2 -> StronglySorted R l2 -> StronglySorted R l1.
Proof.
  induction 1 as [|x l1 l2 Hsub IH|x l1 l2 Hsub IH]; intros Hs.
  - constructor.
  - apply StronglySorted_inv in Hs as [Hs Hall]. constructor; [by apply IH|].
    rewrite Forall_forall in Hall |- *. intros y Hy. apply Hall.
    by eapply elem_of_sublist.
  - apply StronglySorted_inv in Hs as [Hs _]. by apply IH.
Qed.

Lemma sort_by_conflicts_sorted available_tasks :
  StronglySorted
    (fun t1 t2 => key_lt (conflict_key t2) (conflict_key t1) = false)
    (sort_by_conflicts available_tasks).
Proof.
  unfold sort_by_conflicts.
  set (l := map _ available_tasks).
  assert (Hl : forall x, x ∈ sort_keyed l -> x.1 = conflict_key x.2).
  { intros x. rewrite sort_keyed_perm. unfold l.
    by intros (t & -> & _)%list_elem_of_fmap. }
  pose proof (sort_keyed_sorted l) as Hs.
  revert Hl Hs. generalize (sort_keyed l). clear l.
  intros sl. induction sl as [|x rest IH]; intros Hl Hs; simpl; constructor.
  - apply StronglySorted_inv in Hs as [Hs _]. apply IH; [|done].
    intros y Hy. apply Hl. by right.
  - apply StronglySorted_inv in Hs as [_ Hall].
    rewrite Forall_forall in Hall. rewrite Forall_forall.
    intros t (y & -> & Hy)%list_elem_of_fmap.
    specialize (Hall y Hy). unfold keyed_le in Hall.
    rewrite <- (Hl x (list_elem_of_here _ _)), <- (Hl y) by (by right). done.
Qed.

Lemma ready_tasks_get self sorted_tasks completed_tasks available_tasks task :
  ready_tasks self sorted_tasks completed_tasks = Ok available_tasks ->
  task ∈ available_tasks -> exists k, Dict.get (tasks self) k = Some task.
Proof.
  revert available_tasks.
  induction sorted_tasks as [|k rest IH]; intros av; cbn [ready_tasks].
  - intros [= <-]. by intros ?%elem_of_nil.
  - case_bool_decide; [apply (IH av)|].
    unfold Dict.item.
    destruct (Dict.get (tasks self) k) as [task0|] eqn:Hg; [|done]. simpl.
    destruct (ready_tasks self rest completed_tasks) as [l| |]; simpl; try done.
    destruct (forallb _ _); intros [= <-]; [|by apply (IH l)].
    intros [->|Hin]%elem_of_cons; [by exists k|by apply (IH l)].
Qed.

Lemma wave_built_sorted re_search self sorted_tasks earlier w :
  wave_built re_search self sorted_tasks earlier w ->
  exists added,
    Wave.tasks w = map wave_task_of added /\
    StronglySorted
      (fun t1 t2 => key_lt (conflict_key t2) (conflict_key t1) = false) added /\
    forall task, task ∈ added -> exists k, Dict.get (tasks self) k = Some task.
Proof.
  intros (av & c' & Hready & Hpack & _ & _).
  destruct (pack_wave_added _ _ _ _ _ _ _ _ Hpack) as (added & Hsub & Hw & _).
  exists added. split_and!; [done| |].
  - eapply StronglySorted_sublist; [exact Hsub|apply sort_by_conflicts_sorted].
  - intros task Ht. apply (ready_tasks_get _ _ _ _ _ Hready).
    rewrite <- (sort_by_conflicts_perm av). by eapply elem_of_sublist.
Qed.

Lemma StronglySorted_lookup {A : Type} (R : A -> A -> Prop) (l : list A) i j x y :
  StronglySorted R l -> l !! i = Some x -> l !! j = Some y -> i < j -> R x y.
Proof.
  intros Hs. revert i j. induction Hs as [|a l Hs IH Hall]; intros i j Hi Hj Hlt.
  - by rewrite lookup_nil in Hi.
  - destruct j as [|j]; [lia|]. destruct i as [|i].
    + simpl in Hi, Hj. injection Hi as <-.
      rewrite Forall_forall in Hall. apply Hall. apply list_elem_of_lookup. eauto.
    + simpl in Hi, Hj. apply (IH i j); [done|done|lia].
Qed.

Lemma plan_wave_id_order re_search order self plan w i j wi wj :
  planner_wf self ->
  (forall k t, Dict.get (tasks self) k = Some t -> Task.conflicts_with t = []) ->
  generate_execution_plan re_search order self = Ok plan ->
  w ∈ ExecutionPlan.waves plan ->
  Wave.tasks w !! i = Some wi -> Wave.tasks w !! j = Some wj -> i < j ->
  PyStr.lt (WaveTask.task_id wi) (WaveTask.task_id wj) = true.
Proof.
  intros Hwf Hnc Hplan [n Hn]%list_elem_of_lookup Hi Hj Hlt.
  destruct (generate_execution_plan_facts _ _ _ _ Hwf Hplan)
    as (Hinv & sorted & _ & Hbuilt).
  destruct (wave_built_sorted _ _ _ _ _ (Hbuilt n w Hn)) as (added & Hw & Hs & Hget).
  rewrite Hw in Hi, Hj. rewrite list_lookup_fmap in Hi, Hj.
  destruct (added !! i) as [ti|] eqn:Hti; [|done].
  destruct (added !! j) as [tj|] eqn:Htj; [|done].
  injection Hi as <-. injection Hj as <-. simpl.
  pose proof (StronglySorted_lookup _ _ _ _ _ _ Hs Hti Htj Hlt) as Hle.
  simpl in Hle. unfold conflict_key, key_lt in Hle.
  destruct (Hget ti) as [ki Hki]; [apply list_elem_of_lookup; eauto|].
  destruct (Hget tj) as [kj Hkj]; [apply list_elem_of_lookup; eauto|].
  rewrite (Hnc _ _ Hki), (Hnc _ _ Hkj) in Hle. simpl in Hle.
  destruct (PyStr.lt (Task.task_id ti) (Task.task_id tj)) eqn:Hij; [done|].
  exfalso.
  pose proof (str_lt_connex _ _ Hij Hle) as Heq.
  assert (Hnd : NoDup (wave_ids w)).
  { apply (flat_map_nodup_each wave_ids _ w (pi_nodup _ _ _ _ Hinv)).
    apply list_elem_of_lookup. eauto. }
  unfold wave_ids in Hnd. rewrite Hw in Hnd.
  assert (i = j); [|lia].
  eapply (NoDup_lookup _ _ _ _ Hnd); rewrite !list_lookup_fmap.
  - rewrite Hti. simpl. reflexivity.
  - rewrite Htj. simpl. by rewrite Heq.
Qed.

(** ** Counts of a plan *)

Lemma fold_left_max_nat_spec (l : list nat) (a : nat) :
  fold_left Nat.max l a ∈ a :: l /\ forall x, x ∈ a :: l -> x <= fold_left Nat.max l a.
Proof.
  revert a. induction l as [|y l IH]; intros a; simpl.
  - split; [left|]. by intros x ->%list_elem_of_singleton.
  - destruct (IH (Nat.max a y)) as [Hin Hle]. split.
    + apply elem_of_cons in Hin as [Heq|Hin]; [|by right; right].
      rewrite Heq. destruct (Nat.max_spec a y) as [[_ ->]|[_ ->]]; [right; left|left].
    + intros x Hx.
      assert (Hm : Nat.max a y <= fold_left Nat.max l (Nat.max a y)) by (apply Hle; left).
      apply elem_of_cons in Hx as [->|Hx]; [lia|].
      apply elem_of_cons in Hx as [->|Hx]; [lia|].
      apply Hle. by right.
Qed.

Lemma max_nat0_spec (l : list nat) :
  (forall x, x ∈ l -> x <= max_nat0 l) /\ (l <> [] -> max_nat0 l ∈ l).
Proof.
  destruct l as [|a l]; simpl.
  - split; [by intros x ?%elem_of_nil|done].
  - destruct (fold_left_max_nat_spec l a) as [Hin Hle]. by split.
Qed.

Lemma length_plan_ids waves :
  length (plan_ids waves) = list_sum (map (fun w => length (Wave.tasks w)) waves).
Proof.
  unfold plan_ids. induction waves as [|w waves IH]; simpl; [done|].
  rewrite length_app, IH. unfold wave_ids. by rewrite length_map.
Qed.

Lemma list_sum_ge_length (l : list nat) :
  (forall x, x ∈ l -> 1 <= x) -> length l <= list_sum l.
Proof.
  induction l as [|x l IH]; intros H; simpl; [done|].
  pose proof (H x (list_elem_of_here _ _)).
  assert (length l <= list_sum l) by (apply IH; intros; apply H; by right). lia.
Qed.

Lemma elem_le_list_sum (l : list nat) x : x ∈ l -> x <= list_sum l.
Proof.
  induction l as [|y l IH]; [by intros ?%elem_of_nil|].
  simpl. intros [->|Hx]%elem_of_cons; [lia|]. apply IH in Hx. lia.
Qed.

Lemma plan_counts re_search self waves :
  planner_wf self ->
  plan_inv re_search self waves (list_to_set (Dict.keys (tasks self))) ->
  (forall i w, waves !! i = Some w ->
     Wave.wave_number w = i + 1 /\
     Wave.parallel_task_count w = length (Wave.tasks w) /\
     1 <= Wave.parallel_task_count w) /\
  length (tasks self) = list_sum (map Wave.parallel_task_count waves) /\
  length waves <= length (tasks self) /\
  (forall w, w ∈ waves ->
     Wave.parallel_task_count w <= max_nat0 (map Wave.parallel_task_count waves)) /\
  (waves <> [] ->
     exists w, w ∈ waves /\
       Wave.parallel_task_count w = max_nat0 (map Wave.parallel_task_count waves)) /\
  max_nat0 (map Wave.parallel_task_count waves) <= length (tasks self).
Proof.
  intros Hwf Hinv.
  assert (Hw : forall i w, waves !! i = Some w ->
     Wave.wave_number w = i + 1 /\
     Wave.parallel_task_count w = length (Wave.tasks w) /\
     1 <= Wave.parallel_task_count w).
  { intros i w Hi. pose proof (pi_waves _ _ _ _ Hinv i w Hi) as Hok.
    split_and!; [by eapply plan_inv_wave_number|apply (wo_count _ _ _ _ Hok)|].
    rewrite (wo_count _ _ _ _ Hok).
    pose proof (wo_nonempty _ _ _ _ Hok). destruct (Wave.tasks w); [done|simpl; lia]. }
  assert (Hmap : map Wave.parallel_task_count waves =
                 map (fun w => length (Wave.tasks w)) waves).
  { apply map_ext_in. intros w [i Hi]%list_elem_of_In%list_elem_of_lookup.
    by destruct (Hw i w Hi) as (_ & -> & _). }
  assert (Hsum : length (tasks self) = list_sum (map Wave.parallel_task_count waves)).
  { rewrite Hmap, <- length_plan_ids, <- dict_keys_length.
    symmetry. apply Permutation_length. by eapply plan_ids_perm. }
  destruct (max_nat0_spec (map Wave.parallel_task_count waves)) as [Hle Hin].
  split_and!; [done|done| | | |].
  - rewrite Hsum. rewrite <- (length_map Wave.parallel_task_count waves).
    apply list_sum_ge_length.
    intros x (w & -> & [i Hi]%list_elem_of_lookup)%list_elem_of_fmap.
    by destruct (Hw i w Hi) as (_ & _ & ?).
  - intros w Hin'. apply Hle. apply list_elem_of_fmap. by exists w.
  - intros Hne.
    assert (Hm : max_nat0 (map Wave.parallel_task_count waves)
                 ∈ map Wave.parallel_task_count waves)
      by (apply Hin; by destruct waves).
    apply list_elem_of_fmap in Hm as (w & Heq & Hw'). by exists w.
  - destruct waves as [|w0 waves']; [simpl; lia|].
    rewrite Hsum. apply elem_le_list_sum. by apply Hin.
Qed.

(** ** The size distribution *)

Lemma dict_set_values_sum (d : Dict.t nat) k :
  list_sum (Dict.values (Dict.set d k (default 0 (Dict.get d k) + 1))) =
  list_sum (Dict.values d) + 1.
Proof.
  unfold Dict.values.
  induction d as [|[k' v'] d IH]; simpl; [done|].
  destruct (String.eqb k' k); simpl; [lia|]. rewrite IH. lia.
Qed.

Lemma size_distribution_fold (tasks : list WaveTask.t) (d : Dict.t nat) :
  let step := fun (distribution : Dict.t nat) (task : WaveTask.t) =>
    Dict.set distribution (WaveTask.size task)
      (default 0 (Dict.get distribution (WaveTask.size task)) + 1) in
  (forall size,
     Dict.get (fold_left step tasks d) size =
     let n := length (List.filter (fun t => String.eqb (WaveTask.size t) size) tasks) in
     if (n =? 0)%nat then Dict.get d size
     else Some (default 0 (Dict.get d size) + n)) /\
  (NoDup (Dict.keys d) -> NoDup (Dict.keys (fold_left step tasks d))) /\
  list_sum (Dict.values (fold_left step tasks d)) =
    list_sum (Dict.values d) + length tasks.
Proof.
  intros step. revert d. induction tasks as [|t tasks IH]; intros d; cbn [fold_left].
  - simpl. split_and!; [done|done|lia].
  - destruct (IH (step d t)) as (Hget & Hnd & Hsum).
    split_and!.
    + intros size. rewrite Hget. cbn [List.filter]. unfold step.
      rewrite dict_get_set.
      destruct (String.eqb_spec (WaveTask.size t) size) as [->|Hne].
      * rewrite decide_True by done. cbn [length default].
        destruct (length (List.filter _ tasks)) as [|n]; simpl; f_equal; lia.
      * rewrite decide_False by done. done.
    + intros Hd. apply Hnd. by apply dict_keys_set_nodup.
    + rewrite Hsum. unfold step. rewrite dict_set_values_sum. simpl. lia.
Qed.

(** ** Outcomes of loading *)

Lemma build_file_pattern_map_outcome file_patterns_data m :
  match build_file_pattern_map file_patterns_data m with
  | Ok _ => forall c, c ∈ file_patterns_data -> ConflictRecord.task_id c <> None
  | Raise e =>
      e = KeyError "task_id" /\
      exists c, c ∈ file_patterns_data /\ ConflictRecord.task_id c = None
  | OutOfFuel => False
  end.
Proof.
  revert m. induction file_patterns_data as [|c rest IH]; intros m; simpl.
  - by intros c ?%elem_of_nil.
  - destruct (ConflictRecord.task_id c) as [task_id|] eqn:Hid.
    + specialize (IH (<[task_id := flat_map file_patterns_of
                                     (default [] (ConflictRecord.files c))]> m)).
      destruct (build_file_pattern_map rest _) as [m'|e|]; [| |done].
      * intros c' [->|Hc]%elem_of_cons; [congruence|by apply IH].
      * destruct IH as [-> (c' & Hc & Hnone)]. split; [done|].
        exists c'. split; [by right|done].
    + split; [done|]. exists c. split; [left|done].
Qed.

Lemma load_tasks_outcome dependencies m self :
  match load_tasks dependencies m self with
  | Ok _ => forall r, r ∈ dependencies -> DepRecord.task_id r <> None
  | Raise e =>
      e = KeyError "task_id" /\
      exists r, r ∈ dependencies /\ DepRecord.task_id r = None
  | OutOfFuel => False
  end.
Proof.
  revert self. induction dependencies as [|r rest IH]; intros self; simpl.
  - by intros r ?%elem_of_nil.
  - destruct (DepRecord.task_id r) as [task_id|] eqn:Hid.
    + match goal with |- context [load_tasks rest m ?s] => specialize (IH s) end.
      destruct (load_tasks rest m _) as [self'|e|]; [| |done].
      * intros r' [->|Hr]%elem_of_cons; [congruence|by apply IH].
      * destruct IH as [-> (r' & Hr & Hnone)]. split; [done|].
        exists r'. split; [by right|done].
    + split; [done|]. exists r. split; [left|done].
Qed.

Lemma load_data_outcome dependencies file_patterns_data :
  match load_data dependencies file_patterns_data with
  | Ok _ => feeds_have_ids dependencies file_patterns_data
  | Raise e => e = KeyError "task_id" /\
               ~ feeds_have_ids dependencies file_patterns_data
  | OutOfFuel => False
  end.
Proof.
  unfold load_data, feeds_have_ids.
  pose proof (build_file_pattern_map_outcome file_patterns_data ∅) as Hb.
  destruct (build_file_pattern_map file_patterns_data ∅) as [m|e|]; simpl; [| |done].
  - pose proof (load_tasks_outcome dependencies m new_planner) as Hl.
    destruct (load_tasks dependencies m new_planner) as [self|e|]; [done| |done].
    destruct Hl as [-> (r & Hr & Hnone)]. split; [done|].
    intros [Hd _]. by apply (Hd r).
  - destruct Hb as [-> (c & Hc & Hnone)]. split; [done|].
    intros [_ Hc']. by apply (Hc' c).
Qed.

Lemma run_planner_trichotomy re_search order dependencies file_patterns_data :
  (~ feeds_have_ids dependencies file_patterns_data ->
   run_planner re_search order dependencies file_patterns_data =
     Raise (KeyError "task_id")) /\
  (feeds_have_ids dependencies file_patterns_data ->
   ~ feed_sound dependencies ->
   run_planner re_search order dependencies file_patterns_data =
     Raise (ValueError "Circular dependency detected!")) /\
  (feeds_have_ids dependencies file_patterns_data ->
   feed_sound dependencies ->
   exists plan,
     run_planner re_search order dependencies file_patterns_data = Ok plan).
Proof.
  unfold run_planner.
  pose proof (load_data_outcome dependencies file_patterns_data) as Hload.
  destruct (load_data dependencies file_patterns_data) as [self|e|] eqn:Heq; [| |done].
  - pose proof (load_data_wf _ _ _ Heq) as Hwf. simpl.
    pose proof (generate_execution_plan_sound_iff re_search order _ _ _ Heq) as Hiff.
    split_and!.
    + by intros Hn.
    + intros _ Hns.
      destruct (generate_execution_plan_total re_search order self Hwf) as [Hplan|Hraise];
        [|done].
      exfalso. by apply Hns, Hiff.
    + intros _ Hs. by apply Hiff.
  - destruct Hload as [-> Hn]. simpl. split_and!; [done|by intros ?..].
Qed.

(** ** What loading stores *)

Lemma last_filter_cons {A : Type} (p : A -> bool) (x : A) (l : list A) :
  last (List.filter p (x :: l)) =
  match last (List.filter p l) with
  | Some y => Some y
  | None => if p x then Some x else None
  end.
Proof.
  cbn [List.filter]. destruct (p x); [|by destruct (last _)].
  by rewrite last_cons.
Qed.

Lemma build_file_pattern_map_lookup file_patterns_data m m' k :
  build_file_pattern_map file_patterns_data m = Ok m' ->
  m' !! k =
  match last_conflict_record file_patterns_data k with
  | Some c => Some (flat_map file_patterns_of (default [] (ConflictRecord.files c)))
  | None => m !! k
  end.
Proof.
  unfold last_conflict_record.
  revert m. induction file_patterns_data as [|c rest IH]; intros m; cbn [build_file_pattern_map].
  - by intros [= <-].
  - destruct (ConflictRecord.task_id c) as [task_id|] eqn:Hid; [|done].
    intros Hb%IH. rewrite Hb, last_filter_cons.
    destruct (last (List.filter _ rest)) as [c'|]; [done|].
    rewrite lookup_insert. case_decide as Hk.
    + subst k. by rewrite bool_decide_eq_true_2.
    + rewrite bool_decide_eq_false_2; [done|]. congruence.
Qed.

Lemma load_tasks_get dependencies m self self' k :
  load_tasks dependencies m self = Ok self' ->
  Dict.get (tasks self') k =
  match last_dep_record dependencies k with
  | Some r => Some (make_task m k r)
  | None => Dict.get (tasks self) k
  end.
Proof.
  unfold last_dep_record.
  revert self. induction dependencies as [|r rest IH]; intros self; cbn [load_tasks].
  - by intros [= <-].
  - destruct (DepRecord.task_id r) as [task_id|] eqn:Hid; [|done].
    intros Hl%IH. rewrite Hl, last_filter_cons.
    destruct (last (List.filter _ rest)) as [r'|]; [done|].
    rewrite add_dependencies_tasks. simpl. rewrite dict_get_set.
    case_decide as Hk.
    + subst k. by rewrite bool_decide_eq_true_2.
    + rewrite bool_decide_eq_false_2; [done|]. congruence.
Qed.

Lemma load_data_get dependencies file_patterns_data self k :
  load_data dependencies file_patterns_data = Ok self ->
  Dict.get (tasks self) k =
  match last_dep_record dependencies k with
  | Some r =>
      Some (Task.mk k
              (default "M" (DepRecord.size r))
              (default 20%Z (DepRecord.expected_runtime_min r))
              (default [] (DepRecord.depends_on r))
              []
              match last_conflict_record file_patterns_data k with
              | Some c => flat_map file_patterns_of (default [] (ConflictRecord.files c))
              | None => []
              end
              (default [] (DepRecord.tags r))
              (default false (DepRecord.enabler r)))
  | None => None
  end.
Proof.
  unfold load_data.
  destruct (build_file_pattern_map file_patterns_data ∅) as [m| |] eqn:Hm; simpl; try done.
  intros Hl. rewrite (load_tasks_get _ _ _ _ k Hl). simpl.
  destruct (last_dep_record dependencies k) as [r|]; [|done].
  unfold make_task. rewrite (build_file_pattern_map_lookup _ _ _ k Hm).
  rewrite lookup_empty. by destruct (last_conflict_record file_patterns_data k).
Qed.

(** ** Strings *)

Lemma string_app_cons (c : ascii) (s1 s2 : string) :
  String c s1 ++ s2 = String c (s1 ++ s2).
Proof. reflexivity. Qed.

Lemma string_app_assoc (s1 s2 s3 : string) : (s1 ++ s2) ++ s3 = s1 ++ (s2 ++ s3).
Proof.
  induction s1 as [|c s1 IH]; [done|]. by rewrite !string_app_cons, IH.
Qed.

Lemma string_app_nil_r (s : string) : s ++ "" = s.
Proof. induction s as [|c s IH]; [done|]. by rewrite string_app_cons, IH. Qed.

Lemma chars_app (s1 s2 : string) : chars (s1 ++ s2) = (chars s1 ++ chars s2)%list.
Proof.
  unfold chars. induction s1 as [|c s1 IH]; [done|].
  rewrite string_app_cons. simpl. by rewrite IH.
Qed.

Lemma prefix_cons (a b : ascii) (sub s : string) :
  String.prefix (String a sub) (String b s) = Ascii.eqb a b && String.prefix sub s.
Proof.
  cbn [String.prefix]. destruct (ascii_dec a b) as [->|Hne].
  - by rewrite Ascii.eqb_refl.
  - apply Ascii.eqb_neq in Hne. by rewrite Hne.
Qed.

Lemma prefix_nil (s : string) : String.prefix "" s = true.
Proof. by destruct s. Qed.

Lemma prefix_char (c a : ascii) (s : string) :
  String.prefix (String c "") (String a s) = Ascii.eqb c a.
Proof.
  simpl. destruct (ascii_dec c a) as [->|Hne].
  - rewrite Ascii.eqb_refl. by destruct s.
  - symmetry. by apply Ascii.eqb_neq.
Qed.

Lemma contains_char (c : ascii) (s : string) :
  PyStr.contains (String c "") s = true <-> c ∈ chars s.
Proof.
  unfold chars. induction s as [|a s IH]; simpl.
  - split; [done|by intros ?%elem_of_nil].
  - change (match s with "" => true | String _ _ => true end) with
      (String.prefix "" s).
    rewrite elem_of_cons, <- IH. destruct (ascii_dec c a) as [->|Hne].
    + split; [by left|]. intros _. by destruct s.
    + simpl. split; [by right|]. by intros [?|?].
Qed.

Lemma contains_cons (sub : string) (a : ascii) (s : string) :
  PyStr.contains sub s = true -> PyStr.contains sub (String a s) = true.
Proof. intros H. simpl. rewrite H. apply orb_true_r. Qed.

Lemma prefix_chars (sub s : string) c :
  String.prefix sub s = true -> c ∈ chars sub -> c ∈ chars s.
Proof.
  unfold chars. revert s. induction sub as [|a sub IH]; intros s.
  - by intros _ ?%elem_of_nil.
  - destruct s as [|b s]; simpl; [done|]. destruct (ascii_dec a b) as [->|]; [|done].
    intros Hp [->|Hc]%elem_of_cons; [left|right; by apply IH].
Qed.

Lemma contains_chars (sub s : string) c :
  PyStr.contains sub s = true -> c ∈ chars sub -> c ∈ chars s.
Proof.
  induction s as [|a s IH]; simpl.
  - rewrite orb_false_r. destruct sub; [by intros _ ?%elem_of_nil|done].
  - intros [Hp|Hc]%orb_true_iff Hin.
    + by apply (prefix_chars sub (String a s)).
    + unfold chars. simpl. right. by apply IH.
Qed.

Lemma endswith_contains (s : string) :
  PyStr.endswith s "/**" = true -> PyStr.contains "**" s = true.
Proof.
  induction s as [|a s IH]; [done|].
  cbn [PyStr.endswith]. intros [Heq|Hrec]%orb_true_iff.
  - apply String.eqb_eq in Heq. by rewrite Heq.
  - by apply contains_cons, IH.
Qed.

(** ** Exact paths spelled as regex *)

Lemma is_exact_regex_chars (pattern : string) :
  _is_exact_regex pattern = true <->
  forall c, c ∈ chars (PyStr.rstrip "$" (PyStr.lstrip "^" pattern)) ->
            c ∉ wildcard_chars.
Proof.
  unfold _is_exact_regex. set (cleaned := PyStr.rstrip "$" (PyStr.lstrip "^" pattern)).
  rewrite negb_true_iff. split.
  - intros Hnone c Hc Hw.
    assert (Hex : existsb (fun wildcard => PyStr.contains wildcard cleaned) wildcards = true);
      [|congruence].
    apply existsb_iff. exists (String c ""). split; [|by apply contains_char].
    unfold wildcard_chars in Hw. unfold wildcards.
    repeat (apply elem_of_cons in Hw as [->|Hw]; [set_solver|]).
    by apply elem_of_nil in Hw.
  - intros Hnone. apply not_true_iff_false. intros (w & Hw & Hc)%existsb_iff.
    unfold wildcards in Hw.
    assert (Hstar : forall c, c ∈ wildcard_chars -> c ∈ chars w -> False).
    { intros c Hcw Hcin. apply (Hnone c); [|done]. by apply (contains_chars w). }
    repeat (apply elem_of_cons in Hw as [->|Hw];
            [first [ by apply (Hstar "*"%char); [set_solver|set_solver]
                   | by apply (Hstar "+"%char); [set_solver|set_solver]
                   | by apply (Hstar "["%char); [set_solver|set_solver]
                   | by apply (Hstar "]"%char); [set_solver|set_solver]
                   | by apply (Hstar "("%char); [set_solver|set_solver]
                   | by apply (Hstar "|"%char); [set_solver|set_solver]
                   | by apply (Hstar "{"%char); [set_solver|set_solver]
                   | by apply (Hstar "}"%char); [set_solver|set_solver]
                   | by apply (Hstar "?"%char); [set_solver|set_solver] ]|]).
    by apply elem_of_nil in Hw.
Qed.

(** ** The literal prefix of a pattern *)

Lemma tail_no_newline (s : string) :
  newline ∉ chars s -> tail_matches s = true /\ tail_left s = "".
Proof.
  unfold chars. induction s as [|c s IH]; simpl; [done|].
  intros Hn. destruct (Ascii.eqb_spec c newline) as [->|Hne].
  - exfalso. apply Hn. left.
  - apply IH. intros Hin. apply Hn. by right.
Qed.

Lemma sub_meta_tail_split (s : string) :
  newline ∉ chars s ->
  exists rest,
    s = sub_meta_tail s ++ rest /\
    (forall c, c ∈ chars (sub_meta_tail s) -> is_base_meta c = false) /\
    (rest = "" \/ exists c rest', rest = String c rest' /\ is_base_meta c = true).
Proof.
  unfold chars. induction s as [|c s IH]; intros Hn; cbn [sub_meta_tail].
  - exists "". split_and!; [done|by intros c ?%elem_of_nil|by left].
  - assert (Hn' : newline ∉ chars s) by (intros Hin; apply Hn; by right).
    destruct (tail_no_newline s Hn') as [-> ->].
    destruct (is_base_meta c) eqn:Hc; simpl.
    + exists (String c s). split_and!; [done|by intros c' ?%elem_of_nil|].
      right. by exists c, s.
    + destruct (IH Hn') as (rest & Hs & Hmeta & Hrest).
      exists rest. split_and!; [by rewrite string_app_cons, <- Hs| |done].
      intros c' [->|Hc']%elem_of_cons; [done|by apply Hmeta].
Qed.

Lemma rstrip_split (a : ascii) (s : string) :
  exists stripped,
    s = PyStr.rstrip a s ++ stripped /\
    (forall c, c ∈ chars stripped -> c = a) /\
    PyStr.endswith (PyStr.rstrip a s) (String a "") = false.
Proof.
  unfold chars. induction s as [|c s IH]; cbn [PyStr.rstrip].
  - exists "". split_and!; [done|by intros c ?%elem_of_nil|done].
  - destruct IH as (stripped & Hs & Hall & Hend).
    destruct (PyStr.rstrip a s) as [|b r] eqn:Hr.
    + destruct (Ascii.eqb_spec c a) as [->|Hne].
      * exists (String a stripped). split_and!; [by rewrite Hs at 1| |done].
        intros c' [->|Hc']%elem_of_cons; [done|by apply Hall].
      * exists stripped. split_and!; [by rewrite Hs at 1|done|].
        simpl. rewrite orb_false_r.
        destruct (Ascii.eqb_spec c a); [done|by destruct a].
    + exists stripped. split_and!; [by rewrite string_app_cons, <- Hs|done|].
      change (PyStr.endswith (String c (String b r)) (String a ""))
        with (String.eqb (String c (String b r)) (String a "")
              || PyStr.endswith (String b r) (String a "")).
      rewrite Hend, orb_false_r.
      apply String.eqb_neq. intros [= -> Hnil].
Qed.

Lemma extract_base_path_split (pattern : string) :
  newline ∉ chars pattern ->
  exists slashes rest,
    pattern = _extract_base_path pattern ++ slashes ++ rest /\
    (forall c, c ∈ chars (_extract_base_path pattern) -> is_base_meta c = false) /\
    (forall c, c ∈ chars slashes -> c = "/"%char) /\
    PyStr.endswith (_extract_base_path pattern) "/" = false /\
    (rest = "" \/ exists c rest', rest = String c rest' /\ is_base_meta c = true).
Proof.
  intros Hn. unfold _extract_base_path.
  destruct (sub_meta_tail_split pattern Hn) as (rest & Hs & Hmeta & Hrest).
  destruct (rstrip_split "/" (sub_meta_tail pattern)) as (slashes & Hb & Hsl & Hend).
  exists slashes, rest. split_and!; [|  |done|done|done].
  - by rewrite <- string_app_assoc, <- Hb.
  - intros c Hc. apply Hmeta. rewrite Hb, chars_app, elem_of_app. by left.
Qed.

(** ** Characters of the segments of a prefix *)

Lemma tail_left_chars (s : string) c : c ∈ chars (tail_left s) -> c ∈ chars s.
Proof.
  unfold chars. induction s as [|a s IH]; simpl; [done|].
  destruct (Ascii.eqb a newline); [done|]. intros Hc. right. by apply IH.
Qed.

Lemma sub_meta_tail_chars (s : string) c :
  c ∈ chars (sub_meta_tail s) -> c ∈ chars s.
Proof.
  unfold chars. induction s as [|a s IH]; cbn [sub_meta_tail]; [done|].
  destruct (is_base_meta a && tail_matches s).
  - intros Hc. simpl. right. by apply tail_left_chars.
  - simpl. intros [->|Hc]%elem_of_cons; [left|right; by apply IH].
Qed.

Lemma rstrip_chars (a : ascii) (s : string) c :
  c ∈ chars (PyStr.rstrip a s) -> c ∈ chars s.
Proof.
  destruct (rstrip_split a s) as (stripped & Hs & _ & _).
  intros Hc. rewrite Hs, chars_app, elem_of_app. by left.
Qed.

Lemma split_chars (a : ascii) (s p : string) c :
  p ∈ PyStr.split a s -> c ∈ chars p -> c ∈ chars s.
Proof.
  unfold chars. revert p. induction s as [|b s IH]; intros p; cbn [PyStr.split].
  - by intros ->%list_elem_of_singleton ?%elem_of_nil.
  - destruct (Ascii.eqb b a).
    + intros [->|Hp]%elem_of_cons; [by intros ?%elem_of_nil|].
      intros Hc. simpl. right. by apply (IH p).
    + destruct (PyStr.split a s) as [|q qs] eqn:Hq.
      * intros ->%list_elem_of_singleton. simpl.
        intros [->|?%elem_of_nil]%elem_of_cons; [left|done].
      * intros [->|Hp]%elem_of_cons.
        -- simpl. intros [->|Hc]%elem_of_cons; [left|right].
           apply (IH q); [left|done].
        -- intros Hc. simpl. right. apply (IH p); [by right|done].
Qed.

Lemma path_parts_chars (pattern p : string) c :
  p ∈ path_parts (_extract_base_path pattern) -> c ∈ chars p -> c ∈ chars pattern.
Proof.
  unfold path_parts, _extract_base_path.
  intros [Hp _]%elem_of_list_filter Hc.
  by eapply sub_meta_tail_chars, rstrip_chars, split_chars.
Qed.

Lemma path_parts_anchored (rest : string) :
  exists p ps,
    path_parts (_extract_base_path (String "^" rest)) = String "^" p :: ps.
Proof.
  unfold path_parts, _extract_base_path. cbn [sub_meta_tail].
  change (is_base_meta "^" && tail_matches rest) with false. cbv iota.
  set (t := sub_meta_tail rest).
  assert (Hr : PyStr.rstrip "/" (String "^" t) = String "^" (PyStr.rstrip "/" t)).
  { cbn [PyStr.rstrip]. by destruct (PyStr.rstrip "/" t). }
  rewrite Hr. set (u := PyStr.rstrip "/" t).
  cbn [PyStr.split]. change (Ascii.eqb "^" "/") with false. cbv iota.
  destruct (PyStr.split "/" u) as [|q qs]; simpl; eauto.
Qed.

Lemma anchored_overlap_false re_search p1 p2 rest :
  FilePattern.pattern p1 = String "^" rest ->
  PyStr.contains "^" (FilePattern.pattern p2) = false ->
  _is_exact_regex (FilePattern.pattern p1)
    && _is_exact_regex (FilePattern.pattern p2) = false ->
  path_parts (_extract_base_path (FilePattern.pattern p2)) <> [] ->
  _check_regex_pattern_overlap re_search p1 p2 = false.
Proof.
  intros H1 H2 Hexact Hne. unfold _check_regex_pattern_overlap. rewrite Hexact.
  rewrite H1. destruct (path_parts_anchored rest) as (p & ps & ->).
  destruct (path_parts (_extract_base_path (FilePattern.pattern p2))) as [|q qs] eqn:Hq;
    [done|].
  rewrite bool_decide_eq_false_2; [done|]. simpl. intros [= Heq _].
  assert (Hin : "^"%char ∈ chars (FilePattern.pattern p2)).
  { apply (path_parts_chars _ q); [rewrite Hq; left|]. rewrite <- Heq. left. }
  apply contains_char in Hin. congruence.
Qed.

(** ** The translation of globs *)

Lemma replace_star_shape (s : string) :
  String.prefix "*" (PyStr.replace "*" "[^/]*" s) = false /\
  PyStr.contains ".*" (PyStr.replace "*" "[^/]*" s) = false.
Proof.
  unfold PyStr.replace. induction s as [|c s [IHp IHc]]; [done|].
  cbn [PyStr.replace_from]. rewrite prefix_char.
  destruct (Ascii.eqb_spec "*"%char c) as [<-|Hne].
  - change (String.length "*" - 1) with 0.
    set (r := PyStr.replace_from "*" "[^/]*" 0 s) in *.
    split; [done|].
    change ("[^/]*" ++ r) with
      (String "[" (String "^" (String "/" (String "]" (String "*" r))))).
    cbn [PyStr.contains]. rewrite IHc, !prefix_cons. done.
  - set (r := PyStr.replace_from "*" "[^/]*" 0 s) in *. split.
    + rewrite prefix_char. by apply Ascii.eqb_neq.
    + cbn [PyStr.contains]. rewrite IHc, orb_false_r, prefix_cons.
      destruct (Ascii.eqb "." c); [|done]. simpl. exact IHp.
Qed.

Lemma replace_star_app (s1 s2 : string) :
  PyStr.replace "*" "[^/]*" (s1 ++ s2) =
  PyStr.replace "*" "[^/]*" s1 ++ PyStr.replace "*" "[^/]*" s2.
Proof.
  unfold PyStr.replace. induction s1 as [|c s1 IH]; [done|].
  rewrite string_app_cons. cbn [PyStr.replace_from]. rewrite !prefix_char.
  change (String.length "*" - 1) with 0.
  destruct (Ascii.eqb "*" c).
  - by rewrite IH, string_app_assoc.
  - by rewrite IH, string_app_cons.
Qed.

Lemma replace_star_none (s : string) :
  "*"%char ∉ chars s -> PyStr.replace "*" "[^/]*" s = s.
Proof.
  unfold PyStr.replace, chars. induction s as [|c s IH]; [done|].
  intros Hn. cbn [PyStr.replace_from]. rewrite prefix_char.
  destruct (Ascii.eqb_spec "*"%char c) as [<-|Hne].
  - exfalso. apply Hn. left.
  - rewrite IH; [done|]. intros Hin. apply Hn. by right.
Qed.

Lemma replace_double_star_app (a b : string) :
  "*"%char ∉ chars a ->
  PyStr.replace "**/" ".*" (a ++ "**/" ++ b) =
  a ++ ".*" ++ PyStr.replace "**/" ".*" b.
Proof.
  unfold PyStr.replace, chars. induction a as [|c a IH]; intros Hn.
  - change ("" ++ "**/" ++ b) with (String "*" (String "*" (String "/" b))).
    cbn [PyStr.replace_from]. rewrite !prefix_cons, prefix_nil.
    change (String.length "**/" - 1) with 2.
    cbn [PyStr.replace_from]. done.
  - rewrite string_app_cons. cbn [PyStr.replace_from].
    assert (String.prefix "**/" (String c (a ++ "**/" ++ b)) = false) as ->.
    { rewrite prefix_cons. destruct (Ascii.eqb_spec "*"%char c) as [<-|]; [|done].
      exfalso. apply Hn. left. }
    rewrite IH; [by rewrite string_app_cons|]. intros Hin. apply Hn. by right.
Qed.

Lemma glob_to_regex_double_star (a b : string) :
  "*"%char ∉ chars a ->
  glob_to_regex (a ++ "**/" ++ b) = a ++ ".[^/]*" ++ glob_to_regex b.
Proof.
  intros Hn. unfold glob_to_regex.
  rewrite replace_double_star_app by done.
  rewrite replace_star_app, (replace_star_none a) by done.
  by rewrite (replace_star_app ".*").
Qed.

(** ** The candidate paths of the probe *)











(** ** Patterns without a literal prefix *)

Lemma extract_base_path_meta_first (c : ascii) (rest : string) :
  is_base_meta c = true -> newline ∉ chars rest ->
  _extract_base_path (String c rest) = "".
Proof.
  intros Hc Hn. unfold _extract_base_path. cbn [sub_meta_tail].
  destruct (tail_no_newline rest Hn) as [-> ->]. by rewrite Hc.
Qed.

Lemma overlap_too_broad re_search p1 p2 :
  _extract_base_path (FilePattern.pattern p1) = "" ->
  _is_exact_regex (FilePattern.pattern p1)
    && _is_exact_regex (FilePattern.pattern p2) = false ->
  _check_regex_pattern_overlap re_search p1 p2 = true.
Proof.
  intros Hb Hexact. unfold _check_regex_pattern_overlap. by rewrite Hexact, Hb.
Qed.

Lemma replace_double_star_none (s : string) :
  "*"%char ∉ chars s -> PyStr.replace "**/" ".*" s = s.
Proof.
  unfold PyStr.replace, chars. induction s as [|c s IH]; [done|].
  intros Hn. cbn [PyStr.replace_from]. rewrite prefix_cons.
  destruct (Ascii.eqb_spec "*"%char c) as [<-|Hne].
  - exfalso. apply Hn. left.
  - simpl. rewrite IH; [done|]. intros Hin. apply Hn. by right.
Qed.

Lemma glob_to_regex_no_star (s : string) :
  "*"%char ∉ chars s -> glob_to_regex s = s.
Proof.
  intros Hn. unfold glob_to_regex.
  by rewrite replace_double_star_none, replace_star_none.
Qed.

(** ** Tasks with plain exact paths, and tasks without patterns *)

Lemma exact_patterns_conflict re_search p1 p2 :
  actual_type p1 = "exact" -> actual_type p2 = "exact" ->
  _patterns_conflict re_search p1 p2 =
  String.eqb (FilePattern.pattern p1) (FilePattern.pattern p2).
Proof. intros H1 H2. unfold _patterns_conflict. by rewrite H1, H2. Qed.

Lemma check_file_conflict_exact re_search task1 task2 :
  (forall p, p ∈ Task.file_patterns task1 -> actual_type p = "exact") ->
  (forall p, p ∈ Task.file_patterns task2 -> actual_type p = "exact") ->
  _check_file_conflict re_search task1 task2 = true <->
  Task.task_id task1 <> Task.task_id task2 /\
  (explicit_conflict task1 task2 = true \/
   exists p1 p2, p1 ∈ Task.file_patterns task1 /\ p2 ∈ Task.file_patterns task2 /\
                 FilePattern.pattern p1 = FilePattern.pattern p2).
Proof.
  intros H1 H2. unfold _check_file_conflict, explicit_conflict.
  destruct (String.eqb_spec (Task.task_id task1) (Task.task_id task2)) as [Heq|Hne].
  { split; [done|]. by intros [? _]. }
  destruct (list_mem _ _ || list_mem _ _).
  { split; [|done]. intros _. split; [done|by left]. }
  rewrite existsb_iff. split.
  - intros (p1 & Hp1 & (p2 & Hp2 & Hc)%existsb_iff). split; [done|]. right.
    exists p1, p2. split_and!; [done|done|].
    rewrite exact_patterns_conflict in Hc by auto. by apply String.eqb_eq.
  - intros [_ [?|(p1 & p2 & Hp1 & Hp2 & Heq)]]; [done|].
    exists p1. split; [done|]. apply existsb_iff. exists p2. split; [done|].
    rewrite exact_patterns_conflict by auto. by apply String.eqb_eq.
Qed.

Lemma load_data_no_files dependencies file_patterns_data self k task :
  load_data dependencies file_patterns_data = Ok self ->
  (forall c, c ∈ file_patterns_data -> ConflictRecord.files c = None) ->
  Dict.get (tasks self) k = Some task ->
  Task.file_patterns task = [] /\ Task.conflicts_with task = [].
Proof.
  intros Hload Hnone Hg. rewrite (load_data_get _ _ _ k Hload) in Hg.
  destruct (last_dep_record dependencies k) as [r|]; [|done].
  injection Hg as <-. simpl. split; [|done].
  destruct (last_conflict_record file_patterns_data k) as [c|] eqn:Hc; [|done].
  assert (Hin : c ∈ file_patterns_data).
  { unfold last_conflict_record in Hc. apply last_Some in Hc as [l Hl].
    assert (c ∈ List.filter (fun c => bool_decide (ConflictRecord.task_id c = Some k))
                  file_patterns_data) as [? _]%elem_of_list_filter; [|done].
    rewrite Hl, elem_of_app. right. left. }
  by rewrite (Hnone c Hin).
Qed.

Lemma check_file_conflict_no_patterns re_search task1 task2 :
  Task.file_patterns task1 = [] -> Task.conflicts_with task1 = [] ->
  Task.conflicts_with task2 = [] ->
  _check_file_conflict re_search task1 task2 = false.
Proof.
  intros Hp Hc1 Hc2. unfold _check_file_conflict. rewrite Hp, Hc1, Hc2. simpl.
  by destruct (String.eqb _ _).
Qed.

Lemma plan_by_depth re_search order self plan :
  planner_wf self ->
  (forall k task, Dict.get (tasks self) k = Some task ->
     Task.file_patterns task = [] /\ Task.conflicts_with task = []) ->
  generate_execution_plan re_search order self = Ok plan ->
  (forall k task, Dict.get (tasks self) k = Some task ->
     Task.depends_on task = [] -> in_wave plan k 1) /\
  (forall k task n, Dict.get (tasks self) k = Some task ->
     in_wave plan k (S (S n)) ->
     exists d, d ∈ Task.depends_on task /\ in_wave plan d (S n)).
Proof.
  intros Hwf Hplain Hplan.
  destruct (generate_execution_plan_inv _ _ _ _ Hwf Hplan) as [Hinv _].
  assert (Hfree : forall k task wt st,
            Dict.get (tasks self) k = Some task ->
            Dict.get (tasks self) (WaveTask.task_id wt) = Some st ->
            _check_file_conflict re_search task st = false).
  { intros k task wt st Hg Hst.
    destruct (Hplain _ _ Hg) as [Hp Hc]. destruct (Hplain _ _ Hst) as [_ Hc'].
    by apply check_file_conflict_no_patterns. }
  split.
  - intros k task Hg Hnodeps.
    assert (Hin : k ∈ plan_ids (ExecutionPlan.waves plan)).
    { apply (elem_of_list_to_set (C := gset string)).
      rewrite <- (pi_completed _ _ _ _ Hinv). apply elem_of_list_to_set.
      by eapply dict_get_Some_keys. }
    apply elem_of_plan_ids in Hin as (i & w & Hi & Hkw).
    destruct i as [|i].
    { apply (in_wave_index _ _ _ _ _ _ Hinv). by exists 0, w. }
    exfalso.
    destruct (ExecutionPlan.waves plan !! 0) as [w0|] eqn:H0.
    2:{ apply lookup_ge_None in H0. apply lookup_lt_Some in Hi. lia. }
    destruct (plan_maximal re_search order self plan 0 w0 k task Hwf Hplan H0 Hg)
      as (wt & st & _ & Hst & Hc).
    + rewrite Hnodeps. by intros d ?%elem_of_nil.
    + intros (j & w' & Hj & Hlt & Hkw')%elem_of_plan_ids_take.
      pose proof (flat_map_nodup_unique wave_ids _ j (S i) w' w k
                    (pi_nodup _ _ _ _ Hinv) Hj Hi Hkw' Hkw). lia.
    + by rewrite (Hfree k task wt st Hg Hst) in Hc.
  - intros k task n Hg Hk.
    destruct (plan_no_idle_wait re_search order self plan k task n Hwf Hplan Hk Hg)
      as [Hdep|(s & st & Hs & Hst & Hc)]; [done|].
    exfalso.
    apply (in_wave_index _ _ _ _ _ _ Hinv) in Hs as (i & w & Hi & _ & Hsw).
    unfold wave_ids in Hsw. apply list_elem_of_fmap in Hsw as (wt & -> & _).
    by rewrite (Hfree k task wt st Hg Hst) in Hc.
Qed.

(** ** The order of the records of the feeds *)

Lemma list_filter_perm {A : Type} (f : A -> bool) (l1 l2 : list A) :
  l1 ≡ₚ l2 -> List.filter f l1 ≡ₚ List.filter f l2.
Proof.
  induction 1 as [|x l1 l2 _ IH|x y l|l1 l2 l3 _ IH1 _ IH2]; simpl.
  - done.
  - destruct (f x); [by constructor|done].
  - destruct (f x), (f y); try done. apply perm_swap.
  - by etransitivity.
Qed.

Lemma filter_key_unique {A K : Type} `{EqDecision K} (key : A -> K) (k : K)
    (l : list A) :
  NoDup (map key l) ->
  length (List.filter (fun x => bool_decide (key x = k)) l) <= 1.
Proof.
  induction l as [|x l IH]; simpl; [lia|].
  intros [Hx Hnd]%NoDup_cons. specialize (IH Hnd).
  case_bool_decide as Hk; [|done]. simpl.
  assert (List.filter (fun x => bool_decide (key x = k)) l = []) as ->; [|simpl; lia].
  destruct (List.filter _ l) as [|y l'] eqn:Hf; [done|]. exfalso.
  assert (Hy : y ∈ List.filter (fun x => bool_decide (key x = k)) l)
    by (rewrite Hf; left).
  apply elem_of_list_filter in Hy as [Hy Hky]. apply bool_decide_eq_true in Hky.
  apply Hx. rewrite Hk, <- Hky. apply list_elem_of_fmap. by exists y.
Qed.

Lemma last_filter_perm {A K : Type} `{EqDecision K} (key : A -> K) (k : K)
    (l1 l2 : list A) :
  l1 ≡ₚ l2 -> NoDup (map key l1) ->
  last (List.filter (fun x => bool_decide (key x = k)) l1) =
  last (List.filter (fun x => bool_decide (key x = k)) l2).
Proof.
  intros Hp Hnd.
  pose proof (filter_key_unique key k l1 Hnd) as Hlen.
  pose proof (list_filter_perm (fun x => bool_decide (key x = k)) _ _ Hp) as Hf.
  destruct (List.filter _ l1) as [|x [|y l]]; simpl in Hlen; [| |lia].
  - apply Permutation_nil in Hf. by rewrite Hf.
  - apply Permutation_singleton_l in Hf. by rewrite Hf.
Qed.

Lemma ready_tasks_ext self1 self2 sorted_tasks completed_tasks :
  (forall k, Dict.get (tasks self1) k = Dict.get (tasks self2) k) ->
  ready_tasks self1 sorted_tasks completed_tasks =
  ready_tasks self2 sorted_tasks completed_tasks.
Proof.
  intros Hget. induction sorted_tasks as [|k rest IH]; cbn [ready_tasks]; [done|].
  unfold Dict.item. by rewrite IH, Hget.
Qed.

Lemma can_add_ext re_search self1 self2 task wave_tasks :
  (forall k, Dict.get (tasks self1) k = Dict.get (tasks self2) k) ->
  can_add re_search self1 task wave_tasks = can_add re_search self2 task wave_tasks.
Proof.
  intros Hget. induction wave_tasks as [|wt rest IH]; cbn [can_add]; [done|].
  unfold Dict.item. by rewrite IH, Hget.
Qed.

Lemma pack_wave_ext re_search self1 self2 available_tasks :
  (forall k, Dict.get (tasks self1) k = Dict.get (tasks self2) k) ->
  forall wave_tasks used_task_ids completed_tasks,
  pack_wave re_search self1 available_tasks wave_tasks used_task_ids completed_tasks =
  pack_wave re_search self2 available_tasks wave_tasks used_task_ids completed_tasks.
Proof.
  intros Hget. induction available_tasks as [|task rest IH];
    intros wave_tasks used completed; cbn [pack_wave]; [done|].
  rewrite (can_add_ext re_search self1 self2 task wave_tasks Hget).
  rewrite !IH. done.
Qed.

Lemma plan_loop_ext re_search self1 self2 sorted_tasks fuel :
  (forall k, Dict.get (tasks self1) k = Dict.get (tasks self2) k) ->
  Dict.keys (tasks self1) ≡ₚ Dict.keys (tasks self2) ->
  forall waves completed_tasks,
  plan_loop re_search fuel self1 sorted_tasks waves completed_tasks =
  plan_loop re_search fuel self2 sorted_tasks waves completed_tasks.
Proof.
  intros Hget Hkeys.
  assert (Hset : (list_to_set (Dict.keys (tasks self1)) : gset string) =
                 list_to_set (Dict.keys (tasks self2))).
  { apply set_eq. intros x. by rewrite !elem_of_list_to_set, Hkeys. }
  induction fuel as [|fuel IH]; intros waves completed; cbn [plan_loop];
    rewrite Hset; [done|].
  case_bool_decide; [done|].
  rewrite (ready_tasks_ext self1 self2 _ _ Hget).
  destruct (ready_tasks self2 sorted_tasks completed) as [av| |]; simpl; try done.
  destruct av as [|a av]; [done|].
  rewrite (pack_wave_ext re_search self1 self2 _ Hget).
  destruct (pack_wave re_search self2 _ [] ∅ completed) as [[wt c']| |]; simpl; try done.
Qed.

Lemma make_summary_ext self1 self2 waves :
  planner_wf self1 -> planner_wf self2 ->
  (forall k, Dict.get (tasks self1) k = Dict.get (tasks self2) k) ->
  Dict.keys (tasks self1) ≡ₚ Dict.keys (tasks self2) ->
  make_summary self1 waves = make_summary self2 waves.
Proof.
  intros Hwf1 Hwf2 Hget Hkeys. unfold make_summary.
  assert (Hlen : length (tasks self1) = length (tasks self2)).
  { rewrite <- !dict_keys_length. by apply Permutation_length. }
  assert (Hsum : sum_Z (map Task.expected_runtime_min (Dict.values (tasks self1))) =
                 sum_Z (map Task.expected_runtime_min (Dict.values (tasks self2)))).
  { rewrite <- (dict_values_runtime self1 (wf_keys_nodup _ Hwf1)).
    rewrite <- (dict_values_runtime self2 (wf_keys_nodup _ Hwf2)).
    rewrite (sum_Z_perm _ _ (Permutation_map (runtime_of self1) Hkeys)).
    f_equal. apply map_ext. intros k. unfold runtime_of. by rewrite Hget. }
  by rewrite Hlen, Hsum.
Qed.

Lemma feed_sound_perm dependencies1 dependencies2 :
  dependencies1 ≡ₚ dependencies2 ->
  feed_sound dependencies1 -> feed_sound dependencies2.
Proof.
  intros Hp [Hclosed Hacyclic].
  assert (Hd : forall a b, feed_depends dependencies2 a b -> feed_depends dependencies1 a b).
  { intros a b (r & Hr & ?). exists r. by rewrite Hp. }
  split.
  - intros a b Hab. destruct (Hclosed a b (Hd a b Hab)) as (r & Hr & ?).
    exists r. by rewrite <- Hp.
  - intros a Hcyc. apply (Hacyclic a).
    eapply (tc_congruence id); [|exact Hcyc]. intros x y. apply Hd.
Qed.

Lemma feeds_have_ids_perm dependencies1 dependencies2 data1 data2 :
  dependencies1 ≡ₚ dependencies2 -> data1 ≡ₚ data2 ->
  feeds_have_ids dependencies1 data1 -> feeds_have_ids dependencies2 data2.
Proof.
  intros Hp Hq [Hd Hc]. split.
  - intros r Hr. apply Hd. by rewrite Hp.
  - intros c Hcin. apply Hc. by rewrite Hq.
Qed.

Lemma load_data_perm_get dependencies1 dependencies2 data1 data2 self1 self2 :
  dependencies1 ≡ₚ dependencies2 -> data1 ≡ₚ data2 ->
  NoDup (map DepRecord.task_id dependencies1) ->
  NoDup (map ConflictRecord.task_id data1) ->
  load_data dependencies1 data1 = Ok self1 ->
  load_data dependencies2 data2 = Ok self2 ->
  (forall k, Dict.get (tasks self1) k = Dict.get (tasks self2) k) /\
  Dict.keys (tasks self1) ≡ₚ Dict.keys (tasks self2).
Proof.
  intros Hp Hq Hnd1 Hnd2 H1 H2.
  assert (Hget : forall k, Dict.get (tasks self1) k = Dict.get (tasks self2) k).
  { intros k. rewrite (load_data_get _ _ _ k H1), (load_data_get _ _ _ k H2).
    unfold last_dep_record, last_conflict_record.
    rewrite (last_filter_perm DepRecord.task_id (Some k) _ _ Hp Hnd1).
    by rewrite (last_filter_perm ConflictRecord.task_id (Some k) _ _ Hq Hnd2). }
  split; [done|].
  apply NoDup_Permutation.
  - apply wf_keys_nodup. by eapply load_data_wf.
  - apply wf_keys_nodup. by eapply load_data_wf.
  - intros k. destruct (load_data_graph _ _ _ H1) as [_ Hk1].
    destruct (load_data_graph _ _ _ H2) as [_ Hk2]. rewrite Hk1, Hk2.
    unfold feed_task. split; intros (r & Hr & ?); exists r; [by rewrite <- Hp|by rewrite Hp].
Qed.

Lemma run_planner_perm re_search order dependencies1 dependencies2 data1 data2 :
  dependencies1 ≡ₚ dependencies2 -> data1 ≡ₚ data2 ->
  NoDup (map DepRecord.task_id dependencies1) ->
  NoDup (map ConflictRecord.task_id data1) ->
  run_planner re_search order dependencies1 data1 =
  run_planner re_search order dependencies2 data2.
Proof.
  intros Hp Hq Hnd1 Hnd2. unfold run_planner.
  pose proof (load_data_outcome dependencies1 data1) as Ho1.
  pose proof (load_data_outcome dependencies2 data2) as Ho2.
  destruct (load_data dependencies1 data1) as [self1|e1|] eqn:H1; [| |done];
    destruct (load_data dependencies2 data2) as [self2|e2|] eqn:H2; try done.
  - simpl.
    pose proof (load_data_wf _ _ _ H1) as Hwf1. pose proof (load_data_wf _ _ _ H2) as Hwf2.
    destruct (load_data_perm_get _ _ _ _ _ _ Hp Hq Hnd1 Hnd2 H1 H2) as [Hget Hkeys].
    pose proof (generate_execution_plan_sound_iff re_search order _ _ _ H1) as Hiff1.
    pose proof (generate_execution_plan_sound_iff re_search order _ _ _ H2) as Hiff2.
    destruct (generate_execution_plan_total re_search order self1 Hwf1) as [[plan1 Hg1]|Hr1];
      destruct (generate_execution_plan_total re_search order self2 Hwf2) as [[plan2 Hg2]|Hr2].
    + rewrite Hg1, Hg2. f_equal.
      pose proof (generate_execution_plan_feed_order _ _ _ _ Hwf1 Hg1) as Hw1.
      pose proof (generate_execution_plan_feed_order _ _ _ _ Hwf2 Hg2) as Hw2.
      destruct (generate_execution_plan_inv _ _ _ _ Hwf1 Hg1) as [_ Hs1].
      destruct (generate_execution_plan_inv _ _ _ _ Hwf2 Hg2) as [_ Hs2].
      assert (Hwaves : ExecutionPlan.waves plan1 = ExecutionPlan.waves plan2).
      { assert (Hlen : length (tasks self1) = length (tasks self2)).
        { rewrite <- !dict_keys_length. by apply Permutation_length. }
        rewrite (plan_loop_ext re_search self1 self2 _ _ Hget Hkeys) in Hw1.
        rewrite (plan_loop_perm re_search self2 _ (Dict.keys (tasks self2)) _ Hwf2 Hkeys) in Hw1.
        - rewrite Hlen in Hw1. congruence.
        - intros t Ht. by rewrite <- Hkeys. }
      destruct plan1 as [w1 s1], plan2 as [w2 s2]. simpl in *. subst.
      f_equal. by apply make_summary_ext.
    + exfalso. assert (Hs : feed_sound dependencies1) by (apply Hiff1; eauto).
      apply (feed_sound_perm _ _ Hp), Hiff2 in Hs as [plan2 Hg2]. congruence.
    + exfalso. assert (Hs : feed_sound dependencies2) by (apply Hiff2; eauto).
      symmetry in Hp. apply (feed_sound_perm _ _ Hp), Hiff1 in Hs as [plan1 Hg1]. congruence.
    + by rewrite Hr1, Hr2.
  - exfalso. destruct Ho2 as [_ Hn]. apply Hn. by eapply feeds_have_ids_perm.
  - exfalso. destruct Ho1 as [_ Hn]. apply Hn.
    symmetry in Hp, Hq. by eapply feeds_have_ids_perm.
  - destruct Ho1 as [-> _], Ho2 as [-> _]. done.
Qed.

(** ** Propagation of the exceptions of the engine *)

Lemma follows_finished {A : Type} engine (v : py A) :
  follows engine (Finished v) v.
Proof. by left. Qed.

Lemma follows_bind {A B : Type} engine (m : run A) (v : py A)
    (f : A -> run B) (g : A -> py B) :
  follows engine m v ->
  (forall a, v = Ok a -> follows engine (f a) (g a)) ->
  follows engine (m ≫= f) (v ≫= g).
Proof.
  intros [->|(e & -> & He)] Hf.
  - destruct v as [a| |]; simpl; [by apply Hf|by left..].
  - right. by exists e.
Qed.


Lemma follows_unraised {A : Type} engine (r : run A) (v : py A) :
  (forall e, ~ raised engine e) -> follows engine r v -> r = Finished v.
Proof. intros Hno [->|(e & _ & He)]; [done|]. by destruct (Hno e). Qed.


Section Propagation.

Variable engine : string -> string -> re_outcome.
Variable re_search : string -> string -> re_result.
Hypothesis Hreturns : returns_of engine re_search.

Lemma try_search_follows pattern text :
  follows engine (Propagating.try_search engine pattern text)
    (Ok (search_or_false (re_search pattern text))).
Proof.
  unfold Propagating.try_search.
  destruct (engine pattern text) as [r|e] eqn:E.
  - left. by rewrite (Hreturns _ _ _ E).
  - right. exists e. split; [done|]. by exists pattern, text.
Qed.

Lemma matches_follows p path :
  follows engine (Propagating.matches engine p path)
    (Ok (matches re_search p path)).
Proof.
  unfold Propagating.matches, matches.
  destruct (String.eqb _ "exact"); [by left|].
  destruct (String.eqb _ "regex"); [apply try_search_follows|].
  destruct (String.eqb _ "glob"); [apply try_search_follows|by left].
Qed.

Lemma probe_counts_follows p1 p2 paths counts :
  follows engine (Propagating.probe_counts engine p1 p2 paths counts)
    (Ok (fold_left
           (fun '(overlap_count, match1_count, match2_count) path =>
              let matches1 := matches re_search p1 path in
              let matches2 := matches re_search p2 path in
              ((if matches1 && matches2 then S overlap_count else overlap_count),
               (if matches1 then S match1_count else match1_count),
               (if matches2 then S match2_count else match2_count)))
           paths counts)).
Proof.
  revert counts. induction paths as [|path rest IH]; intros counts;
    [by left|].
  cbn [Propagating.probe_counts fold_left].
  destruct (matches_follows p1 path) as [->|(e & -> & He)];
    [|right; by exists e].
  destruct (matches_follows p2 path) as [->|(e & -> & He)];
    [|right; by exists e].
  simpl. destruct counts as [[overlap_count match1_count] match2_count].
  apply IH.
Qed.

Lemma generate_and_test_paths_follows p1 p2 base1 base2 :
  follows engine (Propagating._generate_and_test_paths engine p1 p2 base1 base2)
    (Ok (_generate_and_test_paths re_search p1 p2 base1 base2)).
Proof.
  unfold Propagating._generate_and_test_paths, _generate_and_test_paths,
    probe_counts.
  destruct (probe_counts_follows p1 p2 (test_paths base1 base2) (0, 0, 0))
    as [->|(e & -> & He)]; [|right; by exists e].
  simpl. destruct (fold_left _ _ _) as [[overlap_count match1_count] match2_count].
  by left.
Qed.

Lemma check_regex_pattern_overlap_follows p1 p2 :
  follows engine (Propagating._check_regex_pattern_overlap engine p1 p2)
    (Ok (_check_regex_pattern_overlap re_search p1 p2)).
Proof.
  unfold Propagating._check_regex_pattern_overlap, _check_regex_pattern_overlap.
  destruct (_ && _); [by left|]. cbv zeta.
  destruct (path_parts (_extract_base_path (FilePattern.pattern p1)));
    [by left|].
  destruct (path_parts (_extract_base_path (FilePattern.pattern p2)));
    [by left|].
  destruct (bool_decide _); [apply generate_and_test_paths_follows|by left].
Qed.

Lemma patterns_conflict_follows p1 p2 :
  follows engine (Propagating._patterns_conflict engine p1 p2)
    (Ok (_patterns_conflict re_search p1 p2)).
Proof.
  unfold Propagating._patterns_conflict, _patterns_conflict. cbv zeta.
  destruct (_ && _); [by left|].
  destruct (_ && _).
  { destruct (_ && _); [by left|apply check_regex_pattern_overlap_follows]. }
  destruct (_ && _); [apply matches_follows|].
  destruct (_ && _); [apply matches_follows|by left].
Qed.

Lemma first_true_follows {A : Type} (test : A -> run bool) (test' : A -> bool)
    (l : list A) :
  (forall x, x ∈ l -> follows engine (test x) (Ok (test' x))) ->
  follows engine (Propagating.first_true test l) (Ok (existsb test' l)).
Proof.
  induction l as [|x l IH]; intros Hall; [by left|].
  cbn [Propagating.first_true existsb].
  destruct (Hall x (list_elem_of_here _ _)) as [->|(e & -> & He)];
    [|right; by exists e].
  simpl. destruct (test' x); [by left|].
  apply IH. intros y Hy. apply Hall. by right.
Qed.

Lemma check_file_conflict_follows task1 task2 :
  follows engine (Propagating._check_file_conflict engine task1 task2)
    (Ok (_check_file_conflict re_search task1 task2)).
Proof.
  unfold Propagating._check_file_conflict, _check_file_conflict.
  destruct (String.eqb _ _); [by left|].
  destruct (_ || _); [by left|].
  apply first_true_follows. intros p1 _.
  apply first_true_follows. intros p2 _.
  apply patterns_conflict_follows.
Qed.

Lemma can_add_follows self task wave_tasks :
  follows engine (Propagating.can_add engine self task wave_tasks)
    (can_add re_search self task wave_tasks).
Proof.
  induction wave_tasks as [|wt rest IH]; [by left|].
  cbn [Propagating.can_add can_add].
  destruct (Dict.item (tasks self) (WaveTask.task_id wt)) as [selected|e|];
    simpl; [|by left..].
  destruct (check_file_conflict_follows task selected) as [->|(e & -> & He)];
    [|right; by exists e].
  simpl. destruct (_check_file_conflict re_search task selected); [by left|].
  apply IH.
Qed.

Lemma pack_wave_follows self available_tasks wave_tasks used_task_ids
    completed_tasks :
  follows engine
    (Propagating.pack_wave engine self available_tasks wave_tasks
       used_task_ids completed_tasks)
    (pack_wave re_search self available_tasks wave_tasks used_task_ids
       completed_tasks).
Proof.
  revert wave_tasks used_task_ids completed_tasks.
  induction available_tasks as [|task rest IH];
    intros wave_tasks used_task_ids completed_tasks; [by left|].
  cbn [Propagating.pack_wave pack_wave].
  destruct (bool_decide _); [apply IH|].
  apply follows_bind; [apply can_add_follows|].
  intros [|] _; apply IH.
Qed.

Lemma plan_loop_follows fuel self sorted_tasks waves completed_tasks :
  follows engine
    (Propagating.plan_loop engine fuel self sorted_tasks waves completed_tasks)
    (plan_loop re_search fuel self sorted_tasks waves completed_tasks).
Proof.
  revert waves completed_tasks.
  induction fuel as [|fuel IH]; intros waves completed_tasks;
    cbn [Propagating.plan_loop plan_loop];
    (destruct (bool_decide _); [by left|]); [by left|].
  destruct (ready_tasks self sorted_tasks completed_tasks) as [av|e|];
    simpl; [|by left..].
  destruct av as [|t av]; [by left|].
  apply follows_bind; [apply pack_wave_follows|].
  intros [wave_tasks completed'] _. apply IH.
Qed.

Lemma generate_execution_plan_follows order self :
  follows engine (Propagating.generate_execution_plan engine order self)
    (generate_execution_plan re_search order self).
Proof.
  unfold Propagating.generate_execution_plan, generate_execution_plan.
  destruct (_topological_sort_with_priority order self) as [sorted|e|];
    simpl; [|by left..].
  apply follows_bind; [apply plan_loop_follows|].
  intros waves _. by left.
Qed.

Lemma run_planner_follows order dependencies file_patterns_data :
  follows engine
    (Propagating.run_planner engine order dependencies file_patterns_data)
    (run_planner re_search order dependencies file_patterns_data).
Proof.
  unfold Propagating.run_planner, run_planner.
  destruct (load_data dependencies file_patterns_data) as [self|e|];
    simpl; [|by left..].
  apply generate_execution_plan_follows.
Qed.

End Propagation.
(** ** Outcomes of a run with propagation *)







(** * The claims of the specification *)

(** C1, on the code.  [_check_file_conflict] reports a conflict, in both
    directions, when the [conflicts_with] list of either task names the
    other; but [load_data] gives every task an empty list, whatever the
    conflict feed declares, so that no two loaded tasks have a declared
    conflict.  In the three-task feed the record of B declares a conflict
    with A, and the plan is wave 1 = A, B and wave 2 = C (two waves, a
    maximal parallelism of 2), not wave 1 = A and wave 2 = B, C. *)
Theorem loader_drops_declared_conflicts
    (re_search : string -> string -> re_result) (order : set_order) :
  (forall task1 task2,
     Task.task_id task1 <> Task.task_id task2 ->
     explicit_conflict task1 task2 = true ->
     _check_file_conflict re_search task1 task2 = true /\
     _check_file_conflict re_search task2 task1 = true) /\
  (forall dependencies file_patterns_data self k task,
     load_data dependencies file_patterns_data = Ok self ->
     Dict.get (tasks self) k = Some task ->
     Task.conflicts_with task = []) /\
  (forall dependencies file_patterns_data self k1 k2 task1 task2,
     load_data dependencies file_patterns_data = Ok self ->
     Dict.get (tasks self) k1 = Some task1 ->
     Dict.get (tasks self) k2 = Some task2 ->
     explicit_conflict task1 task2 = false) /\
  (exists c, c ∈ three_tasks_conflicts /\
             ConflictRecord.task_id c = Some "B" /\
             "A" ∈ ConflictRecord.conflicts_with c) /\
  (exists plan,
     run_planner re_search order three_tasks_deps three_tasks_conflicts = Ok plan /\
     map wave_ids (ExecutionPlan.waves plan) = [["A"; "B"]; ["C"]] /\
     map wave_ids (ExecutionPlan.waves plan) <> [["A"]; ["B"; "C"]] /\
     Summary.total_waves (ExecutionPlan.summary plan) = 2 /\
     Summary.max_parallelism (ExecutionPlan.summary plan) = 2).
Proof.
  split; [|split; [|split; [|split]]].
  - intros task1 task2 Hne Hex. split; apply explicit_conflict_check; try done.
    by rewrite explicit_conflict_sym.
  - intros dependencies file_patterns_data self k task Hload Hg.
    by apply (load_data_conflicts_with _ _ _ _ _ Hload Hg).
  - intros dependencies file_patterns_data self k1 k2 task1 task2 Hload Hg1 Hg2.
    unfold explicit_conflict.
    by rewrite (load_data_conflicts_with _ _ _ _ _ Hload Hg1),
               (load_data_conflicts_with _ _ _ _ _ Hload Hg2).
  - exists (ConflictRecord.mk (Some "B") ["A"] None).
    split; [right; left|]. split; [reflexivity|left].
  - rewrite (run_planner_order_irrelevant re_search order canonical_order).
    eexists. split; [vm_compute; reflexivity|].
    split; [reflexivity|]. split; [discriminate|]. by split.
Qed.

(** C2, on the code.  The two replacements are chained, so the [*] of the
    [.*] written for [**/] is itself rewritten: the glob [src/**/a.ts]
    becomes the regex [src/.[^/]*a.ts], which does not match
    [src/x/y/a.ts].  (A lone [*] does stand for a run of non-separator
    characters, and a glob that does not compile matches nothing.) *)
Theorem glob_double_star_is_rewritten_twice :
  glob_to_regex "src/**/a.ts" = "src/.[^/]*a.ts" /\
  (forall re_search path,
     matches re_search (FilePattern.mk "src/**/a.ts" "glob") path =
     search_or_false (re_search "src/.[^/]*a.ts" path)) /\
  ReFragment.covers "src/.[^/]*a.ts" "src/x/y/a.ts" = true /\
  matches ReFragment.re_search (FilePattern.mk "src/**/a.ts" "glob")
    "src/x/y/a.ts" = false /\
  matches ReFragment.re_search (FilePattern.mk "src/services/*.ts" "glob")
    "src/services/foo.ts" = true /\
  matches ReFragment.re_search (FilePattern.mk "src/services/*.ts" "glob")
    "src/handlers/foo.ts" = false /\
  ReFragment.re_search (glob_to_regex "src/[") "src/[" = re_error /\
  matches ReFragment.re_search (FilePattern.mk "src/[" "glob") "src/[" = false.
Proof. split_and!; reflexivity. Qed.

(** C3, as the code has it.  For two patterns that count as glob or regex,
    are not both exact paths spelled as regex, and have non-empty literal
    prefixes: the probe of candidate paths is run, and decides, exactly
    when the segments of one prefix are a prefix of the segments of the
    other; otherwise, and so when the prefixes share no leading segment
    but also when they are siblings under a common root, the patterns are
    reported not to overlap.  The probe finds an overlap when a candidate
    matches both patterns, or when each pattern matches a candidate and
    the prefixes share at least three leading segments. *)
Theorem overlap_probe_runs_only_for_nested_prefixes
    (re_search : string -> string -> re_result) (p1 p2 : FilePattern.t) :
  regex_or_glob (actual_type p1) = true ->
  regex_or_glob (actual_type p2) = true ->
  _is_exact_regex (FilePattern.pattern p1)
    && _is_exact_regex (FilePattern.pattern p2) = false ->
  prefix_parts p1 <> [] -> prefix_parts p2 <> [] ->
  let base1 := _extract_base_path (FilePattern.pattern p1) in
  let base2 := _extract_base_path (FilePattern.pattern p2) in
  let probe := _generate_and_test_paths re_search p1 p2 base1 base2 in
  let nested := prefix_parts p1 `prefix_of` prefix_parts p2 \/
                prefix_parts p2 `prefix_of` prefix_parts p1 in
  (common_prefix (prefix_parts p1) (prefix_parts p2) = [] ->
   _patterns_conflict re_search p1 p2 = false) /\
  (nested -> _patterns_conflict re_search p1 p2 = probe) /\
  (~ nested -> _patterns_conflict re_search p1 p2 = false) /\
  (probe = true <->
   (exists path, path ∈ test_paths base1 base2 /\
      matches re_search p1 path = true /\ matches re_search p2 path = true) \/
   ((exists path, path ∈ test_paths base1 base2 /\
       matches re_search p1 path = true) /\
    (exists path, path ∈ test_paths base1 base2 /\
       matches re_search p2 path = true) /\
    3 <= length (common_prefix (prefix_parts p1) (prefix_parts p2)))).
Proof.
  intros Ht1 Ht2 Hexact Hp1 Hp2 base1 base2 probe nested.
  assert (Hne : forall t, regex_or_glob t = true -> String.eqb t "exact" = false).
  { intros t. unfold regex_or_glob.
    destruct (String.eqb_spec t "regex") as [->|_]; [done|].
    destruct (String.eqb_spec t "glob") as [->|_]; done. }
  assert (Hconf : _patterns_conflict re_search p1 p2 =
            if bool_decide
                 (take (Nat.min (length (prefix_parts p1)) (length (prefix_parts p2)))
                    (prefix_parts p1) =
                  take (Nat.min (length (prefix_parts p1)) (length (prefix_parts p2)))
                    (prefix_parts p2))
            then probe else false).
  { unfold _patterns_conflict. rewrite (Hne _ Ht1), Ht1, Ht2, Hexact. simpl.
    unfold _check_regex_pattern_overlap. rewrite Hexact.
    fold base1 base2. unfold prefix_parts in *. fold base1 base2 in Hp1, Hp2 |- *.
    destruct (path_parts base1) as [|a l1]; [done|].
    destruct (path_parts base2) as [|b l2]; [done|]. done. }
  split_and!.
  - intros Hcp. rewrite Hconf, bool_decide_eq_false_2; [done|].
    rewrite take_min_prefix. by apply common_prefix_nil_not_prefix.
  - intros Hn. rewrite Hconf, bool_decide_eq_true_2; [done|].
    by apply take_min_prefix.
  - intros Hn. rewrite Hconf, bool_decide_eq_false_2; [done|].
    by rewrite take_min_prefix.
  - apply generate_and_test_paths_spec.
Qed.

Lemma overlap_probe_witness :
  prefix_parts parent_pattern `prefix_of` prefix_parts child_pattern /\
  _patterns_conflict ReFragment.re_search parent_pattern child_pattern =
  _generate_and_test_paths ReFragment.re_search parent_pattern child_pattern
    "src/services" "src/services/handlers".
Proof.
  assert (Hnested : prefix_parts parent_pattern `prefix_of` prefix_parts child_pattern).
  { exists ["handlers"]. vm_compute. reflexivity. }
  split; [exact Hnested|].
  refine (proj1 (proj2 (overlap_probe_runs_only_for_nested_prefixes
            ReFragment.re_search parent_pattern child_pattern _ _ _ _ _))
            (or_introl Hnested));
    try (vm_compute; reflexivity); vm_compute; discriminate.
Defined.

(** C3, as the specification states it, fails for siblings under a common
    root: the prefixes of [src/app/core/a/.*] and [src/app/core/b/.*]
    share three leading segments and the probe, had it been run, reports
    an overlap, but without running it the code reports none. *)
Lemma sibling_prefixes_skip_the_probe :
  regex_or_glob (actual_type sibling_a) = true /\
  regex_or_glob (actual_type sibling_b) = true /\
  _is_exact_regex (FilePattern.pattern sibling_a)
    && _is_exact_regex (FilePattern.pattern sibling_b) = false /\
  prefix_parts sibling_a = ["src"; "app"; "core"; "a"] /\
  prefix_parts sibling_b = ["src"; "app"; "core"; "b"] /\
  common_prefix (prefix_parts sibling_a) (prefix_parts sibling_b) =
    ["src"; "app"; "core"] /\
  forallb (fun path => ReFragment.covers (FilePattern.pattern sibling_a) path
                       && ReFragment.covers (FilePattern.pattern sibling_b) path)
    (test_paths "src/app/core/a" "src/app/core/b") = true /\
  _generate_and_test_paths ReFragment.re_search sibling_a sibling_b
    "src/app/core/a" "src/app/core/b" = true /\
  _patterns_conflict ReFragment.re_search sibling_a sibling_b = false.
Proof. split_and!; vm_compute; reflexivity. Qed.

(** C4. In every plan that is produced, each loaded task id is in exactly
    one wave (and once in it), and every dependency of a task of wave [n]
    is in a wave whose number is less than [n]. *)
Theorem each_task_in_one_wave_after_its_dependencies
    re_search order dependencies file_patterns_data self plan :
  load_data dependencies file_patterns_data = Ok self ->
  generate_execution_plan re_search order self = Ok plan ->
  waves_partition_tasks self plan /\ waves_follow_dependencies self plan.
Proof.
  intros Hwf%load_data_wf Hplan.
  destruct (generate_execution_plan_inv _ _ _ _ Hwf Hplan) as [Hinv _].
  set (waves := ExecutionPlan.waves plan) in *.
  assert (Hnum : forall w, w ∈ waves ->
            exists i, waves !! i = Some w /\ Wave.wave_number w = i + 1).
  { intros w [i Hi]%list_elem_of_lookup. exists i. split; [done|].
    by eapply plan_inv_wave_number. }
  assert (Hiw : forall i w t, waves !! i = Some w -> t ∈ wave_ids w ->
            in_wave plan t (i + 1)).
  { intros i w t Hi Ht. exists w. split_and!; [|by eapply plan_inv_wave_number|done].
    apply list_elem_of_lookup. eauto. }
  split; [split|].
  - intros t Ht.
    assert (Hin : t ∈ plan_ids waves).
    { apply (elem_of_list_to_set (C := gset string)).
      rewrite <- (pi_completed _ _ _ _ Hinv). by apply elem_of_list_to_set. }
    apply elem_of_plan_ids in Hin as (i & w & Hi & Htw).
    exists (i + 1). split; [by eapply Hiw|].
    intros m (w' & Hw' & <- & Htw').
    destruct (Hnum w' Hw') as (j & Hj & ->).
    by rewrite (flat_map_nodup_unique wave_ids waves j i w' w t (pi_nodup _ _ _ _ Hinv)).
  - intros w Hw. by apply (flat_map_nodup_each wave_ids waves w (pi_nodup _ _ _ _ Hinv)).
  - intros t n task d (w & Hw & <- & Htw) Htask Hd.
    destruct (Hnum w Hw) as (i & Hi & ->).
    unfold wave_ids in Htw.
    apply list_elem_of_fmap in Htw as (wt & -> & [j Hj]%list_elem_of_lookup).
    destruct (wo_tasks _ _ _ _ (pi_waves _ _ _ _ Hinv i w Hi) j wt Hj)
      as (task' & Hg & _ & Hdeps & _).
    assert (task' = task) as -> by congruence.
    apply Hdeps in Hd. apply elem_of_plan_ids in Hd as (k & w' & Hk & Hdw).
    apply lookup_take_Some in Hk as [Hk Hlt].
    exists (k + 1). split; [by eapply Hiw|lia].
Qed.

Lemma each_task_in_one_wave_witness :
  exists self plan,
    load_data three_tasks_deps three_tasks_conflicts = Ok self /\
    generate_execution_plan ReFragment.re_search canonical_order self = Ok plan /\
    waves_partition_tasks self plan /\ waves_follow_dependencies self plan.
Proof.
  eexists _, _. split; [vm_compute; reflexivity|].
  split; [vm_compute; reflexivity|].
  apply (each_task_in_one_wave_after_its_dependencies ReFragment.re_search
           canonical_order three_tasks_deps three_tasks_conflicts);
    vm_compute; reflexivity.
Defined.

(** C5. When the dependencies of the feed contain a cycle, the topological
    sort ends with fewer ids than there are tasks, raises the
    circular-dependency error ([ValueError("Circular dependency
    detected!")], the cycle error of the specification), and no plan is
    produced. *)
Theorem dependency_cycle_raises
    re_search order dependencies file_patterns_data self a :
  load_data dependencies file_patterns_data = Ok self ->
  tc (feed_depends dependencies) a a ->
  (exists result,
     topo_loop order (length (tasks self)) self (initial_in_degree self)
       (List.filter (fun task_id => (degree_get (initial_in_degree self) task_id =? 0)%Z)
          (Dict.keys (tasks self))) [] = Ok result /\
     length result < length (tasks self)) /\
  generate_execution_plan re_search order self =
    Raise (ValueError "Circular dependency detected!") /\
  run_planner re_search order dependencies file_patterns_data =
    Raise (ValueError "Circular dependency detected!").
Proof.
  intros Hload Hcyc.
  pose proof (load_data_wf _ _ _ Hload) as Hwf.
  pose proof (topo_sort_cycle order self a Hwf
                (feed_cycle_in_graph _ _ _ _ _ Hload Hcyc)) as Hsort.
  split; [by apply topo_result_short|].
  assert (Hgen : generate_execution_plan re_search order self =
                 Raise (ValueError "Circular dependency detected!")).
  { unfold generate_execution_plan. by rewrite Hsort. }
  split; [done|]. unfold run_planner. by rewrite Hload.
Qed.

Lemma dependency_cycle_witness :
  exists self,
    load_data cyclic_deps [] = Ok self /\
    tc (feed_depends cyclic_deps) "A" "A" /\
    run_planner ReFragment.re_search canonical_order cyclic_deps [] =
      Raise (ValueError "Circular dependency detected!").
Proof.
  assert (Hcyc : tc (feed_depends cyclic_deps) "A" "A").
  { apply (tc_l _ "A" "B" "A"); [|apply tc_once].
    - exists (dep_record "A" ["B"]). split; [left|]. split; [reflexivity|left].
    - exists (dep_record "B" ["A"]). split; [right; left|]. split; [reflexivity|left]. }
  eexists. split; [vm_compute; reflexivity|]. split; [exact Hcyc|].
  refine (proj2 (proj2 (dependency_cycle_raises ReFragment.re_search
            canonical_order cyclic_deps [] _ "A" _ Hcyc))).
  vm_compute; reflexivity.
Defined.

(** C6. Planning is deterministic: the plan (or the error) does not depend
    on the order in which the sets of dependents are iterated, the only
    part of a run that its input does not fix. *)
Theorem planning_is_deterministic
    re_search order1 order2 dependencies file_patterns_data :
  run_planner re_search order1 dependencies file_patterns_data =
  run_planner re_search order2 dependencies file_patterns_data.
Proof. apply run_planner_order_irrelevant. Qed.

(** C7. In every plan that is produced, the duration of a wave is the
    greatest expected runtime of its tasks (the runtimes the tasks were
    loaded with), not their sum; [parallel_time_min] is the sum of the
    wave durations and [sequential_time_min] the sum of the runtimes of
    all tasks.  The expected runtimes of the data model are positive: when
    none is negative, the parallel time is at most the sequential time, in
    a plan with a wave of more than one task as in any other. *)
Theorem wave_durations_and_parallel_time
    re_search order dependencies file_patterns_data self plan :
  load_data dependencies file_patterns_data = Ok self ->
  generate_execution_plan re_search order self = Ok plan ->
  (forall w, w ∈ ExecutionPlan.waves plan ->
     map WaveTask.expected_runtime_min (Wave.tasks w) =
       map (runtime_of self) (wave_ids w) /\
     is_max (Wave.estimated_wave_time_min w)
       (map WaveTask.expected_runtime_min (Wave.tasks w))) /\
  Summary.parallel_time_min (ExecutionPlan.summary plan) =
    sum_Z (map Wave.estimated_wave_time_min (ExecutionPlan.waves plan)) /\
  Summary.sequential_time_min (ExecutionPlan.summary plan) =
    sum_Z (map Task.expected_runtime_min (Dict.values (tasks self))) /\
  ((forall t, t ∈ Dict.values (tasks self) ->
      (0 <= Task.expected_runtime_min t)%Z) ->
   (Summary.parallel_time_min (ExecutionPlan.summary plan) <=
    Summary.sequential_time_min (ExecutionPlan.summary plan))%Z).
Proof.
  intros Hwf%load_data_wf Hplan.
  destruct (generate_execution_plan_inv _ _ _ _ Hwf Hplan) as [Hinv ->].
  split_and!; [|done|done|].
  - intros w [i Hi]%list_elem_of_lookup.
    pose proof (pi_waves _ _ _ _ Hinv i w Hi) as Hok.
    split; [by eapply wave_runtimes|].
    rewrite (wo_time _ _ _ _ Hok). apply max_default0_is_max.
    intros Hnil%map_eq_nil. by apply (wo_nonempty _ _ _ _ Hok).
  - intros Hpos. simpl.
    rewrite <- (dict_values_runtime self (wf_keys_nodup _ Hwf)).
    rewrite <- (sum_Z_perm _ _ (Permutation_map (runtime_of self)
                                  (plan_ids_perm _ _ _ Hwf Hinv))).
    by eapply plan_time_le_sum.
Qed.

Lemma wave_durations_witness :
  exists self plan,
    load_data timed_deps [] = Ok self /\
    generate_execution_plan ReFragment.re_search canonical_order self = Ok plan /\
    map Wave.estimated_wave_time_min (ExecutionPlan.waves plan) = [30; 5]%Z /\
    Summary.sequential_time_min (ExecutionPlan.summary plan) = 45%Z /\
    (Summary.parallel_time_min (ExecutionPlan.summary plan) <=
     Summary.sequential_time_min (ExecutionPlan.summary plan))%Z.
Proof.
  eexists _, _. split; [vm_compute; reflexivity|].
  split; [vm_compute; reflexivity|].
  split; [reflexivity|]. split; [reflexivity|].
  refine (proj2 (proj2 (proj2 (wave_durations_and_parallel_time
            ReFragment.re_search canonical_order timed_deps [] _ _ _ _))) _);
    [vm_compute; reflexivity|vm_compute; reflexivity|].
  intros t Ht. vm_compute in Ht.
  repeat (apply elem_of_cons in Ht as [->|Ht]; [simpl; lia|]).
  by apply elem_of_nil in Ht.
Defined.

(** C8, as the code has it.  A dependency id that names no task does not
    make loading fail: loading succeeds whenever every record has a
    [task_id], and the reference is recorded.  Planning then fails: the
    topological sort raises [ValueError("Circular dependency detected!")]
    and no plan is produced. *)
Theorem dangling_dependency_fails_at_planning
    re_search order dependencies file_patterns_data a b :
  (forall r, r ∈ dependencies -> DepRecord.task_id r <> None) ->
  (forall c, c ∈ file_patterns_data -> ConflictRecord.task_id c <> None) ->
  feed_depends dependencies a b -> ~ feed_task dependencies b ->
  exists self,
    load_data dependencies file_patterns_data = Ok self /\
    a ∈ Dict.keys (tasks self) /\ depends self a b /\
    generate_execution_plan re_search order self =
      Raise (ValueError "Circular dependency detected!") /\
    run_planner re_search order dependencies file_patterns_data =
      Raise (ValueError "Circular dependency detected!").
Proof.
  intros Hd Hc Hab Hb.
  destruct (load_data_ok _ _ Hd Hc) as [self Hload]. exists self.
  pose proof (load_data_wf _ _ _ Hload) as Hwf.
  destruct (load_data_graph _ _ _ Hload) as [Hdep Hkey].
  assert (Hab' : depends self a b) by (by apply Hdep).
  assert (Hsort : _topological_sort_with_priority order self =
                  Raise (ValueError "Circular dependency detected!")).
  { apply (topo_sort_dangling order self a b Hwf Hab'). by rewrite Hkey. }
  assert (Hgen : generate_execution_plan re_search order self =
                 Raise (ValueError "Circular dependency detected!")).
  { unfold generate_execution_plan. by rewrite Hsort. }
  split_and!; [done|by eapply (wf_dep_key _ Hwf)|done|done|].
  unfold run_planner. by rewrite Hload.
Qed.

Lemma dangling_dependency_witness :
  exists self,
    load_data dangling_deps [] = Ok self /\
    run_planner ReFragment.re_search canonical_order dangling_deps [] =
      Raise (ValueError "Circular dependency detected!").
Proof.
  destruct (dangling_dependency_fails_at_planning ReFragment.re_search
              canonical_order dangling_deps [] "A" "X")
    as (self & Hload & _ & _ & _ & Hrun).
  - intros r Hr. apply list_elem_of_singleton in Hr. by subst r.
  - intros c Hc. by apply elem_of_nil in Hc.
  - exists (dep_record "A" ["X"]). split; [left|]. split; [reflexivity|left].
  - intros Hx%feed_task_dangling_deps. discriminate.
  - exists self. by split.
Defined.

(** C8, as the specification states it, fails: a feed whose only task
    depends on an id that is no task loads without error. *)
Lemma dangling_dependency_loads :
  exists self,
    load_data dangling_deps [] = Ok self /\
    Dict.keys (tasks self) = ["A"] /\
    graph_get (dependency_graph self) "A" = {["X"]}.
Proof.
  eexists. split; [vm_compute; reflexivity|]. split; [reflexivity|].
  vm_compute. reflexivity.
Qed.

(** C9, on the code.  [matches] returns a boolean on every call on which
    [re.search] returns or raises [re.error], and [False] when it raises
    [re.error]; but its handlers name [re.error] only, and an exception of
    another class that [re.search] raises leaves [matches].  The engine
    raises [OverflowError] on the regex [a{99999999999999999999}], whose
    repeat count is beyond its limit, and so does [matches]; a feed with
    such a pattern on one of two ready tasks gets no plan, the run ends
    with [OverflowError]. *)
Theorem matches_lets_engine_exceptions_through :
  (forall engine p path,
     (FilePattern.type p = "exact" ->
      Propagating.matches engine p path =
        Finished (Ok (String.eqb (FilePattern.pattern p) path))) /\
     (FilePattern.type p = "regex" ->
      Propagating.matches engine p path =
        match engine (FilePattern.pattern p) path with
        | re_returns r => Finished (Ok (search_or_false r))
        | re_raises e => Escaped e
        end) /\
     (FilePattern.type p = "glob" ->
      Propagating.matches engine p path =
        match engine (glob_to_regex (FilePattern.pattern p)) path with
        | re_returns r => Finished (Ok (search_or_false r))
        | re_raises e => Escaped e
        end) /\
     (FilePattern.type p <> "exact" -> FilePattern.type p <> "regex" ->
      FilePattern.type p <> "glob" ->
      Propagating.matches engine p path = Finished (Ok false))) /\
  (forall engine re_search p path,
     returns_of engine re_search ->
     (forall e, ~ raised engine e) ->
     Propagating.matches engine p path = Finished (Ok (matches re_search p path))) /\
  ReLimits.re_search "a{99999999999999999999}" "a" = re_raises OverflowError /\
  Propagating.matches ReLimits.re_search overflow_pattern "a" =
    Escaped OverflowError /\
  Propagating.run_planner ReLimits.re_search canonical_order
    overflow_deps overflow_files = Escaped OverflowError.
Proof.
  split; [|split; [|split; [|split]]]; try (vm_compute; reflexivity).
  - intros engine p path. unfold Propagating.matches, Propagating.try_search.
    split; [|split; [|split]].
    + by intros ->.
    + by intros ->.
    + by intros ->.
    + intros He Hr Hg.
      destruct (String.eqb_spec (FilePattern.type p) "exact"); [done|].
      destruct (String.eqb_spec (FilePattern.type p) "regex"); [done|].
      by destruct (String.eqb_spec (FilePattern.type p) "glob").
  - intros engine re_search p path Hret Hno.
    apply (follows_unraised engine); [done|]. by apply matches_follows.
Qed.

(** C10. When one of two tasks has no resource pattern, the pattern loops
    of [_check_file_conflict] find nothing: the tasks conflict only if
    they are distinct and one declares the other.  So a task without
    patterns is admitted to a wave whose tasks it has no declared conflict
    with; the packing loop puts it in the wave it builds when the task is
    among the ready ones; and in a plan it is in the first wave built
    after its dependencies, whatever the patterns of the other tasks of
    that wave.  (Loaded tasks have no declared conflicts.) *)
Theorem empty_pattern_list_gives_no_pattern_conflict
    (re_search : string -> string -> re_result) (task1 task2 : Task.t) :
  Task.file_patterns task1 = [] \/ Task.file_patterns task2 = [] ->
  _check_file_conflict re_search task1 task2 =
    negb (String.eqb (Task.task_id task1) (Task.task_id task2))
    && explicit_conflict task1 task2 /\
  (forall self wave_tasks,
     Task.file_patterns task1 = [] ->
     (forall wt, wt ∈ wave_tasks ->
        exists selected,
          Dict.get (tasks self) (WaveTask.task_id wt) = Some selected /\
          explicit_conflict task1 selected = false) ->
     can_add re_search self task1 wave_tasks = Ok true) /\
  (forall self available_tasks completed_tasks wave_tasks completed_tasks',
     Task.file_patterns task1 = [] ->
     pack_wave re_search self available_tasks [] ∅ completed_tasks =
       Ok (wave_tasks, completed_tasks') ->
     task1 ∈ available_tasks ->
     (forall wt selected, wt ∈ wave_tasks ->
        Dict.get (tasks self) (WaveTask.task_id wt) = Some selected ->
        explicit_conflict task1 selected = false) ->
     Task.task_id task1 ∈ map WaveTask.task_id wave_tasks) /\
  (forall order self plan i w,
     Task.file_patterns task1 = [] ->
     planner_wf self ->
     generate_execution_plan re_search order self = Ok plan ->
     ExecutionPlan.waves plan !! i = Some w ->
     Dict.get (tasks self) (Task.task_id task1) = Some task1 ->
     (forall d, d ∈ Task.depends_on task1 ->
        d ∈ plan_ids (take i (ExecutionPlan.waves plan))) ->
     Task.task_id task1 ∉ plan_ids (take i (ExecutionPlan.waves plan)) ->
     (forall wt selected, wt ∈ Wave.tasks w ->
        Dict.get (tasks self) (WaveTask.task_id wt) = Some selected ->
        explicit_conflict task1 selected = false) ->
     Task.task_id task1 ∈ wave_ids w) /\
  (forall order dependencies file_patterns_data self plan i w,
     Task.file_patterns task1 = [] ->
     load_data dependencies file_patterns_data = Ok self ->
     generate_execution_plan re_search order self = Ok plan ->
     ExecutionPlan.waves plan !! i = Some w ->
     Dict.get (tasks self) (Task.task_id task1) = Some task1 ->
     (forall d, d ∈ Task.depends_on task1 ->
        d ∈ plan_ids (take i (ExecutionPlan.waves plan))) ->
     Task.task_id task1 ∉ plan_ids (take i (ExecutionPlan.waves plan)) ->
     Task.task_id task1 ∈ wave_ids w).
Proof.
  intros Hempty.
  assert (Hcheck : forall t1 t2,
    Task.file_patterns t1 = [] \/ Task.file_patterns t2 = [] ->
    _check_file_conflict re_search t1 t2 =
      negb (String.eqb (Task.task_id t1) (Task.task_id t2))
      && explicit_conflict t1 t2).
  { intros t1 t2 H. unfold _check_file_conflict, explicit_conflict.
    destruct (String.eqb (Task.task_id t1) (Task.task_id t2)); [done|].
    destruct (list_mem _ _ || list_mem _ _); [done|]. simpl.
    destruct H as [-> | ->]; [done|].
    induction (Task.file_patterns t1) as [|p ps IH]; [done|]. simpl. exact IH. }
  assert (Hplan : forall order self plan i w,
     Task.file_patterns task1 = [] ->
     planner_wf self ->
     generate_execution_plan re_search order self = Ok plan ->
     ExecutionPlan.waves plan !! i = Some w ->
     Dict.get (tasks self) (Task.task_id task1) = Some task1 ->
     (forall d, d ∈ Task.depends_on task1 ->
        d ∈ plan_ids (take i (ExecutionPlan.waves plan))) ->
     Task.task_id task1 ∉ plan_ids (take i (ExecutionPlan.waves plan)) ->
     (forall wt selected, wt ∈ Wave.tasks w ->
        Dict.get (tasks self) (WaveTask.task_id wt) = Some selected ->
        explicit_conflict task1 selected = false) ->
     Task.task_id task1 ∈ wave_ids w).
  { intros order self plan i w Hnil Hwf Hgen Hi Hg Hdeps Hnew Hex.
    destruct (decide (Task.task_id task1 ∈
                plan_ids (take (S i) (ExecutionPlan.waves plan)))) as [Hin|Hout].
    - rewrite (take_S_r _ _ _ Hi) in Hin. unfold plan_ids in Hin.
      rewrite flat_map_app in Hin. simpl in Hin. rewrite app_nil_r in Hin.
      apply elem_of_app in Hin as [Hin|Hin]; [by destruct Hnew|done].
    - exfalso.
      destruct (plan_maximal re_search order self plan i w _ task1
                  Hwf Hgen Hi Hg Hdeps Hout) as (wt & st & Hwt & Hst & Hc).
      rewrite (Hcheck task1 st (or_introl Hnil)), (Hex wt st Hwt Hst) in Hc.
      by rewrite andb_false_r in Hc. }
  split; [by apply Hcheck|]. split; [|split; [|split]].
  - intros self wave_tasks Hnil. induction wave_tasks as [|wt rest IH]; intros Hsel;
      cbn [can_add]; [done|].
    destruct (Hsel wt (list_elem_of_here _ _)) as (selected & Hg & Hex).
    unfold Dict.item. rewrite Hg. simpl.
    rewrite (Hcheck task1 selected (or_introl Hnil)), Hex, andb_false_r.
    apply IH. intros; apply Hsel; by right.
  - intros self available_tasks completed_tasks wave_tasks completed_tasks'
      Hnil Hpack Hav Hex.
    destruct (pack_wave_rejected re_search self available_tasks [] ∅ completed_tasks
                wave_tasks completed_tasks' eq_refl Hpack task1 Hav)
      as [Hin|(wt & st & Hwt & Hst & Hc)]; [done|].
    rewrite (Hcheck task1 st (or_introl Hnil)), (Hex wt st Hwt Hst) in Hc.
    by rewrite andb_false_r in Hc.
  - exact Hplan.
  - intros order dependencies file_patterns_data self plan i w
      Hnil Hload Hgen Hi Hg Hdeps Hnew.
    apply (Hplan order self plan i w Hnil (load_data_wf _ _ _ Hload)
             Hgen Hi Hg Hdeps Hnew).
    intros wt selected _ Hsel. unfold explicit_conflict.
    by rewrite (load_data_conflicts_with _ _ _ _ _ Hload Hg),
               (load_data_conflicts_with _ _ _ _ _ Hload Hsel).
Qed.

Lemma empty_pattern_list_witness :
  exists self plan w,
    load_data mixed_deps mixed_files = Ok self /\
    generate_execution_plan ReFragment.re_search canonical_order self = Ok plan /\
    ExecutionPlan.waves plan !! 0 = Some w /\
    Dict.get (tasks self) "A" = Some patternless_task /\
    Dict.get (tasks self) "B" = Some globbed_task /\
    Task.file_patterns patternless_task = [] /\
    _check_file_conflict ReFragment.re_search patternless_task globbed_task = false /\
    "A" ∈ wave_ids w /\ "B" ∈ wave_ids w.
Proof.
  eexists _, _, _. split; [vm_compute; reflexivity|].
  split; [vm_compute; reflexivity|]. split; [reflexivity|].
  split; [reflexivity|]. split; [reflexivity|]. split; [reflexivity|].
  pose proof (empty_pattern_list_gives_no_pattern_conflict
                ReFragment.re_search patternless_task globbed_task
                (or_introl eq_refl)) as (Hcheck & _ & _ & _ & Hplan).
  split; [exact Hcheck|]. split.
  - refine (Hplan canonical_order mixed_deps mixed_files _ _ 0 _ eq_refl _ _ _ _ _ _).
    + vm_compute; reflexivity.
    + vm_compute; reflexivity.
    + reflexivity.
    + reflexivity.
    + intros d Hd. by apply elem_of_nil in Hd.
    + intros Hin. by apply elem_of_nil in Hin.
  - right. left.
Defined.

(** * Further properties of the planner *)


(** X2. In a plan, no two tasks of one wave conflict, whichever of the two
    is asked first: the packing loop tests a task only against the tasks
    selected before it, and the symmetry of the test covers the other
    direction. *)
Theorem no_two_tasks_of_a_wave_conflict
    re_search order dependencies file_patterns_data self plan w s1 s2 t1 t2 :
  load_data dependencies file_patterns_data = Ok self ->
  generate_execution_plan re_search order self = Ok plan ->
  w ∈ ExecutionPlan.waves plan ->
  s1 ∈ wave_ids w -> s2 ∈ wave_ids w ->
  Dict.get (tasks self) s1 = Some t1 -> Dict.get (tasks self) s2 = Some t2 ->
  _check_file_conflict re_search t1 t2 = false.
Proof. intros Hwf%load_data_wf. by apply plan_wave_conflict_free. Qed.

Lemma no_two_tasks_of_a_wave_conflict_witness :
  exists self plan w t1 t2,
    load_data overlap_deps overlap_files = Ok self /\
    generate_execution_plan ReFragment.re_search canonical_order self = Ok plan /\
    ExecutionPlan.waves plan !! 0 = Some w /\
    wave_ids w = ["A"; "C"] /\
    Dict.get (tasks self) "C" = Some t1 /\ Dict.get (tasks self) "A" = Some t2 /\
    _check_file_conflict ReFragment.re_search t1 t2 = false.
Proof.
  eexists _, _, _, _, _.
  split; [vm_compute; reflexivity|]. split; [vm_compute; reflexivity|].
  split; [reflexivity|]. split; [reflexivity|].
  split; [reflexivity|]. split; [reflexivity|].
  eapply (no_two_tasks_of_a_wave_conflict ReFragment.re_search canonical_order
            overlap_deps overlap_files _ _ _ "C" "A");
    [vm_compute; reflexivity|vm_compute; reflexivity|left|right; left|left
    |reflexivity|reflexivity].
Defined.

(** X3. Greedy packing is maximal.  A task that is ready when a wave is
    built (each of its dependencies is in an earlier wave) and that the
    plan schedules later than this wave conflicts with a task of the
    wave. *)
Theorem ready_task_left_out_conflicts
    re_search order dependencies file_patterns_data self plan w k task :
  load_data dependencies file_patterns_data = Ok self ->
  generate_execution_plan re_search order self = Ok plan ->
  w ∈ ExecutionPlan.waves plan ->
  Dict.get (tasks self) k = Some task ->
  (forall d, d ∈ Task.depends_on task ->
     exists m, in_wave plan d m /\ m < Wave.wave_number w) ->
  (forall m, in_wave plan k m -> Wave.wave_number w < m) ->
  exists s st, s ∈ wave_ids w /\ Dict.get (tasks self) s = Some st /\
    _check_file_conflict re_search task st = true.
Proof.
  intros Hwf%load_data_wf Hplan [i Hi]%list_elem_of_lookup Hg Hdeps Hlater.
  destruct (generate_execution_plan_inv _ _ _ _ Hwf Hplan) as [Hinv _].
  pose proof (plan_inv_wave_number _ _ _ _ _ _ Hinv Hi) as Hnum.
  destruct (plan_maximal re_search order self plan i w k task Hwf Hplan Hi Hg)
    as (wt & st & Hwt & Hst & Hc).
  - intros d (m & Hm & Hlt)%Hdeps.
    apply (in_wave_index _ _ _ _ _ _ Hinv) in Hm as (j & w' & Hj & -> & Hd).
    apply elem_of_plan_ids_take. exists j, w'. split_and!; [done|lia|done].
  - intros (j & w' & Hj & Hlt & Hk)%elem_of_plan_ids_take.
    assert (Hin : in_wave plan k (j + 1)).
    { apply (in_wave_index _ _ _ _ _ _ Hinv). by exists j, w'. }
    apply Hlater in Hin. lia.
  - exists (WaveTask.task_id wt), st. split_and!; [|done|done].
    unfold wave_ids. apply list_elem_of_fmap. by exists wt.
Qed.

Lemma ready_task_left_out_conflicts_witness :
  exists self plan w task,
    load_data overlap_deps overlap_files = Ok self /\
    generate_execution_plan ReFragment.re_search canonical_order self = Ok plan /\
    map wave_ids (ExecutionPlan.waves plan) = [["A"; "C"]; ["B"]] /\
    ExecutionPlan.waves plan !! 0 = Some w /\
    Dict.get (tasks self) "B" = Some task /\
    exists s st, s ∈ wave_ids w /\ Dict.get (tasks self) s = Some st /\
      _check_file_conflict ReFragment.re_search task st = true.
Proof.
  eexists _, _, _, _.
  split; [vm_compute; reflexivity|]. split; [vm_compute; reflexivity|].
  split; [reflexivity|]. split; [reflexivity|]. split; [reflexivity|].
  eapply (ready_task_left_out_conflicts ReFragment.re_search canonical_order
            overlap_deps overlap_files _ _ _ "B");
    [vm_compute; reflexivity|vm_compute; reflexivity|left|reflexivity| |].
  - intros d Hd. by apply elem_of_nil in Hd.
  - intros m (w' & Hw' & <- & Hk). cbn in Hw'.
    apply elem_of_cons in Hw' as [->|Hw'].
    { vm_compute in Hk. exfalso.
      repeat (apply elem_of_cons in Hk as [Hk|Hk]; [discriminate|]).
      by apply elem_of_nil in Hk. }
    apply list_elem_of_singleton in Hw' as ->. cbn. lia.
Defined.

(** X4. No task waits without a reason.  A task of wave [n + 2] has a
    dependency in wave [n + 1], or conflicts with a task of wave [n + 1]:
    otherwise it would have been packed one wave earlier. *)
Theorem task_waits_only_for_dependency_or_conflict
    re_search order dependencies file_patterns_data self plan k task n :
  load_data dependencies file_patterns_data = Ok self ->
  generate_execution_plan re_search order self = Ok plan ->
  in_wave plan k (S (S n)) ->
  Dict.get (tasks self) k = Some task ->
  (exists d, d ∈ Task.depends_on task /\ in_wave plan d (S n)) \/
  (exists s st, in_wave plan s (S n) /\ Dict.get (tasks self) s = Some st /\
     _check_file_conflict re_search task st = true).
Proof. intros Hwf%load_data_wf. by apply plan_no_idle_wait. Qed.

Lemma task_waits_only_for_dependency_or_conflict_witness :
  exists self plan task,
    load_data overlap_deps overlap_files = Ok self /\
    generate_execution_plan ReFragment.re_search canonical_order self = Ok plan /\
    in_wave plan "B" 2 /\
    Dict.get (tasks self) "B" = Some task /\
    ((exists d, d ∈ Task.depends_on task /\ in_wave plan d 1) \/
     (exists s st, in_wave plan s 1 /\ Dict.get (tasks self) s = Some st /\
        _check_file_conflict ReFragment.re_search task st = true)).
Proof.
  eexists _, _, _.
  split; [vm_compute; reflexivity|]. split; [vm_compute; reflexivity|].
  assert (Hin : forall plan w, ExecutionPlan.waves plan !! 1 = Some w ->
            Wave.wave_number w = 2 -> "B" ∈ wave_ids w -> in_wave plan "B" 2).
  { intros plan w Hw Hn Hb. exists w. split_and!; [|done|done].
    apply list_elem_of_lookup. eauto. }
  split; [eapply Hin; [reflexivity|reflexivity|left]|].
  split; [reflexivity|].
  eapply (task_waits_only_for_dependency_or_conflict ReFragment.re_search
            canonical_order overlap_deps overlap_files _ _ "B");
    [vm_compute; reflexivity|vm_compute; reflexivity| |reflexivity].
  eapply Hin; [reflexivity|reflexivity|left].
Defined.

(** X5. When the topological sort succeeds, its result lists every task id
    once, each id after the ids it depends on, and each id was the first
    in the priority order (more dependents first, then the smaller id)
    among the tasks that were ready at that point, that is, not yet listed
    and with all dependencies listed. *)
Theorem topological_sort_is_priority_greedy
    order dependencies file_patterns_data self sorted_tasks :
  load_data dependencies file_patterns_data = Ok self ->
  _topological_sort_with_priority order self = Ok sorted_tasks ->
  sorted_tasks ≡ₚ Dict.keys (tasks self) /\
  (forall i t d, sorted_tasks !! i = Some t -> depends self t d ->
     exists j, j < i /\ sorted_tasks !! j = Some d) /\
  (forall i t t', sorted_tasks !! i = Some t ->
     t' ∈ Dict.keys (tasks self) -> t' ∉ take i sorted_tasks ->
     (forall d, depends self t' d -> d ∈ take i sorted_tasks) ->
     priority_le self t t') /\
  (forall k task, Dict.get (tasks self) k = Some task ->
     _get_task_priority self task = priority self k).
Proof.
  intros Hwf%load_data_wf Hsort.
  destruct (topo_sort_greedy order self sorted_tasks Hwf Hsort) as (H1 & H2 & H3).
  split_and!; [done..|]. intros k task. by apply get_task_priority_eq.
Qed.

Lemma topological_sort_is_priority_greedy_witness :
  exists self,
    load_data priority_deps [] = Ok self /\
    _topological_sort_with_priority canonical_order self = Ok ["B"; "A"; "C"] /\
    priority_le self "B" "A".
Proof.
  eexists. split; [vm_compute; reflexivity|]. split; [vm_compute; reflexivity|].
  refine (proj1 (proj2 (proj2 (topological_sort_is_priority_greedy canonical_order
            priority_deps [] _ ["B"; "A"; "C"] _ _))) 0 "B" "A" _ _ _ _);
    try (vm_compute; reflexivity).
  - left.
  - by intros ?%elem_of_nil.
  - intros d Hd. vm_compute in Hd. discriminate.
Defined.



(** X7. The waves do not depend on the order the topological sort
    returns, only on the ids it returns: the ready tasks of each wave are
    re-sorted by [(len(conflicts_with), task_id)] before packing, so the
    wave loop gives the same result for every arrangement of
    [sorted_tasks]; in particular a plan that is produced is the one the
    wave loop builds from the task ids in feed order. *)
Theorem wave_packing_ignores_topological_order
    re_search dependencies file_patterns_data self sorted1 sorted2 :
  load_data dependencies file_patterns_data = Ok self ->
  sorted1 ≡ₚ sorted2 ->
  (forall t, t ∈ sorted1 -> t ∈ Dict.keys (tasks self)) ->
  (forall fuel waves completed_tasks,
     plan_loop re_search fuel self sorted1 waves completed_tasks =
     plan_loop re_search fuel self sorted2 waves completed_tasks) /\
  (forall order plan,
     generate_execution_plan re_search order self = Ok plan ->
     plan_loop re_search (length (tasks self)) self (Dict.keys (tasks self)) [] ∅ =
     Ok (ExecutionPlan.waves plan)).
Proof.
  intros Hwf%load_data_wf Hp Hk. split.
  - intros fuel. by apply plan_loop_perm.
  - intros order plan. by apply generate_execution_plan_feed_order.
Qed.

Lemma wave_packing_ignores_topological_order_witness :
  exists self,
    load_data priority_deps [] = Ok self /\
    plan_loop ReFragment.re_search 3 self ["B"; "A"; "C"] [] ∅ =
    plan_loop ReFragment.re_search 3 self ["C"; "A"; "B"] [] ∅.
Proof.
  eexists. split; [vm_compute; reflexivity|].
  refine (proj1 (wave_packing_ignores_topological_order ReFragment.re_search
            priority_deps [] _ ["B"; "A"; "C"] ["C"; "A"; "B"] _ _ _) 3 [] ∅).
  - vm_compute; reflexivity.
  - apply (Permutation_rev ["B"; "A"; "C"]).
  - intros t Ht. vm_compute.
    repeat (apply elem_of_cons in Ht as [->|Ht]; [set_solver|]).
    by apply elem_of_nil in Ht.
Defined.

(** X8. In a plan of loaded feeds the tasks of each wave are listed in
    increasing order of their ids (compared as Python strings): every
    loaded task has an empty [conflicts_with], so the packing order
    [(len(conflicts_with), task_id)] is the order of the ids. *)
Theorem wave_tasks_are_listed_by_id
    re_search order dependencies file_patterns_data self plan w i j wi wj :
  load_data dependencies file_patterns_data = Ok self ->
  generate_execution_plan re_search order self = Ok plan ->
  w ∈ ExecutionPlan.waves plan ->
  Wave.tasks w !! i = Some wi -> Wave.tasks w !! j = Some wj -> i < j ->
  PyStr.lt (WaveTask.task_id wi) (WaveTask.task_id wj) = true.
Proof.
  intros Hload. apply plan_wave_id_order; [by eapply load_data_wf|].
  intros k t. by apply (load_data_conflicts_with _ _ _ _ _ Hload).
Qed.

Lemma wave_tasks_are_listed_by_id_witness :
  exists self plan w wi wj,
    load_data overlap_deps overlap_files = Ok self /\
    generate_execution_plan ReFragment.re_search canonical_order self = Ok plan /\
    ExecutionPlan.waves plan !! 0 = Some w /\
    Wave.tasks w !! 0 = Some wi /\ Wave.tasks w !! 1 = Some wj /\
    WaveTask.task_id wi = "A" /\ WaveTask.task_id wj = "C" /\
    PyStr.lt (WaveTask.task_id wi) (WaveTask.task_id wj) = true.
Proof.
  eexists _, _, _, _, _.
  split; [vm_compute; reflexivity|]. split; [vm_compute; reflexivity|].
  split; [reflexivity|]. split; [reflexivity|]. split; [reflexivity|].
  split; [reflexivity|]. split; [reflexivity|].
  eapply (wave_tasks_are_listed_by_id ReFragment.re_search canonical_order
            overlap_deps overlap_files _ _ _ 0 1);
    [vm_compute; reflexivity|vm_compute; reflexivity|left|reflexivity|reflexivity|lia].
Defined.

(** X9. The counts of a plan agree with its waves.  The waves are
    numbered 1, 2, ... in order, none is empty, and
    [parallel_task_count] is the number of tasks of the wave and
    [size_distribution] their distribution; [total_waves] is the number of
    waves, [total_tasks] the number of loaded tasks, which is the sum of
    the wave counts; [max_parallelism] is the greatest wave count (0 for
    a plan without waves); and there are at most as many waves as
    tasks. *)
Theorem summary_counts_agree_with_waves
    re_search order dependencies file_patterns_data self plan :
  load_data dependencies file_patterns_data = Ok self ->
  generate_execution_plan re_search order self = Ok plan ->
  let waves := ExecutionPlan.waves plan in
  let summary := ExecutionPlan.summary plan in
  (forall i w, waves !! i = Some w ->
     Wave.wave_number w = i + 1 /\
     Wave.parallel_task_count w = length (Wave.tasks w) /\
     1 <= Wave.parallel_task_count w /\
     Wave.size_distribution w = _get_size_distribution (Wave.tasks w)) /\
  Summary.total_waves summary = length waves /\
  Summary.total_tasks summary = length (Dict.keys (tasks self)) /\
  Summary.total_tasks summary = list_sum (map Wave.parallel_task_count waves) /\
  Summary.total_waves summary <= Summary.total_tasks summary /\
  (forall w, w ∈ waves ->
     Wave.parallel_task_count w <= Summary.max_parallelism summary) /\
  (waves <> [] ->
     exists w, w ∈ waves /\
       Wave.parallel_task_count w = Summary.max_parallelism summary) /\
  (waves = [] -> Summary.max_parallelism summary = 0) /\
  Summary.max_parallelism summary <= Summary.total_tasks summary.
Proof.
  intros Hwf%load_data_wf Hplan waves summary.
  destruct (generate_execution_plan_facts _ _ _ _ Hwf Hplan)
    as (Hinv & sorted & _ & Hbuilt).
  destruct (generate_execution_plan_inv _ _ _ _ Hwf Hplan) as [_ Hsum].
  destruct (plan_counts re_search self waves Hwf Hinv)
    as (Hw & Htot & Hlen & Hmax & Hmax' & Hmaxle).
  unfold summary. rewrite Hsum. fold waves. cbn [make_summary Summary.total_waves
    Summary.total_tasks Summary.max_parallelism].
  split_and!; try done.
  - intros i w Hi. destruct (Hw i w Hi) as (? & ? & ?). split_and!; try done.
    destruct (Hbuilt i w Hi) as (_ & _ & _ & _ & _ & Heq).
    rewrite Heq at 1. done.
  - by rewrite dict_keys_length.
  - by intros ->.
Qed.

Lemma summary_counts_agree_with_waves_witness :
  exists self plan,
    load_data overlap_deps overlap_files = Ok self /\
    generate_execution_plan ReFragment.re_search canonical_order self = Ok plan /\
    map Wave.parallel_task_count (ExecutionPlan.waves plan) = [2; 1] /\
    Summary.total_tasks (ExecutionPlan.summary plan) = 3 /\
    Summary.max_parallelism (ExecutionPlan.summary plan) = 2 /\
    Summary.total_waves (ExecutionPlan.summary plan) <=
      Summary.total_tasks (ExecutionPlan.summary plan).
Proof.
  eexists _, _.
  split; [vm_compute; reflexivity|]. split; [vm_compute; reflexivity|].
  split; [reflexivity|]. split; [reflexivity|]. split; [reflexivity|].
  refine (proj1 (proj2 (proj2 (proj2 (proj2 (summary_counts_agree_with_waves
            ReFragment.re_search canonical_order overlap_deps overlap_files
            _ _ _ _))))));
    vm_compute; reflexivity.
Defined.

(** X10. The size distribution of a list of wave tasks maps each size
    that occurs to the number of tasks of that size and has no entry for
    a size that does not occur; no size is listed twice, and the counts
    add up to the number of tasks. *)
Theorem size_distribution_counts_tasks (tasks : list WaveTask.t) :
  (forall size,
     Dict.get (_get_size_distribution tasks) size =
     let n := length (List.filter
                        (fun t => String.eqb (WaveTask.size t) size) tasks) in
     if (n =? 0)%nat then None else Some n) /\
  NoDup (Dict.keys (_get_size_distribution tasks)) /\
  list_sum (Dict.values (_get_size_distribution tasks)) = length tasks.
Proof.
  destruct (size_distribution_fold tasks []) as (Hget & Hnd & Hsum).
  split_and!.
  - intros size. apply Hget.
  - apply Hnd. constructor.
  - apply Hsum.
Qed.


(** X12. What loading stores.  The task kept for an id is built from the
    last record of the dependency feed with that id, with the defaults
    size M, 20 minutes, no dependencies, no tags, not an enabler, always
    an empty [conflicts_with], and the patterns of the last record of the
    conflict feed with that id (none when there is no such record).  The
    dependency graph holds the dependencies of every record with the id,
    not only of the last one, and the reverse graph is its transpose. *)
Theorem loaded_registry_content dependencies file_patterns_data self :
  load_data dependencies file_patterns_data = Ok self ->
  (forall k,
     Dict.get (tasks self) k =
     match last_dep_record dependencies k with
     | Some r =>
         Some (Task.mk k
                 (default "M" (DepRecord.size r))
                 (default 20%Z (DepRecord.expected_runtime_min r))
                 (default [] (DepRecord.depends_on r))
                 []
                 match last_conflict_record file_patterns_data k with
                 | Some c =>
                     flat_map file_patterns_of (default [] (ConflictRecord.files c))
                 | None => []
                 end
                 (default [] (DepRecord.tags r))
                 (default false (DepRecord.enabler r)))
     | None => None
     end) /\
  NoDup (Dict.keys (tasks self)) /\
  (forall a b, depends self a b <-> feed_depends dependencies a b) /\
  (forall a b, a ∈ graph_get (reverse_dependency_graph self) b <->
               feed_depends dependencies a b).
Proof.
  intros Hload. pose proof (load_data_wf _ _ _ Hload) as Hwf.
  destruct (load_data_graph _ _ _ Hload) as [Hdep _].
  split_and!.
  - intros k. by apply load_data_get.
  - apply (wf_keys_nodup _ Hwf).
  - done.
  - intros a b. rewrite (wf_transpose _ Hwf). apply Hdep.
Qed.

Lemma loaded_registry_content_witness :
  exists self,
    load_data duplicate_deps [] = Ok self /\
    Dict.get (tasks self) "A" = Some (Task.mk "A" "M" 7 [] [] [] [] false) /\
    depends self "A" "X".
Proof.
  eexists. split; [vm_compute; reflexivity|].
  destruct (loaded_registry_content duplicate_deps [] _ eq_refl) as (Hget & _ & Hdep & _).
  split.
  - rewrite Hget. reflexivity.
  - apply Hdep. exists (timed_record "A" 5 ["X"]).
    split; [left|]. split; [reflexivity|left].
Defined.

(** X13. A legacy file entry (a plain string) becomes a glob pattern
    exactly when it contains [**]; the second test of the code,
    [endswith('/**')], never decides, since such a string contains [**].
    Every other string, also one with a single [*], becomes an exact
    pattern, which matches a path only when the two are equal, whatever
    the engine. *)
Theorem legacy_file_entry_is_glob_iff_double_star (s : string) :
  file_patterns_of (FileStr s) =
    [FilePattern.mk s (if PyStr.contains "**" s then "glob" else "exact")] /\
  (PyStr.endswith s "/**" = true -> PyStr.contains "**" s = true) /\
  (PyStr.contains "**" s = false ->
   forall re_search path,
     map (fun p => matches re_search p path) (file_patterns_of (FileStr s)) =
     [String.eqb s path]).
Proof.
  assert (Hkind : file_patterns_of (FileStr s) =
    [FilePattern.mk s (if PyStr.contains "**" s then "glob" else "exact")]).
  { cbn [file_patterns_of].
    destruct (PyStr.contains "**" s) eqn:Hc; [done|]. simpl.
    destruct (PyStr.endswith s "/**") eqn:He; [|done].
    apply endswith_contains in He. congruence. }
  split_and!; [done|apply endswith_contains|].
  intros Hc re_search path. rewrite Hkind, Hc. reflexivity.
Qed.

(** X14. The base path of a pattern without a newline is the text before
    its first special character (one of [. * [ ] ( ) ? + { } \]), without
    the slashes that end it: the pattern is the base path, then slashes,
    then nothing or a rest that starts with a special character; the base
    path has no special character and does not end with a slash. *)
Theorem base_path_is_literal_prefix (pattern : string) :
  newline ∉ chars pattern ->
  exists slashes rest,
    pattern = _extract_base_path pattern ++ slashes ++ rest /\
    (forall c, c ∈ chars (_extract_base_path pattern) -> is_base_meta c = false) /\
    (forall c, c ∈ chars slashes -> c = "/"%char) /\
    PyStr.endswith (_extract_base_path pattern) "/" = false /\
    (rest = "" \/ exists c rest', rest = String c rest' /\ is_base_meta c = true).
Proof. apply extract_base_path_split. Qed.

Lemma base_path_is_literal_prefix_witness :
  _extract_base_path "src/services/handlers/.*\.ts" = "src/services/handlers" /\
  exists slashes rest,
    "src/services/handlers/.*\.ts" =
      _extract_base_path "src/services/handlers/.*\.ts" ++ slashes ++ rest /\
    (forall c, c ∈ chars slashes -> c = "/"%char) /\
    (rest = "" \/ exists c rest', rest = String c rest' /\ is_base_meta c = true).
Proof.
  split; [reflexivity|].
  destruct (base_path_is_literal_prefix "src/services/handlers/.*\.ts")
    as (slashes & rest & H1 & _ & H3 & _ & H5).
  - vm_compute. intros Hin.
    repeat (apply elem_of_cons in Hin as [Hin|Hin]; [discriminate|]).
    by apply elem_of_nil in Hin.
  - exists slashes, rest. by split_and!.
Defined.

(** X15. A pattern that begins with the anchor [^] is never found to
    overlap a pattern without [^], unless both are exact paths spelled as
    regex: the anchor stays in the first segment of the base path, so the
    two base paths differ in their first segment and the candidate probe
    is not run.  (The other pattern is of kind regex or glob and has a
    non-empty base path.) *)
Theorem anchored_pattern_never_overlaps_unanchored
    (re_search : string -> string -> re_result) (p1 p2 : FilePattern.t)
    (rest : string) :
  FilePattern.pattern p1 = String "^" rest ->
  PyStr.contains "^" (FilePattern.pattern p2) = false ->
  regex_or_glob (actual_type p2) = true ->
  _is_exact_regex (FilePattern.pattern p1)
    && _is_exact_regex (FilePattern.pattern p2) = false ->
  prefix_parts p2 <> [] ->
  _patterns_conflict re_search p1 p2 = false /\
  _patterns_conflict re_search p2 p1 = false.
Proof.
  intros H1 H2 Ht2 Hexact Hne.
  assert (Hconf : _patterns_conflict re_search p1 p2 = false).
  { assert (Ht1 : actual_type p1 = "regex").
    { unfold actual_type. rewrite H1.
      assert (PyStr.contains "^" (String "^" rest) = true) as ->; [|by rewrite !orb_true_r].
      cbn [PyStr.contains]. by rewrite prefix_char. }
    unfold _patterns_conflict. rewrite Ht1, Ht2, Hexact. simpl.
    by eapply anchored_overlap_false. }
  split; [done|]. by rewrite patterns_conflict_sym.
Qed.

Lemma anchored_pattern_never_overlaps_unanchored_witness :
  prefix_parts anchored_pattern = ["^src"; "services"] /\
  prefix_parts unanchored_pattern = ["src"; "services"] /\
  _patterns_conflict ReFragment.re_search anchored_pattern unanchored_pattern = false /\
  _patterns_conflict ReFragment.re_search unanchored_pattern anchored_pattern = false.
Proof.
  split; [reflexivity|]. split; [reflexivity|].
  apply (anchored_pattern_never_overlaps_unanchored ReFragment.re_search
           anchored_pattern unanchored_pattern "src/services/.*");
    try reflexivity.
  vm_compute. discriminate.
Defined.

(** X16. Whether a pattern counts as an exact path spelled as regex is
    decided by single characters: after the leading [^] and the trailing
    [$] are stripped, the text must contain none of
    [[ ] ( | { } ? + *].  The two-character wildcards of the list, [.*]
    and [.+], add nothing; a lone dot, a backslash, a closing parenthesis
    or an anchor inside the text do not make a pattern a wildcard
    pattern. *)
Theorem exact_regex_is_decided_by_single_characters (pattern : string) :
  _is_exact_regex pattern = true <->
  forall c, c ∈ chars (PyStr.rstrip "$" (PyStr.lstrip "^" pattern)) ->
            c ∉ wildcard_chars.
Proof. apply is_exact_regex_chars. Qed.

(** X17. The translation of a glob never contains [.*]: the second
    replacement rewrites every [*], the one written for [**/] included.
    So each [**/] of a glob, after a text without [*], is translated to
    [.[^/]*], one character followed by characters other than the
    separator.  Only [*] is translated: a glob without [*] is used as a
    regex as it stands, its dots and other special characters
    unescaped. *)
Theorem glob_translation_never_contains_dot_star :
  (forall pattern, PyStr.contains ".*" (glob_to_regex pattern) = false) /\
  (forall a b, "*"%char ∉ chars a ->
     glob_to_regex (a ++ "**/" ++ b) = a ++ ".[^/]*" ++ glob_to_regex b) /\
  (forall pattern, "*"%char ∉ chars pattern ->
     glob_to_regex pattern = pattern /\
     forall re_search path,
       matches re_search (FilePattern.mk pattern "glob") path =
       matches re_search (FilePattern.mk pattern "regex") path).
Proof.
  split_and!.
  - intros pattern. apply replace_star_shape.
  - apply glob_to_regex_double_star.
  - intros pattern Hn. split; [by apply glob_to_regex_no_star|].
    intros re_search path. unfold matches. simpl.
    by rewrite glob_to_regex_no_star.
Qed.

(** X18. A pattern of declared kind exact is matched literally even when
    the conflict test reclassifies it as a regex.  When both patterns are
    declared exact (as the loader declares every legacy string without
    [**]), one of them has none of the markers [\.], [.*], [$], [^] and
    the other has one, the two are reported not to conflict: the test
    asks [matches] of the reclassified pattern, which compares the texts
    because the declared kind is exact, and the texts differ. *)
Theorem reclassified_exact_pattern_is_matched_literally
    (re_search : string -> string -> re_result) (p1 p2 : FilePattern.t) :
  FilePattern.type p1 = "exact" -> FilePattern.type p2 = "exact" ->
  actual_type p1 = "exact" -> actual_type p2 = "regex" ->
  _patterns_conflict re_search p1 p2 = false /\
  _patterns_conflict re_search p2 p1 = false.
Proof.
  intros Ht1 Ht2 Ha1 Ha2.
  assert (Hconf : _patterns_conflict re_search p1 p2 = false).
  { unfold _patterns_conflict. rewrite Ha1, Ha2. simpl.
    unfold matches. rewrite Ht2. simpl.
    apply String.eqb_neq. intros Heq.
    unfold actual_type in Ha1, Ha2. rewrite Heq, Ht2 in Ha2. rewrite Ht1 in Ha1.
    destruct (_ || _); congruence. }
  split; [done|]. by rewrite patterns_conflict_sym.
Qed.

Lemma reclassified_exact_pattern_is_matched_literally_witness :
  file_patterns_of (FileStr "src/services/.*") = [legacy_service_regex] /\
  ReFragment.re_search "src/services/.*" "src/services/foo.ts" = re_found true /\
  _patterns_conflict ReFragment.re_search exact_service_file legacy_service_regex
    = false.
Proof.
  split; [reflexivity|]. split; [reflexivity|].
  apply (reclassified_exact_pattern_is_matched_literally ReFragment.re_search
           exact_service_file legacy_service_regex); reflexivity.
Defined.



(** X20. A pattern without a literal prefix is treated as too broad.  A
    pattern that starts with one of the special characters
    [. * [ ] ( ) ? + { } \] has the empty base path, and when it and
    another pattern count as regex or glob and are not both exact paths,
    the two are reported to conflict without any path being tried,
    whatever the two patterns match. *)
Theorem pattern_without_literal_prefix_conflicts
    (re_search : string -> string -> re_result) (p1 p2 : FilePattern.t)
    (c : ascii) (rest : string) :
  FilePattern.pattern p1 = String c rest ->
  is_base_meta c = true -> newline ∉ chars rest ->
  regex_or_glob (actual_type p1) = true ->
  regex_or_glob (actual_type p2) = true ->
  _is_exact_regex (FilePattern.pattern p1)
    && _is_exact_regex (FilePattern.pattern p2) = false ->
  _extract_base_path (FilePattern.pattern p1) = "" /\
  prefix_parts p1 = [] /\
  _patterns_conflict re_search p1 p2 = true /\
  _patterns_conflict re_search p2 p1 = true.
Proof.
  intros Hp Hc Hn Ht1 Ht2 Hexact.
  assert (Hb : _extract_base_path (FilePattern.pattern p1) = "").
  { rewrite Hp. by apply extract_base_path_meta_first. }
  assert (Hconf : _patterns_conflict re_search p1 p2 = true).
  { assert (Hne : forall t, regex_or_glob t = true -> String.eqb t "exact" = false).
    { intros t. unfold regex_or_glob.
      destruct (String.eqb_spec t "regex") as [->|_]; [done|].
      destruct (String.eqb_spec t "glob") as [->|_]; done. }
    unfold _patterns_conflict. rewrite (Hne _ Ht1), Ht1, Ht2, Hexact. simpl.
    by apply overlap_too_broad. }
  split_and!; [done|by unfold prefix_parts; rewrite Hb|done|].
  by rewrite patterns_conflict_sym.
Qed.

Lemma pattern_without_literal_prefix_conflicts_witness :
  prefix_parts any_markdown_pattern = [] /\
  _patterns_conflict ReFragment.re_search any_markdown_pattern source_ts_pattern
    = true.
Proof.
  split; [reflexivity|].
  refine (proj1 (proj2 (proj2 (pattern_without_literal_prefix_conflicts
            ReFragment.re_search any_markdown_pattern source_ts_pattern
            "." "*\.md$" _ _ _ _ _ _))));
    try reflexivity.
  vm_compute. intros Hin.
  repeat (apply elem_of_cons in Hin as [Hin|Hin]; [discriminate|]).
  by apply elem_of_nil in Hin.
Defined.

(** X21. For two tasks whose patterns are all plain exact paths (declared
    exact and without the markers [\.], [.*], [$], [^]), the conflict
    test is true exactly when the tasks have different ids and either one
    declares the other in [conflicts_with] or they name a common path. *)
Theorem exact_path_tasks_conflict_iff_shared_path
    (re_search : string -> string -> re_result) (task1 task2 : Task.t) :
  (forall p, p ∈ Task.file_patterns task1 -> actual_type p = "exact") ->
  (forall p, p ∈ Task.file_patterns task2 -> actual_type p = "exact") ->
  _check_file_conflict re_search task1 task2 = true <->
  Task.task_id task1 <> Task.task_id task2 /\
  (explicit_conflict task1 task2 = true \/
   exists p1 p2, p1 ∈ Task.file_patterns task1 /\ p2 ∈ Task.file_patterns task2 /\
                 FilePattern.pattern p1 = FilePattern.pattern p2).
Proof. apply check_file_conflict_exact. Qed.

Lemma exact_path_tasks_conflict_iff_shared_path_witness :
  exists self task1 task2,
    load_data overlap_deps overlap_files = Ok self /\
    Dict.get (tasks self) "A" = Some task1 /\
    Dict.get (tasks self) "B" = Some task2 /\
    Task.file_patterns task1 = [FilePattern.mk "src/a.ts" "exact"] /\
    Task.file_patterns task2 = [FilePattern.mk "src/a.ts" "exact"] /\
    _check_file_conflict ReFragment.re_search task1 task2 = true.
Proof.
  eexists _, _, _.
  split; [vm_compute; reflexivity|]. split; [reflexivity|]. split; [reflexivity|].
  split; [reflexivity|]. split; [reflexivity|].
  refine (proj2 (exact_path_tasks_conflict_iff_shared_path ReFragment.re_search
                   _ _ _ _) _).
  - intros p ->%list_elem_of_singleton. reflexivity.
  - intros p ->%list_elem_of_singleton. reflexivity.
  - split; [discriminate|]. right.
    exists (FilePattern.mk "src/a.ts" "exact"), (FilePattern.mk "src/a.ts" "exact").
    split_and!; [left|left|reflexivity].
Defined.

(** X22. When the conflict feed carries no [files] (as in the feeds the
    sibling scripts write), no two loaded tasks conflict and the plan is
    by dependency depth: a task without dependencies is in wave 1, and a
    task of wave [n + 2] has a dependency in wave [n + 1].  The
    [conflicts_with] lists of the feed play no part. *)
Theorem plan_without_file_patterns_is_by_depth
    re_search order dependencies file_patterns_data self plan :
  load_data dependencies file_patterns_data = Ok self ->
  (forall c, c ∈ file_patterns_data -> ConflictRecord.files c = None) ->
  generate_execution_plan re_search order self = Ok plan ->
  (forall k1 k2 task1 task2,
     Dict.get (tasks self) k1 = Some task1 ->
     Dict.get (tasks self) k2 = Some task2 ->
     _check_file_conflict re_search task1 task2 = false) /\
  (forall k task, Dict.get (tasks self) k = Some task ->
     Task.depends_on task = [] -> in_wave plan k 1) /\
  (forall k task n, Dict.get (tasks self) k = Some task ->
     in_wave plan k (S (S n)) ->
     exists d, d ∈ Task.depends_on task /\ in_wave plan d (S n)).
Proof.
  intros Hload Hnone Hplan. pose proof (load_data_wf _ _ _ Hload) as Hwf.
  assert (Hplain : forall k task, Dict.get (tasks self) k = Some task ->
            Task.file_patterns task = [] /\ Task.conflicts_with task = []).
  { intros k task. by apply (load_data_no_files _ _ _ _ _ Hload). }
  split.
  - intros k1 k2 task1 task2 H1 H2.
    destruct (Hplain _ _ H1) as [Hp Hc]. destruct (Hplain _ _ H2) as [_ Hc'].
    by apply check_file_conflict_no_patterns.
  - by apply (plan_by_depth re_search order self plan).
Qed.

Lemma plan_without_file_patterns_is_by_depth_witness :
  exists self plan,
    load_data chain_deps chain_conflicts = Ok self /\
    generate_execution_plan ReFragment.re_search canonical_order self = Ok plan /\
    map wave_ids (ExecutionPlan.waves plan) = [["A"; "D"]; ["B"; "E"]; ["C"]] /\
    forall k task, Dict.get (tasks self) k = Some task ->
      Task.depends_on task = [] -> in_wave plan k 1.
Proof.
  eexists _, _.
  split; [vm_compute; reflexivity|]. split; [vm_compute; reflexivity|].
  split; [reflexivity|].
  refine (proj1 (proj2 (plan_without_file_patterns_is_by_depth ReFragment.re_search
            canonical_order chain_deps chain_conflicts _ _ _ _ _)));
    [vm_compute; reflexivity| |vm_compute; reflexivity].
  intros c Hc. unfold chain_conflicts in Hc.
  repeat (apply elem_of_cons in Hc as [->|Hc]; [reflexivity|]).
  by apply elem_of_nil in Hc.
Defined.

(** X23. The result of a run does not depend on the order of the records
    in the two feeds, when no two records of a feed have the same
    [task_id]: the same plan, with the same waves, task order and summary,
    or the same error. *)
Theorem plan_does_not_depend_on_record_order
    re_search order dependencies1 dependencies2 data1 data2 :
  dependencies1 ≡ₚ dependencies2 -> data1 ≡ₚ data2 ->
  NoDup (map DepRecord.task_id dependencies1) ->
  NoDup (map ConflictRecord.task_id data1) ->
  run_planner re_search order dependencies1 data1 =
  run_planner re_search order dependencies2 data2.
Proof. apply run_planner_perm. Qed.

Lemma plan_does_not_depend_on_record_order_witness :
  run_planner ReFragment.re_search canonical_order overlap_deps overlap_files =
  run_planner ReFragment.re_search canonical_order
    (rev overlap_deps) (rev overlap_files).
Proof.
  apply (plan_does_not_depend_on_record_order ReFragment.re_search canonical_order
           overlap_deps (rev overlap_deps) overlap_files (rev overlap_files)).
  - apply Permutation_rev.
  - apply Permutation_rev.
  - vm_compute. repeat (constructor; [set_solver|]). constructor.
  - vm_compute. repeat (constructor; [set_solver|]). constructor.
Defined.
